(** * The Echoes of Blackwood Manor: the game engine of [adventure_game.py]

    A shallow embedding of the engine (data model, snapshot/undo/save,
    phantom AI, handlers, command dispatch and main loop) and the
    properties of it that the specification states.

    Modelling conventions.
    - Python [str] values are Rocq strings; the text helpers below follow
      Python's on ASCII text, which is what the game's own texts are.
    - Python [int] is [Z].  The float multipliers 0.5, 1.0 and 1.5 and their
      products with the small integer constants are exact in binary floating
      point, so they are rationals here and [int(...)] is truncation.
    - A Python [dict] whose order is observable ([Room.exits]) is an
      association list in insertion order; [Game.rooms], whose order is never
      observable, is a finite map; [Player.visited] is a finite set.
    - The module-level generator of [random], the file [save.json], the
      standard input and the console are fields of the machine state, next to
      the attributes of the [Game] object.
    - A JSON text is identified with the value it denotes: [json.dumps] and
      [json.loads] are inverse to each other on the values built here. *)

From Stdlib Require Import ZArith QArith Qround String Ascii List Lia.
From stdpp Require Import base option list gmap strings pretty.

Set Warnings "-register-all".

Local Close Scope Q_scope.
Local Open Scope Z_scope.

(** ** Text helpers (Python's [str] methods on ASCII text) *)

Module Str.

Definition is_upper (c : ascii) : bool :=
  let n := nat_of_ascii c in (65 <=? n)%nat && (n <=? 90)%nat.

Definition is_lower (c : ascii) : bool :=
  let n := nat_of_ascii c in (97 <=? n)%nat && (n <=? 122)%nat.

Definition lower_char (c : ascii) : ascii :=
  if is_upper c then ascii_of_nat (nat_of_ascii c + 32) else c.

Definition upper_char (c : ascii) : ascii :=
  if is_lower c then ascii_of_nat (nat_of_ascii c - 32) else c.

Fixpoint map_chars (f : ascii → ascii) (s : string) : string :=
  match s with
  | EmptyString => EmptyString
  | String c r => String (f c) (map_chars f r)
  end.

(** [s.lower()] and [s.upper()] *)
Definition lower : string → string := map_chars lower_char.
Definition upper : string → string := map_chars upper_char.

(** [s.capitalize()] *)
Definition capitalize (s : string) : string :=
  match s with
  | EmptyString => EmptyString
  | String c r => String (upper_char c) (lower r)
  end.

Fixpoint lstrip_by (p : ascii → bool) (s : string) : string :=
  match s with
  | EmptyString => EmptyString
  | String c r => if p c then lstrip_by p r else s
  end.

Definition strip_by (p : ascii → bool) (s : string) : string :=
  String.rev (lstrip_by p (String.rev (lstrip_by p s))).

(** [s.strip()] *)
Definition strip : string → string := strip_by Ascii.is_space.

Definition in_chars (cs : string) (c : ascii) : bool :=
  bool_decide (c ∈ list_ascii_of_string cs).

(** [s.strip(cs)] *)
Definition strip_chars (cs : string) : string → string :=
  strip_by (in_chars cs).

(** [s.split()] *)
Definition split : string → list string := String.words.

(** [sep.join(l)] *)
Definition join (sep : string) (l : list string) : string :=
  String.concat sep l.

(** [sub in s] *)
Fixpoint contains (sub s : string) : bool :=
  String.prefix sub s ||
  match s with
  | EmptyString => false
  | String _ r => contains sub r
  end.

Fixpoint replace_go (old new : string) (skip : nat) (s : string) : string :=
  match s with
  | EmptyString => EmptyString
  | String c r =>
      match skip with
      | S k => replace_go old new k r
      | O =>
          if String.prefix old s
          then new +:+ replace_go old new (String.length old - 1) r
          else String c (replace_go old new O r)
      end
  end.

(** [s.replace(old, new)] for a non-empty [old] *)
Definition replace (old new s : string) : string := replace_go old new O s.

(** [w[0].isupper()]; Python raises on an empty [w], which [split] never
    produces *)
Definition first_is_upper (w : string) : bool :=
  match w with
  | EmptyString => false
  | String c _ => is_upper c
  end.

(** [str(n)] for an integer *)
Definition of_Z (n : Z) : string := pretty n.

End Str.

Example lower_ex : Str.lower "Iron Key" = "iron key".
Proof. reflexivity. Qed.

Example replace_ex : Str.replace "up " "" "up iron key" = "iron key".
Proof. reflexivity. Qed.

Example strip_ex : Str.upper (Str.strip "  d-a-d ") = "D-A-D".
Proof. reflexivity. Qed.

Example contains_ex : Str.contains "safe" "the safe" = true.
Proof. reflexivity. Qed.

Example split_ex : Str.split "go  north now" = ["go"; "north"; "now"].
Proof. reflexivity. Qed.

Example of_Z_ex : Str.of_Z 472 = "472".
Proof. reflexivity. Qed.

(** ** Data model *)

(** A [dict] with string keys in insertion order. *)
Module Dict.

Fixpoint get {V} (k : string) (d : list (string * V)) : option V :=
  match d with
  | [] => None
  | (k', v) :: r => if decide (k = k') then Some v else get k r
  end.

(** [k in d] *)
Definition mem {V} (k : string) (d : list (string * V)) : bool :=
  bool_decide (is_Some (get k d)).

(** [d[k] = v]: an existing key keeps its position, a new one goes last *)
Fixpoint set {V} (k : string) (v : V) (d : list (string * V))
  : list (string * V) :=
  match d with
  | [] => [(k, v)]
  | (k', v') :: r =>
      if decide (k = k') then (k, v) :: r else (k', v') :: set k v r
  end.

(** [list(d.values())] *)
Definition values {V} (d : list (string * V)) : list V := d.*2.

Definition keys {V} (d : list (string * V)) : list string := d.*1.

End Dict.

Module Item.
Record t := mk {
  id : string;
  name : string;
  desc : string;
  takeable : bool;
  interactable : bool;
  hidden_text : option string;
  value : Z
}.
Global Instance eq_dec : EqDecision t.
Proof. solve_decision. Defined.
End Item.

Module Room.
Record t := mk {
  id : string;
  name : string;
  desc : string;
  exits : list (string * string);
  items : list Item.t;
  dark : bool;
  locked : bool;
  key_id : option string
}.
Definition set_exits v (p : t) : t :=
  mk (id p) (name p) (desc p) v (items p) (dark p) (locked p) (key_id p).
Definition set_items v (p : t) : t :=
  mk (id p) (name p) (desc p) (exits p) v (dark p) (locked p) (key_id p).
Definition set_locked v (p : t) : t :=
  mk (id p) (name p) (desc p) (exits p) (items p) (dark p) v (key_id p).
(** The part of a room that no snapshot carries. *)
Definition skeleton (r : t) : string * string * string * bool * option string :=
  (id r, name r, desc r, dark r, key_id r).
End Room.

Module Player.
Record t := mk {
  room_id : string;
  inventory : list Item.t;
  visited : gset string;
  journal : list string;
  sanity : Z;
  battery : Z;
  turns : Z;
  alive : bool;
  escaped : bool;
  tutorial_done : bool;
  difficulty : string
}.
Definition set_room_id v (p : t) : t :=
  mk v (inventory p) (visited p) (journal p) (sanity p) (battery p)
    (turns p) (alive p) (escaped p) (tutorial_done p) (difficulty p).
Definition set_inventory v (p : t) : t :=
  mk (room_id p) v (visited p) (journal p) (sanity p) (battery p) (turns p)
    (alive p) (escaped p) (tutorial_done p) (difficulty p).
Definition set_visited v (p : t) : t :=
  mk (room_id p) (inventory p) v (journal p) (sanity p) (battery p)
    (turns p) (alive p) (escaped p) (tutorial_done p) (difficulty p).
Definition set_journal v (p : t) : t :=
  mk (room_id p) (inventory p) (visited p) v (sanity p) (battery p)
    (turns p) (alive p) (escaped p) (tutorial_done p) (difficulty p).
Definition set_sanity v (p : t) : t :=
  mk (room_id p) (inventory p) (visited p) (journal p) v (battery p)
    (turns p) (alive p) (escaped p) (tutorial_done p) (difficulty p).
Definition set_battery v (p : t) : t :=
  mk (room_id p) (inventory p) (visited p) (journal p) (sanity p) v
    (turns p) (alive p) (escaped p) (tutorial_done p) (difficulty p).
Definition set_turns v (p : t) : t :=
  mk (room_id p) (inventory p) (visited p) (journal p) (sanity p)
    (battery p) v (alive p) (escaped p) (tutorial_done p) (difficulty p).
Definition set_alive v (p : t) : t :=
  mk (room_id p) (inventory p) (visited p) (journal p) (sanity p)
    (battery p) (turns p) v (escaped p) (tutorial_done p) (difficulty p).
Definition set_escaped v (p : t) : t :=
  mk (room_id p) (inventory p) (visited p) (journal p) (sanity p)
    (battery p) (turns p) (alive p) v (tutorial_done p) (difficulty p).
Definition set_tutorial_done v (p : t) : t :=
  mk (room_id p) (inventory p) (visited p) (journal p) (sanity p)
    (battery p) (turns p) (alive p) (escaped p) v (difficulty p).
Definition set_difficulty v (p : t) : t :=
  mk (room_id p) (inventory p) (visited p) (journal p) (sanity p)
    (battery p) (turns p) (alive p) (escaped p) (tutorial_done p) v.
End Player.

Module Phantom.
Record t := mk {
  room_id : string;
  active : bool;
  stun_timer : Z
}.
Definition set_room_id v (p : t) : t :=
  mk v (active p) (stun_timer p).
Definition set_active v (p : t) : t :=
  mk (room_id p) v (stun_timer p).
Definition set_stun_timer v (p : t) : t :=
  mk (room_id p) (active p) v.
End Phantom.

(** ** Configuration constants *)

Definition MAX_INV_SLOTS : nat := 5.
Definition STARTING_SANITY : Z := 100.
Definition STARTING_BATTERY : Z := 100.
Definition BATTERY_RESTORE : Z := 40.
Definition SANITY_RESTORE_AMULET : Z := 25.
Definition DRAIN_MOVE : Z := 1.
Definition DRAIN_WRONG_CODE : Z := 3.
Definition DRAIN_HINT : Z := 5.
Definition DRAIN_PHANTOM_ATTACK : Z := 15.
Definition BAT_DRAIN_NORMAL : Z := 2.
Definition BAT_DRAIN_DARK : Z := 5.
Definition BAT_COST_FLASH : Z := 20.
Definition CHANCE_PHANTOM_MOVE : Q := 45 # 100.
Definition THRESH_HALLUCINATE : Z := 60.
Definition FUZZY_CONFIDENCE : Z := 80.
Definition HISTORY_CAPACITY : nat := 10.

(** ** Exceptions and outcomes *)

Inductive exn :=
| KeyError (k : string)
| TypeError
| AttributeError
| EOFError
| JSONDecodeError
| IndexError.

(** The result of running a piece of the program.  [Stuck] is not a Python
    outcome: it marks an input the typed embedding does not follow, namely
    a snapshot that holds a value whose JSON type is not the one the
    dataclass annotations give the field (Python binds such a value
    unchecked).  No statement below is about a [Stuck] run. *)
Inductive outcome (A : Type) :=
| Ok (a : A)
| Raise (e : exn)
| Stuck.
Arguments Ok {A} a.
Arguments Raise {A} e.
Arguments Stuck {A}.

Global Instance outcome_ret : MRet outcome := λ A a, Ok a.
Global Instance outcome_bind : MBind outcome := λ A B f o,
  match o with
  | Ok a => f a
  | Raise e => Raise e
  | Stuck => Stuck
  end.

(** ** JSON values *)

Inductive json :=
| JNull
| JBool (b : bool)
| JInt (n : Z)
| JStr (s : string)
| JList (l : list json)
| JObj (kvs : list (string * json)).

Module Json.

(** [j[k]] *)
Definition subscript (j : json) (k : string) : outcome json :=
  match j with
  | JObj kvs =>
      match Dict.get k kvs with
      | Some v => Ok v
      | None => Raise (KeyError k)
      end
  | _ => Raise TypeError
  end.

(** [j.get(k, dflt)] *)
Definition get_default (j : json) (k : string) (dflt : json) : outcome json :=
  match j with
  | JObj kvs => Ok (default dflt (Dict.get k kvs))
  | _ => Raise AttributeError
  end.

Definition as_str (j : json) : outcome string :=
  match j with JStr s => Ok s | _ => Stuck end.
Definition as_bool (j : json) : outcome bool :=
  match j with JBool b => Ok b | _ => Stuck end.
Definition as_int (j : json) : outcome Z :=
  match j with JInt n => Ok n | _ => Stuck end.
Definition as_opt_str (j : json) : outcome (option string) :=
  match j with JStr s => Ok (Some s) | JNull => Ok None | _ => Stuck end.

Fixpoint each {A} (f : json → outcome A) (l : list json) : outcome (list A) :=
  match l with
  | [] => Ok []
  | j :: r => a ← f j; as' ← each f r; Ok (a :: as')
  end.

Definition as_list {A} (f : json → outcome A) (j : json) : outcome (list A) :=
  match j with JList l => each f l | _ => Stuck end.

Fixpoint each_value {A} (f : json → outcome A) (kvs : list (string * json))
  : outcome (list (string * A)) :=
  match kvs with
  | [] => Ok []
  | (k, j) :: r => a ← f j; as' ← each_value f r; Ok ((k, a) :: as')
  end.

Definition as_dict {A} (f : json → outcome A) (j : json)
  : outcome (list (string * A)) :=
  match j with JObj kvs => each_value f kvs | _ => Stuck end.

(** The keyword check of a dataclass constructor called with the keyword arguments [kvs]:
    every key names a field and every field without a default is given. *)
Definition kwargs_ok (fields required : list string)
    (kvs : list (string * json)) : bool :=
  forallb (λ k, bool_decide (k ∈ fields)) (Dict.keys kvs) &&
  forallb (λ k, Dict.mem k kvs) required.

(** The value bound to field [k]: the keyword argument, else the default *)
Definition field {A} (kvs : list (string * json)) (k : string) (dflt : A)
    (dec : json → outcome A) : outcome A :=
  match Dict.get k kvs with
  | Some j => dec j
  | None => Ok dflt
  end.

End Json.

(** ** Dataclasses to and from JSON ([asdict] and keyword construction) *)

Definition json_of_opt_str (o : option string) : json :=
  match o with Some s => JStr s | None => JNull end.

(** [asdict(i)] for an item *)
Definition asdict_Item (i : Item.t) : json :=
  JObj [("id", JStr (Item.id i)); ("name", JStr (Item.name i));
        ("desc", JStr (Item.desc i)); ("takeable", JBool (Item.takeable i));
        ("interactable", JBool (Item.interactable i));
        ("hidden_text", json_of_opt_str (Item.hidden_text i));
        ("value", JInt (Item.value i))].

Definition Item_fields : list string :=
  ["id"; "name"; "desc"; "takeable"; "interactable"; "hidden_text"; "value"].

(** [Item( **i )] for a decoded JSON value [i] *)
Definition new_Item (i : json) : outcome Item.t :=
  match i with
  | JObj kvs =>
      if Json.kwargs_ok Item_fields ["id"; "name"; "desc"] kvs then
        id ← Json.field kvs "id" "" Json.as_str;
        name ← Json.field kvs "name" "" Json.as_str;
        desc ← Json.field kvs "desc" "" Json.as_str;
        takeable ← Json.field kvs "takeable" true Json.as_bool;
        interactable ← Json.field kvs "interactable" false Json.as_bool;
        hidden_text ← Json.field kvs "hidden_text" None Json.as_opt_str;
        value ← Json.field kvs "value" 0 Json.as_int;
        Ok (Item.mk id name desc takeable interactable hidden_text value)
      else Raise TypeError
  | _ => Raise TypeError
  end.

(** [asdict(self.player)] with ["visited"] replaced by [list(visited)]
    (lines 240-241).  The order in which Python lists a set is not fixed;
    [_restore] turns the list back into a set, so any order gives the same
    state and the canonical one stands for it. *)
Definition asdict_Player (p : Player.t) : json :=
  JObj [("room_id", JStr (Player.room_id p));
        ("inventory", JList (asdict_Item <$> Player.inventory p));
        ("visited", JList (JStr <$> elements (Player.visited p)));
        ("journal", JList (JStr <$> Player.journal p));
        ("sanity", JInt (Player.sanity p));
        ("battery", JInt (Player.battery p));
        ("turns", JInt (Player.turns p));
        ("alive", JBool (Player.alive p));
        ("escaped", JBool (Player.escaped p));
        ("tutorial_done", JBool (Player.tutorial_done p));
        ("difficulty", JStr (Player.difficulty p))].

Definition Player_fields : list string :=
  ["room_id"; "inventory"; "visited"; "journal"; "sanity"; "battery";
   "turns"; "alive"; "escaped"; "tutorial_done"; "difficulty"].

(** [Player( **d )] (line 263).  The two container fields are bound to the
    raw JSON there and rebuilt by the next two lines; they are the defaults
    here until then. *)
Definition new_Player (d : json) : outcome Player.t :=
  match d with
  | JObj kvs =>
      if Json.kwargs_ok Player_fields ["room_id"] kvs then
        room_id ← Json.field kvs "room_id" "" Json.as_str;
        journal ← Json.field kvs "journal" [] (Json.as_list Json.as_str);
        sanity ← Json.field kvs "sanity" STARTING_SANITY Json.as_int;
        battery ← Json.field kvs "battery" STARTING_BATTERY Json.as_int;
        turns ← Json.field kvs "turns" 0 Json.as_int;
        alive ← Json.field kvs "alive" true Json.as_bool;
        escaped ← Json.field kvs "escaped" false Json.as_bool;
        tutorial_done ← Json.field kvs "tutorial_done" false Json.as_bool;
        difficulty ← Json.field kvs "difficulty" "normal" Json.as_str;
        Ok (Player.mk room_id [] ∅ journal sanity battery turns alive escaped
              tutorial_done difficulty)
      else Raise TypeError
  | _ => Raise TypeError
  end.

(** A failure at a point where Python has already rebound [self.player] to
    an object that still holds raw JSON: the typed state cannot show it. *)
Definition untyped_after {A} (o : outcome A) : outcome A :=
  match o with Ok a => Ok a | _ => Stuck end.

(** Lines 263-265: the player object of a snapshot *)
Definition restore_Player (d : json) : outcome Player.t :=
  p ← new_Player d;
  inv ← untyped_after (l ← Json.subscript d "inventory"; Json.as_list new_Item l);
  vis ← untyped_after (l ← Json.get_default d "visited" (JList []);
                       Json.as_list Json.as_str l);
  Ok (Player.set_visited (list_to_set vis) (Player.set_inventory inv p)).

Definition asdict_Phantom (p : Phantom.t) : json :=
  JObj [("room_id", JStr (Phantom.room_id p));
        ("active", JBool (Phantom.active p));
        ("stun_timer", JInt (Phantom.stun_timer p))].

(** [Phantom( **d )] (line 268) *)
Definition new_Phantom (d : json) : outcome Phantom.t :=
  match d with
  | JObj kvs =>
      if Json.kwargs_ok ["room_id"; "active"; "stun_timer"] ["room_id"] kvs then
        room_id ← Json.field kvs "room_id" "" Json.as_str;
        active ← Json.field kvs "active" false Json.as_bool;
        stun_timer ← Json.field kvs "stun_timer" 0 Json.as_int;
        Ok (Phantom.mk room_id active stun_timer)
      else Raise TypeError
  | _ => Raise TypeError
  end.

(** The per-room entry of a snapshot (lines 247-251) *)
Definition room_entry (r : Room.t) : json :=
  JObj [("locked", JBool (Room.locked r));
        ("items", JList (asdict_Item <$> Room.items r));
        ("exits", JObj (prod_map id JStr <$> Room.exits r))].

Example new_Item_defaults :
  new_Item (JObj [("id", JStr "k"); ("name", JStr "K"); ("desc", JStr "d")])
  = Ok (Item.mk "k" "K" "d" true false None 0).
Proof. reflexivity. Qed.

Example new_Item_unexpected_keyword :
  new_Item (JObj [("id", JStr "k"); ("name", JStr "K"); ("desc", JStr "d");
                  ("colour", JStr "red")]) = Raise TypeError.
Proof. reflexivity. Qed.

(** ** The [Game] object *)

(** The attributes of [Game] that the engine reads and writes ([console]
    and the fixed command table [cmds] are not state). *)
Record Game := mkGame {
  seed : string;
  safe_code : string;
  piano_solved : bool;
  history : list json;
  rooms : gmap string Room.t;
  player : Player.t;
  phantom : Phantom.t
}.

Definition set_seed v (g : Game) : Game :=
  mkGame v (safe_code g) (piano_solved g) (history g) (rooms g) (player g)
    (phantom g).
Definition set_safe_code v (g : Game) : Game :=
  mkGame (seed g) v (piano_solved g) (history g) (rooms g) (player g)
    (phantom g).
Definition set_piano_solved v (g : Game) : Game :=
  mkGame (seed g) (safe_code g) v (history g) (rooms g) (player g) (phantom g).
Definition set_history v (g : Game) : Game :=
  mkGame (seed g) (safe_code g) (piano_solved g) v (rooms g) (player g)
    (phantom g).
Definition set_rooms v (g : Game) : Game :=
  mkGame (seed g) (safe_code g) (piano_solved g) (history g) v (player g)
    (phantom g).
Definition set_player v (g : Game) : Game :=
  mkGame (seed g) (safe_code g) (piano_solved g) (history g) (rooms g) v
    (phantom g).
Definition set_phantom v (g : Game) : Game :=
  mkGame (seed g) (safe_code g) (piano_solved g) (history g) (rooms g)
    (player g) v.

(** [Game._snapshot] *)
Definition _snapshot (g : Game) : json :=
  JObj [("player", asdict_Player (player g));
        ("phantom", asdict_Phantom (phantom g));
        ("seed", JStr (seed g));
        ("safe_code", JStr (safe_code g));
        ("piano_solved", JBool (piano_solved g));
        ("rooms", JObj (prod_map id room_entry <$> map_to_list (rooms g)))].

(** [Game._has] *)
Definition _has (item_id : string) (g : Game) : bool :=
  existsb (λ i, bool_decide (Item.id i = item_id)) (Player.inventory (player g)).

(** [Game._diff_mult] *)
Definition _diff_mult (g : Game) : Q :=
  if decide (Player.difficulty (player g) = "story") then 1 # 2
  else if decide (Player.difficulty (player g) = "hard") then 3 # 2
  else 1 # 1.

(** [int(x)] on a float: truncation towards zero *)
Definition py_int (x : Q) : Z := Z.quot (Qnum x) (Z.pos (Qden x)).

(** [int(c * self._diff_mult())] for an integer constant [c] *)
Definition scaled (c : Z) (g : Game) : Z :=
  py_int (Qmult (inject_Z c) (_diff_mult g)).

(** [round(x)] on a float, as Python rounds: to the nearest integer, a tie
    to the even one.  Not used by the engine; it is the rounding that the
    specification names for the phantom's damage. *)
Definition py_round (x : Q) : Z :=
  let f := Qfloor x in
  match Qcompare (Qminus x (inject_Z f)) (1 # 2) with
  | Lt => f
  | Gt => f + 1
  | Eq => if Z.even f then f else f + 1
  end.

(** The key that [Game._room] looks up: [rid if rid else
    self.player.room_id], where an empty [rid] counts as none *)
Definition room_key (rid : option string) (g : Game) : string :=
  match rid with
  | Some r => if decide (r = "") then Player.room_id (player g) else r
  | None => Player.room_id (player g)
  end.

(** [l.remove(x)] for an [x] that occurs in [l] *)
Fixpoint list_remove_first {A} `{EqDecision A} (x : A) (l : list A) : list A :=
  match l with
  | [] => []
  | y :: r => if decide (x = y) then r else y :: list_remove_first x r
  end.

(** [next((i for i in l if p(i)), None)] *)
Definition next_match {A} (p : A → bool) (l : list A) : option A :=
  List.find p l.

(** [Game._init_world]: the map, with the note that shows the safe code *)
Definition _init_world (safe_code : string) : gmap string Room.t :=
  let flashlight := Item.mk "flashlight" "Flashlight" "Rugged and heavy." true false None 0 in
  let note := Item.mk "note" "Crumpled Note" "Hastily scrawled numbers." true true
                (Some ("Code: " +:+ safe_code)) 0 in
  let golden_key := Item.mk "golden_key" "Golden Key" "Heavy gold key." true false None 50 in
  let safe := Item.mk "safe" "Safe" "Needs a 3-digit code." false false None 0 in
  let piano := Item.mk "piano" "Grand Piano" "Elegant keys covered in dust." false false None 0 in
  let amulet := Item.mk "amulet" "Jade Amulet" "Warm to the touch." true false None 0 in
  let batteries := Item.mk "batteries" "Spare Batteries" "Standard voltage." true false None 10 in
  let sapphire := Item.mk "sapphire" "Star Sapphire" "A brilliant gem worth a fortune."
                    true false None 500 in
  let gate_key := Item.mk "gate_key" "Iron Key" "Rusty but solid." true false None 0 in
  list_to_map
    [("gate", Room.mk "gate" "Manor Gate"
        "Rain lashes down. A massive gate blocks North. An old [yellow]Iron Key[/] sits in the mud."
        [("north", "foyer")] [gate_key] false false None);
     ("foyer", Room.mk "foyer" "Foyer" "Grand entrance. Dust everywhere."
        [("north", "library"); ("east", "kitchen"); ("west", "bedroom"); ("south", "gate")]
        [flashlight] false true (Some "gate_key"));
     ("kitchen", Room.mk "kitchen" "Kitchen" "Smells of rot."
        [("west", "foyer"); ("down", "basement")] [note; batteries] false false None);
     ("library", Room.mk "library" "Library" "Quiet rows of books."
        [("south", "foyer"); ("up", "attic")] [safe; piano] false false None);
     ("bedroom", Room.mk "bedroom" "Master Bedroom" "Moonlight hits the mirror."
        [("east", "foyer")] [amulet] false false None);
     ("basement", Room.mk "basement" "Basement" "Damp and cold."
        [("up", "kitchen")] [golden_key] true true (Some "silver_key"));
     ("attic", Room.mk "attic" "Attic" "Cobwebs and memories."
        [("down", "library")] [] false false None);
     ("garden", Room.mk "garden" "Freedom" "Fresh air!"
        [("north", "foyer")] [] false true (Some "golden_key"));
     ("study", Room.mk "study" "Secret Study" "A hidden room."
        [("west", "library")] [sapphire] false false None)].

(** ** Libraries the engine calls *)

(** The module-level generator of [random]: its state, seeding from a
    string, [random.random()] and the generator's [_randbelow(n)], which is
    what [random.randint] and [random.choice] draw from. *)
Record RandomGen := {
  rng : Type;
  rng_seed : string → rng;
  rng_random : rng → Q * rng;
  rng_randbelow : nat → rng → nat * rng
}.

(** The file [save.json]: missing, holding a text that [json.loads]
    rejects, or holding the text of a JSON value. *)
Inductive save_file :=
| NoFile
| Unreadable
| Saved (j : json).

(** A small linear congruential generator, to run the engine on concrete
    inputs. *)
Module Lcg.
Definition next (s : Z) : Z := (s * 1103515245 + 12345) mod 2147483648.
Definition of_seed (s : string) : Z :=
  foldl (λ acc c, next (acc + Z.of_nat (nat_of_ascii c))) 0
    (list_ascii_of_string s).
Definition random (s : Z) : Q * Z :=
  (Qmake (next s / 65536 mod 1000) 1000, next s).
Definition below (n : nat) (s : Z) : nat * Z :=
  (Z.to_nat (next s / 65536 mod Z.of_nat n), next s).
Definition gen : RandomGen :=
  {| rng := Z; rng_seed := of_seed; rng_random := random; rng_randbelow := below |}.
End Lcg.

Section Engine.

Context {G : RandomGen}.

(** [thefuzz.process.extractOne(query, choices)]: the best choice and its
    score on the 0-100 scale. *)
Variable extractOne : string → list string → string * Z.

(** ** Machine state: the [Game] object and the process around it *)

Record World := mkWorld {
  game : Game;
  rand : rng G;             (* the generator of the [random] module *)
  save_json : save_file;    (* the file save.json *)
  stdin : list string;      (* the lines still to be read *)
  console : list string;    (* what was printed, oldest first *)
  sound_enabled : bool      (* SoundEngine.enabled *)
}.

Definition set_game v (w : World) : World :=
  mkWorld v (rand w) (save_json w) (stdin w) (console w) (sound_enabled w).
Definition set_rand v (w : World) : World :=
  mkWorld (game w) v (save_json w) (stdin w) (console w) (sound_enabled w).
Definition set_save_json v (w : World) : World :=
  mkWorld (game w) (rand w) v (stdin w) (console w) (sound_enabled w).
Definition set_stdin v (w : World) : World :=
  mkWorld (game w) (rand w) (save_json w) v (console w) (sound_enabled w).
Definition set_console v (w : World) : World :=
  mkWorld (game w) (rand w) (save_json w) (stdin w) v (sound_enabled w).
Definition set_sound_enabled v (w : World) : World :=
  mkWorld (game w) (rand w) (save_json w) (stdin w) (console w) v.

(** ** The monad of the engine: state that survives an exception *)

Definition M (A : Type) : Type := World → outcome A * World.

#[local] Instance M_ret : MRet M := λ A a w, (Ok a, w).
#[local] Instance M_bind : MBind M := λ A B f m w,
  match m w with
  | (Ok a, w') => f a w'
  | (Raise e, w') => (Raise e, w')
  | (Stuck, w') => (Stuck, w')
  end.

Definition raise {A} (e : exn) : M A := λ w, (Raise e, w).
Definition lift {A} (o : outcome A) : M A := λ w, (o, w).
(** Reading the attributes of [self] *)
Definition get : M Game := λ w, (Ok (game w), w).
(** Writing attributes of [self] *)
Definition modify (f : Game → Game) : M unit :=
  λ w, (Ok tt, set_game (f (game w)) w).

Definition modify_player (f : Player.t → Player.t) : M unit :=
  modify (λ g, set_player (f (player g)) g).
Definition modify_phantom (f : Phantom.t → Phantom.t) : M unit :=
  modify (λ g, set_phantom (f (phantom g)) g).
(** An attribute assignment on the room object stored under [rid] *)
Definition modify_room (rid : string) (f : Room.t → Room.t) : M unit :=
  modify (λ g, set_rooms (alter f rid (rooms g)) g).

(** [self.console.print(s)]: the text, without panel or table decoration *)
Definition print (s : string) : M unit :=
  λ w, (Ok tt, set_console (console w ++ [s])%list w).

(** [input(prompt)]: the next line of the standard input *)
Definition input : M string := λ w,
  match stdin w with
  | [] => (Raise EOFError, w)
  | l :: r => (Ok l, set_stdin r w)
  end.

(** The read of the main loop: [input] with its [except EOFError] *)
Definition read_line : M (option string) := λ w,
  match stdin w with
  | [] => (Ok None, w)
  | l :: r => (Ok (Some l), set_stdin r w)
  end.

(** [SoundEngine.enabled = b] *)
Definition set_sound (b : bool) : M unit :=
  λ w, (Ok tt, set_sound_enabled b w).

(** Writing [text] to save.json *)
Definition write_save (j : json) : M unit :=
  λ w, (Ok tt, set_save_json (Saved j) w).

(** What is found at save.json *)
Definition read_save : M save_file := λ w, (Ok (save_json w), w).

(** [random.random()] *)
Definition random_random : M Q := λ w,
  (Ok (rng_random G (rand w)).1, set_rand (rng_random G (rand w)).2 w).

Definition randbelow (n : nat) : M nat := λ w,
  (Ok (rng_randbelow G n (rand w)).1, set_rand (rng_randbelow G n (rand w)).2 w).

(** [random.randint(a, b)] *)
Definition randint (a b : Z) : M Z :=
  k ← randbelow (Z.to_nat (b - a + 1)); mret (a + Z.of_nat k).

(** [random.choice(l)] *)
Definition choice (l : list string) : M string :=
  k ← randbelow (length l);
  match l !! k with
  | Some x => mret x
  | None => raise IndexError
  end.

(** [a < b] on floats *)
Definition Qltb (a b : Q) : bool :=
  match Qcompare a b with Lt => true | _ => false end.

(** ** Save/undo system *)

(** [d.items()] *)
Definition json_items (d : json) : outcome (list (string * json)) :=
  match d with
  | JObj kvs => Ok kvs
  | _ => Raise AttributeError
  end.

(** The loop of lines 271-275 *)
Fixpoint restore_rooms (l : list (string * json)) : M unit :=
  match l with
  | [] => mret tt
  | (rid, r_data) :: rest =>
      g ← get;
      (if decide (is_Some (rooms g !! rid)) then
         locked ← lift (v ← Json.subscript r_data "locked"; Json.as_bool v);
         modify_room rid (Room.set_locked locked);;
         items ← lift (v ← Json.subscript r_data "items";
                       Json.as_list new_Item v);
         modify_room rid (Room.set_items items);;
         exits ← lift (v ← Json.subscript r_data "exits";
                       Json.as_dict Json.as_str v);
         modify_room rid (Room.set_exits exits)
       else mret tt);;
      restore_rooms rest
  end.

(** [Game._restore], on the value that [json.loads] returns *)
Definition _restore (data : json) : M unit :=
  s ← lift (v ← Json.subscript data "seed"; Json.as_str v);
  modify (set_seed s);;
  c ← lift (v ← Json.subscript data "safe_code"; Json.as_str v);
  modify (set_safe_code c);;
  b ← lift (v ← Json.get_default data "piano_solved" (JBool false);
            Json.as_bool v);
  modify (set_piano_solved b);;
  p ← lift (d ← Json.subscript data "player"; restore_Player d);
  modify (set_player p);;
  ph ← lift (d ← Json.subscript data "phantom"; new_Phantom d);
  modify (set_phantom ph);;
  rs ← lift (d ← Json.subscript data "rooms"; json_items d);
  restore_rooms rs.

(** [Game._record_action] *)
Definition _record_action : M unit :=
  modify (λ g,
    let h := (history g ++ [_snapshot g])%list in
    set_history (if decide (HISTORY_CAPACITY < length h)%nat then tail h else h) g).

(** ** Helpers *)

(** [Game._room] *)
Definition _room (rid : option string) : M Room.t :=
  g ← get;
  match rooms g !! room_key rid g with
  | Some r => mret r
  | None => raise (KeyError (room_key rid g))
  end.

Definition swaps : list (string * string) :=
  [("dust", "ash"); ("quiet", "whispering"); ("shadows", "monsters");
   ("smell", "stench"); ("old", "ancient"); ("piano", "coffin");
   ("battery", "lifeline"); ("light", "hope"); ("safe", "vault")].

(** The loop of [_process_text]; [random.random()] is drawn only for a word
    that is a key of [swaps] *)
Fixpoint process_words (ws : list string) : M (list string) :=
  match ws with
  | [] => mret []
  | w :: r =>
      let clean := Str.lower (Str.strip_chars ".,!?:" w) in
      w' ← match Dict.get clean swaps with
           | Some new_w =>
               x ← random_random;
               if Qltb x (4 # 10) then
                 mret ("[bold magenta]" +:+
                       (if Str.first_is_upper w then Str.capitalize new_w
                        else new_w) +:+ "[/]")
               else mret w
           | None => mret w
           end;
      out ← process_words r;
      mret (w' :: out)
  end.

(** [Game._process_text] *)
Definition _process_text (text : string) : M string :=
  g ← get;
  if decide (THRESH_HALLUCINATE < Player.sanity (player g)) then mret text
  else out ← process_words (Str.split text); mret (Str.join " " out).

(** ** Enemy AI *)

(** [VisualFX.shake(console)] with the default intensity 3: three draws of
    [random.randint(1, 2)] from the module-level generator (the pause and
    the screen clearing are not modelled) *)
Definition shake_once : M unit :=
  k ← randint 1 2;
  print (Str.join "" (replicate (Z.to_nat k) (String "010" ""))).

Definition shake : M unit := shake_once;; shake_once;; shake_once.

(** [Game._update_phantom] *)
Definition _update_phantom : M unit :=
  g ← get;
  (* Stun check *)
  if decide (Player.turns (player g) < Phantom.stun_timer (phantom g)) then mret tt
  else
    (* Activation logic *)
    (if bool_decide (8 < Player.turns (player g))
        && negb (Phantom.active (phantom g))
        && Player.tutorial_done (player g)
     then modify_phantom (Phantom.set_active true);;
          print "[bold magenta]Something has awakened in the house...[/]"
     else mret tt);;
    g ← get;
    if negb (Phantom.active (phantom g)) then mret tt
    else
      (* Attack logic *)
      (if decide (Phantom.room_id (phantom g) = Player.room_id (player g)) then
         shake;;
         print "[bold red]THE PHANTOM SCREAMS![/]
[italic]Your mind begins to fracture![/]";;
         modify_player (λ p,
           Player.set_sanity (Player.sanity p - scaled DRAIN_PHANTOM_ATTACK g) p)
       else mret tt);;
      (* Move logic *)
      x ← random_random;
      if Qltb x CHANCE_PHANTOM_MOVE then
        g ← get;
        current_r ← _room (Some (Phantom.room_id (phantom g)));
        match Room.exits current_r with
        | [] => mret tt
        | _ :: _ =>
            c ← choice (Dict.values (Room.exits current_r));
            modify_phantom (Phantom.set_room_id c)
        end
      else mret tt.

(** [Game._update_status] *)
Definition _update_status : M unit :=
  g ← get;
  modify_player (λ p, Player.set_sanity (Player.sanity p - scaled DRAIN_MOVE g) p);;
  curr ← _room None;
  g ← get;
  if Room.dark curr && _has "flashlight" g then
    modify_player (λ p,
      Player.set_battery (Z.max 0 (Player.battery p - scaled BAT_DRAIN_DARK g)) p)
  else if _has "flashlight" g then
    modify_player (λ p,
      Player.set_battery (Z.max 0 (Player.battery p - scaled BAT_DRAIN_NORMAL g)) p)
  else mret tt.

(** ** Action handlers *)

(** [Game.mute] *)
Definition mute (_ : string) : M unit :=
  set_sound false;;
  print "[yellow]Audio Muted.[/]".

(** [Game.unmute] *)
Definition unmute (_ : string) : M unit :=
  set_sound true;;
  print "[green]Audio Enabled.[/]".

(** [Game.flash] *)
Definition flash (_ : string) : M unit :=
  _record_action;;
  g ← get;
  if negb (_has "flashlight" g) then print "[red]No flashlight![/]"
  else
    let cost := scaled BAT_COST_FLASH g in
    if decide (Player.battery (player g) < cost) then
      print "[red]Battery too low![/]"
    else
      modify_player (λ p, Player.set_battery (Player.battery p - cost) p);;
      print ("[bold white]You unleash a blinding burst! (Battery -"
             +:+ Str.of_Z cost +:+ ")[/]");;
      (* Check hit *)
      if decide (Phantom.room_id (phantom g) = Player.room_id (player g)) then
        print "[bold green]The Phantom shrieks and flees![/]";;
        modify_phantom (Phantom.set_stun_timer (Player.turns (player g) + 3));;
        (* Teleport phantom away *)
        curr_phantom_room ← _room (Some (Phantom.room_id (phantom g)));
        match Room.exits curr_phantom_room with
        | [] => mret tt
        | _ :: _ =>
            c ← choice (Dict.values (Room.exits curr_phantom_room));
            modify_phantom (Phantom.set_room_id c)
        end
      else print "[italic]Nothing but dust moths.[/]".

(** [Game.listen] *)
Definition listen (_ : string) : M unit :=
  _record_action;;
  print "[italic]Listening...[/]";;
  curr ← _room None;
  g ← get;
  if decide (Phantom.room_id (phantom g) = Room.id curr) then
    print "[bold red]IT IS HERE![/]"
  else
    let is_near :=
      existsb (λ exit_id, bool_decide (Phantom.room_id (phantom g) = exit_id))
        (Dict.values (Room.exits curr)) in
    if is_near then print "[bold yellow]You hear shuffling nearby.[/]"
    else print "[dim]Silence.[/]".

(** The truth value of [dest.key_id and self._has(dest.key_id)] *)
Definition holds_key (key_id : option string) (g : Game) : bool :=
  match key_id with
  | Some k => negb (bool_decide (k = "")) && _has k g
  | None => false
  end.

(** [Game.move] *)
Definition move (direction : string) : M unit :=
  _record_action;;
  curr ← _room None;
  match Dict.get direction (Room.exits curr) with
  | None => print ("[yellow]Can't go '" +:+ direction +:+ "'.[/]")
  | Some d =>
      g ← get;
      dest ← _room (Some d);
      enter ←
        (if Room.locked dest then
           if holds_key (Room.key_id dest) g then
             print ("[green]Unlocked " +:+ Room.name dest +:+ ".[/]");;
             modify_room (room_key (Some d) g) (Room.set_locked false);;
             (if decide (Room.id dest = "foyer") then
                modify_player (Player.set_tutorial_done true)
              else mret tt);;
             mret true
           else print "[red]Locked.[/]";; mret false
         else mret true);
      if enter : bool then
        modify_player (λ p,
          Player.set_turns (Player.turns p + 1)
            (Player.set_visited ({[Room.id dest]} ∪ Player.visited p)
               (Player.set_room_id (Room.id dest) p)));;
        _update_status;;
        _update_phantom;;
        (* Light check *)
        g ← get;
        if Room.dark dest then
          if negb (_has "flashlight" g) then
            print "[bold red]Darkness consumes you.[/]";;
            modify_player (Player.set_alive false)
          else if decide (Player.battery (player g) ≤ 0) then
            print "[bold red]Flashlight dead. You die.[/]";;
            modify_player (Player.set_alive false)
          else mret tt
        else mret tt
      else mret tt
  end.

(** [Game.take] *)
Definition take (target : string) : M unit :=
  _record_action;;
  let target := Str.replace "up " "" target in
  room ← _room None;
  g ← get;
  (* Find item *)
  match next_match (λ i, bool_decide (Str.lower (Item.name i) = target)
                         || bool_decide (Item.id i = target))
          (Room.items room) with
  | None => print ("[yellow]Can't take '" +:+ target +:+ "'.[/]")
  | Some item =>
      if negb (Item.takeable item) then
        print ("[yellow]Can't take '" +:+ target +:+ "'.[/]")
      else if decide (MAX_INV_SLOTS ≤ length (Player.inventory (player g)))%nat then
        print "[red]Inventory full![/]"
      else
        modify_room (room_key None g)
          (λ r, Room.set_items (list_remove_first item (Room.items r)) r);;
        modify_player (λ p,
          Player.set_inventory (Player.inventory p ++ [item])%list p);;
        print ("[green]Taken: " +:+ Item.name item +:+ "[/]")
  end.

(** [Game.use] *)
Definition use (target : string) : M unit :=
  _record_action;;
  g ← get;
  if Str.contains "battery" target || Str.contains "batteries" target then
    match next_match (λ i, bool_decide (Item.id i = "batteries"))
            (Player.inventory (player g)) with
    | Some bat =>
        modify_player (λ p,
          Player.set_inventory (list_remove_first bat (Player.inventory p)) p);;
        modify_player (λ p,
          Player.set_battery (Z.min 100 (Player.battery p + BATTERY_RESTORE)) p);;
        g ← get;
        print ("[green]Recharged. Battery: "
               +:+ Str.of_Z (Player.battery (player g)) +:+ "%[/]")
    | None => print "[red]No batteries.[/]"
    end
  else if Str.contains "amulet" target then
    match next_match (λ i, bool_decide (Item.id i = "amulet"))
            (Player.inventory (player g)) with
    | Some amu =>
        modify_player (λ p,
          Player.set_inventory (list_remove_first amu (Player.inventory p)) p);;
        modify_player (λ p,
          Player.set_sanity (Z.min 100 (Player.sanity p + SANITY_RESTORE_AMULET)) p);;
        print "[green]Sanity restored.[/]"
    | None => print "[red]No amulet.[/]"
    end
  else print ("[yellow]Can't use '" +:+ target +:+ "' directly.[/]").

(** [Game.unlock] *)
Definition unlock (target : string) : M unit :=
  _record_action;;
  g ← get;
  (* Specific puzzle: Library Safe *)
  if Str.contains "safe" target
     && bool_decide (Player.room_id (player g) = "library") then
    code ← input;
    if decide (code = safe_code g) then
      print "[green]Safe opens![/]";;
      _ ← _room None;
      modify_room (room_key None g)
        (λ r, Room.set_items
                (Room.items r ++
                 [Item.mk "silver_key" "Silver Key" "Small key." true false None 0])%list
                r)
    else
      print "[red]Wrong.[/]";;
      modify_player (λ p,
        Player.set_sanity (Player.sanity p - scaled DRAIN_WRONG_CODE g) p)
  else print "[yellow]Nothing to unlock.[/]".

(** [Game.play_piano] *)
Definition play_piano (target : string) : M unit :=
  _record_action;;
  g ← get;
  if Str.contains "piano" target
     && bool_decide (Player.room_id (player g) = "library") then
    if piano_solved g then print "Already solved."
    else
      notes ← input;
      let notes := Str.upper (Str.strip notes) in
      if bool_decide (notes ∈ ["DAD"; "D-A-D"]) then
        print "[cyan]A hidden door slides open to the East![/]";;
        match rooms g !! "library" with
        | Some _ =>
            modify_room "library"
              (λ r, Room.set_exits (Dict.set "east" "study" (Room.exits r)) r);;
            modify (set_piano_solved true)
        | None => raise (KeyError "library")
        end
      else
        print "[red]Discordant noise![/]";;
        modify_player (λ p, Player.set_sanity (Player.sanity p - 2) p)
  else print "[yellow]No piano.[/]".

(** The truth value of [item.interactable and item.hidden_text], with the
    text when true *)
Definition shown_hidden_text (item : Item.t) : option string :=
  if Item.interactable item then
    match Item.hidden_text item with
    | Some h => if decide (h = "") then None else Some h
    | None => None
    end
  else None.

(** [Game.look] *)
Definition look (target : string) : M unit :=
  if bool_decide (target = "") || bool_decide (target ∈ ["room"; "around"])
  then mret tt
  else
    g ← get;
    room ← _room None;
    (* Check inventory + room items *)
    let all_items := (Player.inventory (player g) ++ Room.items room)%list in
    match next_match (λ i, bool_decide (Str.lower (Item.name i) = target)
                           || bool_decide (Item.id i = target)) all_items with
    | Some item =>
        desc ← _process_text (Item.desc item);
        print desc;;
        match shown_hidden_text item with
        | Some h =>
            print ("[italic] > " +:+ h +:+ "[/]");;
            g ← get;
            if bool_decide (h ∈ Player.journal (player g)) then mret tt
            else
              modify_player (λ p,
                Player.set_journal
                  (Player.journal p ++ [Item.name item +:+ ": " +:+ h])%list p)
        | None => mret tt
        end
    | None => print ("[yellow]Can't see '" +:+ target +:+ "'.[/]")
    end.

(** [Game.undo] *)
Definition undo (_ : string) : M unit :=
  g ← get;
  match last (history g) with
  | None => print "[red]Nothing to undo.[/]"
  | Some prev =>
      modify (set_history (removelast (history g)));;
      _restore prev;;
      print "[bold yellow]Time Rewind.[/]"
  end.

(** [Game.hint] *)
Definition hint (_ : string) : M unit :=
  _record_action;;
  g ← get;
  modify_player (λ p, Player.set_sanity (Player.sanity p - scaled DRAIN_HINT g) p);;
  let rid := Player.room_id (player g) in
  (* Contextual Hints *)
  h ← (if decide (rid = "gate") then mret "Unlock the North door with the key."
       else if decide (rid = "foyer") then
         match rooms g !! "garden" with
         | Some garden =>
             mret (if Room.locked garden then "Golden Key is in the Basement."
                   else "Explore.")
         | None => raise (KeyError "garden")
         end
       else if bool_decide (rid = "kitchen")
               && negb (existsb (λ i, bool_decide (Item.id i = "note"))
                          (Player.inventory (player g)))
       then mret "Take the note."
       else mret "Explore.");
  print h.

(** [Game.drop] *)
Definition drop (target : string) : M unit :=
  _record_action;;
  g ← get;
  match next_match (λ i, bool_decide (Str.lower (Item.name i) = target))
          (Player.inventory (player g)) with
  | Some found =>
      modify_player (λ p,
        Player.set_inventory (list_remove_first found (Player.inventory p)) p);;
      _ ← _room None;
      modify_room (room_key None g)
        (λ r, Room.set_items (Room.items r ++ [found])%list r);;
      print ("[yellow]Dropped: " +:+ Item.name found +:+ "[/]")
  | None => print "[red]Not carrying that.[/]"
  end.

(** [Game.show_inv], [Game.show_journal], [Game.show_map] and
    [Game.show_help] only print; the layout of what they print is not
    modelled. *)
Definition show_inv (_ : string) : M unit :=
  g ← get;
  print (Str.join "
" ("Inventory" ::
         ((λ i, Item.name i +:+ " " +:+ Item.desc i) <$> Player.inventory (player g)))).

Definition show_journal (_ : string) : M unit :=
  g ← get;
  print (match Player.journal (player g) with
         | [] => "Empty."
         | es => Str.join "
" ((λ e, "- " +:+ e) <$> es)
         end).

Definition show_map (_ : string) : M unit := print "Map".

Definition show_help (_ : string) : M unit := print "Commands".

(** [Game.save_state] *)
Definition save_state (_ : string) : M unit :=
  g ← get;
  write_save (_snapshot g);;
  print "[green]Saved.[/]".

(** [Game.load_state] *)
Definition load_state (_ : string) : M unit :=
  f ← read_save;
  match f with
  | NoFile => mret tt
  | Unreadable => raise JSONDecodeError
  | Saved j => _restore j;; print "[green]Loaded.[/]"
  end.

(** ** Command routing *)

(** [self.cmds], in the order of the dictionary display *)
Definition cmds : list (string * (string → M unit)) :=
  [("go", move); ("move", move); ("walk", move);
   ("look", look); ("inspect", look); ("read", look);
   ("take", take); ("get", take); ("grab", take);
   ("drop", drop); ("use", use);
   ("inv", show_inv); ("i", show_inv); ("inventory", show_inv);
   ("map", show_map); ("journal", show_journal); ("j", show_journal);
   ("save", save_state); ("load", load_state);
   ("help", show_help); ("unlock", unlock); ("play", play_piano);
   ("undo", undo); ("hint", hint);
   ("listen", listen); ("flash", flash);
   ("mute", mute); ("unmute", unmute)].

(** [self.cmds[k](arg)] *)
Definition call_cmd (k arg : string) : M unit :=
  match Dict.get k cmds with
  | Some handler => handler arg
  | None => raise (KeyError k)
  end.

(** Lines 678-692 of [Game.start]: the dispatch of a non-empty, stripped and
    lower-cased input line *)
Definition dispatch (inp : string) : M unit :=
  match Str.split inp with
  | [] => raise IndexError
  | cmd :: args =>
      let arg := Str.join " " args in
      (* Fuzzy matching execution *)
      if Dict.mem cmd cmds then call_cmd cmd arg
      else
        let '(best, score) := extractOne cmd (Dict.keys cmds) in
        if decide (FUZZY_CONFIDENCE ≤ score)%Z then
          print ("[dim italic]Did you mean '" +:+ best +:+ "'?[/]");;
          call_cmd best arg
        else print "[dim]Unknown command.[/]"
  end.

(** The key whose handler [dispatch] runs for the token [cmd], if any *)
Definition resolve (cmd : string) : option string :=
  if Dict.mem cmd cmds then Some cmd
  else
    let '(best, score) := extractOne cmd (Dict.keys cmds) in
    if decide (FUZZY_CONFIDENCE ≤ score)%Z then Some best else None.

(** Whether the input line [l], read at the prompt of the loop, would
    run [load] *)
Definition may_load (l : string) : bool :=
  match Str.split (Str.lower (Str.strip l)) with
  | [] => false
  | cmd :: _ => bool_decide (resolve cmd = Some "load")
  end.

(** ** The main loop *)

(** [Game._render_ui]: the two clamped values that the bars show *)
Definition _render_ui : M unit :=
  g ← get;
  print ("Sanity: " +:+ Str.of_Z (Z.max 0 (Player.sanity (player g)))
         +:+ "% Battery: " +:+ Str.of_Z (Z.max 0 (Player.battery (player g)))
         +:+ "%").

(** Lines 656-672: the panel of the current room *)
Definition render_room : M unit :=
  room ← _room None;
  g ← get;
  if Room.dark room && negb (_has "flashlight" g) then
    print "[red]It is pitch black.[/]"
  else
    desc ← _process_text (Room.desc room);
    let vis_items :=
      Str.join ", " ((λ i, "[yellow]" +:+ Item.name i +:+ "[/]") <$> Room.items room) in
    let desc :=
      if decide (vis_items = "") then desc
      else desc +:+ "

[bold]Items:[/]
" +:+ vis_items in
    let desc := desc +:+ "

[bold]Exits:[/]
" +:+ Str.upper (Str.join ", " (Dict.keys (Room.exits room))) in
    let desc :=
      if negb (Player.tutorial_done (player g)) && bool_decide (Room.id room = "gate")
      then desc +:+ "

[bold white on blue] TUTORIAL: Type 'take iron key' then 'go north'. [/]"
      else desc in
    print desc.

(** One pass through the body of the [while] loop of [Game.start], with the
    test of its condition; the result tells whether the loop goes on. *)
Definition turn : M bool :=
  g ← get;
  if negb (Player.alive (player g) && negb (Player.escaped (player g)))
  then mret false
  else if decide (Player.room_id (player g) = "garden") then
    modify_player (Player.set_escaped true);; mret false
  else
    _render_ui;;
    render_room;;
    line ← read_line;
    match line with
    | None => mret false
    | Some l =>
        let inp := Str.lower (Str.strip l) in
        if decide (inp = "") then mret true
        else
          dispatch inp;;
          g ← get;
          (if decide (Player.sanity (player g) ≤ 0)%Z then
             print "[red]Your mind shatters.[/]";;
             modify_player (Player.set_alive false)
           else mret tt);;
          mret true
    end.

(** The [while] loop.  Each pass that goes on has read a line, so
    [S (length (stdin w))] passes are enough; the answer is [None] only if
    the fuel runs out.  Next to the outcome, the loop lists the room of the
    phantom after each pass that goes on. *)
Fixpoint loop (fuel : nat) (w : World)
  : option (list string * (outcome unit * World)) :=
  match fuel with
  | O => None
  | S fuel' =>
      match turn w with
      | (Ok true, w') =>
          '(tr, r) ← loop fuel' w';
          Some (Phantom.room_id (phantom (game w')) :: tr, r)
      | (Ok false, w') => Some ([], (Ok tt, w'))
      | (Raise e, w') => Some ([], (Raise e, w'))
      | (Stuck, w') => Some ([], (Stuck, w'))
      end
  end.

(** [Game._select_difficulty] on the lines that are left *)
Fixpoint select_difficulty (lines : list string) : outcome string * list string :=
  match lines with
  | [] => (Raise EOFError, [])
  | l :: r =>
      let c := Str.strip l in
      if decide (c = "1") then (Ok "story", r)
      else if decide (c = "2") then (Ok "normal", r)
      else if decide (c = "3") then (Ok "hard", r)
      else select_difficulty r
  end.

Definition read_difficulty : M string := λ w,
  ((select_difficulty (stdin w)).1, set_stdin (select_difficulty (stdin w)).2 w).

Definition _select_difficulty : M string :=
  print "SELECT DIFFICULTY
1. Story
2. Normal
3. Hardcore";;
  read_difficulty.

(** [Game._game_over] *)
Definition _game_over : M unit :=
  g ← get;
  if Player.escaped (player g) then
    let score :=
      (Player.sanity (player g) * 10 - Player.turns (player g) * 2
       + foldr Z.add 0 (Item.value <$> Player.inventory (player g)))%Z in
    print ((if _has "sapphire" g then "WEALTHY SURVIVOR" else "ESCAPED")
           +:+ " Score: " +:+ Str.of_Z score)
  else print "DIED".

(** ** Session setup *)

(** [Game.__init__] on the generator state [r0] that the process starts
    with: the seed (drawn from [r0] when none is given), the seeding, the
    safe code and the world.  The result is the new object and the state
    of the generator. *)
Definition Game_init (seed : option string) (r0 : rng G) : Game * rng G :=
  let seed :=
    match seed with
    | Some s => s
    | None => Str.of_Z (1000 + Z.of_nat (rng_randbelow G (Z.to_nat 9000) r0).1)
    end in
  let r := rng_seed G seed in
  let safe_code := Str.of_Z (100 + Z.of_nat (rng_randbelow G (Z.to_nat 900) r).1) in
  (mkGame seed safe_code false [] (_init_world safe_code)
     (Player.mk "gate" [] {["gate"]} [] STARTING_SANITY STARTING_BATTERY 0
        true false false "normal")
     (Phantom.mk "attic" false 0),
   (rng_randbelow G (Z.to_nat 900) r).2).

(** [Game.start] up to the loop: banner, difficulty, prologue *)
Definition prologue : M unit :=
  g ← get;
  print ("BLACKWOOD Seed: " +:+ seed g);;
  d ← _select_difficulty;
  modify_player (Player.set_difficulty d);;
  print "[bold yellow]PROLOGUE[/]
You are at the Manor Gate. Get inside.
Try: [bold white]look[/], [bold white]take iron key[/], [bold white]unlock gate[/].".

(** [Game.start]: the phantom's rooms over the passes of the loop, and how
    and where the session ends *)
Definition start (w : World) : option (list string * (outcome unit * World)) :=
  match prologue w with
  | (Ok _, w1) =>
      '(tr, (o, w2)) ← loop (S (length (stdin w1))) w1;
      match o with
      | Ok _ => Some (tr, _game_over w2)
      | _ => Some (tr, (o, w2))
      end
  | (Raise e, w1) => Some ([], (Raise e, w1))
  | (Stuck, w1) => Some ([], (Stuck, w1))
  end.

(** The entry point: [Game(Console(), seed=args.seed).start()] in a process
    whose generator is in state [r0], with the file [save.json] as [file]
    and [lines] on its standard input *)
Definition main (seed : option string) (r0 : rng G) (file : save_file)
    (lines : list string) : option (list string * (outcome unit * World)) :=
  let '(g, r) := Game_init seed r0 in
  start (mkWorld g r file lines [] true).

(** * Reasoning about the engine *)

(** ** Weakest preconditions for [M] *)

Definition wp {A} (m : M A) (Q : outcome A → World → Prop) (w : World) : Prop :=
  Q (m w).1 (m w).2.

Lemma wp_ret {A} (a : A) Q w : Q (Ok a) w → wp (mret a) Q w.
Proof. done. Qed.

Lemma wp_bind {A B} (m : M A) (k : A → M B) Q w :
  wp m (λ o w',
    match o with
    | Ok a => wp (k a) Q w'
    | Raise e => Q (Raise e) w'
    | Stuck => Q Stuck w'
    end) w →
  wp (m ≫= k) Q w.
Proof.
  unfold wp, mbind, M_bind. destruct (m w) as [[a|e|] w']; done.
Qed.

Lemma wp_wand {A} (m : M A) (Q' Q : outcome A → World → Prop) w :
  wp m Q' w → (∀ o w', Q' o w' → Q o w') → wp m Q w.
Proof. unfold wp. auto. Qed.

Lemma wp_get Q w : Q (Ok (game w)) w → wp get Q w.
Proof. done. Qed.

Lemma wp_modify f Q w : Q (Ok tt) (set_game (f (game w)) w) → wp (modify f) Q w.
Proof. done. Qed.

Lemma wp_modify_player f Q w :
  Q (Ok tt) (set_game (set_player (f (player (game w))) (game w)) w) →
  wp (modify_player f) Q w.
Proof. done. Qed.

Lemma wp_modify_phantom f Q w :
  Q (Ok tt) (set_game (set_phantom (f (phantom (game w))) (game w)) w) →
  wp (modify_phantom f) Q w.
Proof. done. Qed.

Lemma wp_modify_room rid f Q w :
  Q (Ok tt) (set_game (set_rooms (alter f rid (rooms (game w))) (game w)) w) →
  wp (modify_room rid f) Q w.
Proof. done. Qed.

Lemma wp_print s Q w :
  Q (Ok tt) (set_console (console w ++ [s]) w) → wp (print s) Q w.
Proof. done. Qed.

Lemma wp_raise {A} e (Q : outcome A → World → Prop) w :
  Q (Raise e) w → wp (raise e) Q w.
Proof. done. Qed.

Lemma wp_lift {A} (o : outcome A) (Q : outcome A → World → Prop) w :
  Q o w → wp (lift o) Q w.
Proof. done. Qed.

Lemma wp_input Q w :
  match stdin w with
  | [] => Q (Raise EOFError) w
  | l :: r => Q (Ok l) (set_stdin r w)
  end →
  wp input Q w.
Proof. unfold wp, input. by destruct (stdin w). Qed.

Lemma wp_random_random Q w :
  Q (Ok (rng_random G (rand w)).1) (set_rand (rng_random G (rand w)).2 w) →
  wp random_random Q w.
Proof. done. Qed.

Lemma wp_randbelow n Q w :
  Q (Ok (rng_randbelow G n (rand w)).1) (set_rand (rng_randbelow G n (rand w)).2 w) →
  wp (randbelow n) Q w.
Proof. done. Qed.

Lemma wp_read_line Q w :
  match stdin w with
  | [] => Q (Ok None) w
  | l :: r => Q (Ok (Some l)) (set_stdin r w)
  end →
  wp read_line Q w.
Proof. unfold wp, read_line. by destruct (stdin w). Qed.

Lemma wp_set_sound b Q w :
  Q (Ok tt) (set_sound_enabled b w) → wp (set_sound b) Q w.
Proof. done. Qed.

Lemma wp_write_save j Q w :
  Q (Ok tt) (set_save_json (Saved j) w) → wp (write_save j) Q w.
Proof. done. Qed.

Lemma wp_read_save Q w : Q (Ok (save_json w)) w → wp read_save Q w.
Proof. done. Qed.

Lemma wp_read_difficulty Q w :
  Q (select_difficulty (stdin w)).1
    (set_stdin (select_difficulty (stdin w)).2 w) →
  wp read_difficulty Q w.
Proof. done. Qed.

(** One step of symbolic execution. *)
Ltac wp_prim :=
  lazymatch goal with
  | |- wp (mbind _ _) _ _ => apply wp_bind
  | |- wp (mret _) _ _ => apply wp_ret
  | |- wp get _ _ => apply wp_get
  | |- wp (modify_player _) _ _ => apply wp_modify_player
  | |- wp (modify_phantom _) _ _ => apply wp_modify_phantom
  | |- wp (modify_room _ _) _ _ => apply wp_modify_room
  | |- wp (modify _) _ _ => apply wp_modify
  | |- wp (print _) _ _ => apply wp_print
  | |- wp (raise _) _ _ => apply wp_raise
  | |- wp (lift _) _ _ => apply wp_lift
  | |- wp input _ _ => apply wp_input
  | |- wp read_line _ _ => apply wp_read_line
  | |- wp read_difficulty _ _ => apply wp_read_difficulty
  | |- wp (set_sound _) _ _ => apply wp_set_sound
  | |- wp (write_save _) _ _ => apply wp_write_save
  | |- wp read_save _ _ => apply wp_read_save
  | |- wp random_random _ _ => apply wp_random_random
  | |- wp (randbelow _) _ _ => apply wp_randbelow
  | |- wp (if ?c then _ else _) _ _ => destruct c eqn:?
  | |- wp (match ?x with _ => _ end) _ _ => destruct x eqn:?
  | |- wp (let x := ?v in _) _ _ => cbv zeta
  | |- match stdin ?w with _ => _ end => destruct (stdin w) eqn:?
  | |- match ?o with Ok _ => _ | Raise _ => _ | Stuck => _ end =>
      destruct o eqn:?
  end.

Ltac wp_beta := lazy beta iota.

(** Projections of the state out of state updates. *)
Ltac simpl_state :=
  cbn [game rand save_json stdin console sound_enabled
       set_game set_rand set_save_json set_stdin set_console set_sound_enabled
       seed safe_code piano_solved history rooms player phantom
       set_seed set_safe_code set_piano_solved set_history set_rooms
       set_player set_phantom fst snd
       Player.room_id Player.inventory Player.visited Player.journal
       Player.sanity Player.battery Player.turns Player.alive Player.escaped
       Player.tutorial_done Player.difficulty
       Player.set_room_id Player.set_inventory Player.set_visited
       Player.set_journal Player.set_sanity Player.set_battery
       Player.set_turns Player.set_alive Player.set_escaped
       Player.set_tutorial_done Player.set_difficulty
       Phantom.room_id Phantom.active Phantom.stun_timer
       Phantom.set_room_id Phantom.set_active Phantom.set_stun_timer] in *.

(** Calling a procedure whose specification is a lemma. *)
Ltac wp_call lem :=
  eapply wp_wand; [ apply lem | wp_beta; intros ? ? ? ].

(** ** What a handler leaves alone: the history and the skeleton of the map *)

Definition skel (g : Game)
  : gmap string (string * string * string * bool * option string) :=
  Room.skeleton <$> rooms g.

Definition frame (w w' : World) : Prop :=
  history (game w') = history (game w) ∧ skel (game w') = skel (game w).

Lemma skeleton_alter (f : Room.t → Room.t) rid (m : gmap string Room.t) :
  (∀ r, Room.skeleton (f r) = Room.skeleton r) →
  Room.skeleton <$> alter f rid m = Room.skeleton <$> m.
Proof.
  intros Hf. apply map_eq. intros k. rewrite !lookup_fmap.
  destruct (decide (rid = k)) as [->|Hne].
  - rewrite lookup_alter_eq. destruct (m !! k); simpl; by rewrite ?Hf.
  - by rewrite lookup_alter_ne.
Qed.

Lemma skeleton_set_locked v r : Room.skeleton (Room.set_locked v r) = Room.skeleton r.
Proof. by destruct r. Qed.
Lemma skeleton_set_items v r : Room.skeleton (Room.set_items v r) = Room.skeleton r.
Proof. by destruct r. Qed.
Lemma skeleton_set_exits v r : Room.skeleton (Room.set_exits v r) = Room.skeleton r.
Proof. by destruct r. Qed.

(** Closes a goal [frame w e] where [e] is [w] after updates that keep
    to the frame, possibly through procedures known to keep to it. *)
Ltac frame_tac :=
  repeat match goal with
  | H : frame _ _ |- _ => destruct H as [? ?]
  end;
  unfold frame, skel in *; simpl_state;
  rewrite ?skeleton_alter in *
    by (intros ?; rewrite ?skeleton_set_locked, ?skeleton_set_items,
                          ?skeleton_set_exits; reflexivity);
  split; congruence.

Ltac wp_frame_step calls :=
  first [ wp_prim; simpl_state | calls | progress wp_beta | progress intros
        | frame_tac ].

Lemma _room_frame rid w : wp (_room rid) (λ _ w', frame w w') w.
Proof. unfold _room. repeat wp_frame_step fail. Qed.

Lemma choice_frame l w : wp (choice l) (λ _ w', frame w w') w.
Proof. unfold choice. repeat wp_frame_step fail. Qed.

Lemma shake_frame w : wp shake (λ _ w', frame w w') w.
Proof. unfold shake, shake_once, randint. repeat wp_frame_step fail. Qed.

Ltac frame_calls0 :=
  idtac;
  lazymatch goal with
  | |- wp (_room _) _ _ => wp_call _room_frame
  | |- wp (choice _) _ _ => wp_call choice_frame
  | |- wp shake _ _ => wp_call shake_frame
  end.

Lemma _update_phantom_frame w : wp _update_phantom (λ _ w', frame w w') w.
Proof. unfold _update_phantom. repeat wp_frame_step frame_calls0. Qed.

Lemma _update_status_frame w : wp _update_status (λ _ w', frame w w') w.
Proof. unfold _update_status. repeat wp_frame_step frame_calls0. Qed.

(** ** Every mutating handler records the state it starts from *)

(** [self.history] after [_record_action] *)
Definition pushed (h : list json) (s : json) : list json :=
  if decide (HISTORY_CAPACITY < length (h ++ [s]))%nat then tail (h ++ [s])
  else h ++ [s].

Definition recorded (w w' : World) : Prop :=
  history (game w') = pushed (history (game w)) (_snapshot (game w))
  ∧ skel (game w') = skel (game w).

Lemma recorded_intro (body : M unit) :
  (∀ w1, wp body (λ _ w', frame w1 w') w1) →
  ∀ w, wp (_record_action ≫= λ _, body) (λ _ w', recorded w w') w.
Proof.
  intros Hbody w. apply wp_bind, wp_modify.
  eapply wp_wand; [apply Hbody|].
  intros _ w' [Hh Hs]. split; [by rewrite Hh | by rewrite Hs].
Qed.

Ltac frame_calls :=
  idtac;
  lazymatch goal with
  | |- wp (_room _) _ _ => wp_call _room_frame
  | |- wp (choice _) _ _ => wp_call choice_frame
  | |- wp shake _ _ => wp_call shake_frame
  | |- wp _update_status _ _ => wp_call _update_status_frame
  | |- wp _update_phantom _ _ => wp_call _update_phantom_frame
  end.

Ltac handler_frame := repeat wp_frame_step frame_calls.

Lemma move_recorded direction w : wp (move direction) (λ _ w', recorded w w') w.
Proof. apply recorded_intro. intros w1. handler_frame. Qed.

Lemma take_recorded target w : wp (take target) (λ _ w', recorded w w') w.
Proof. apply recorded_intro. intros w1. handler_frame. Qed.

Lemma drop_recorded target w : wp (drop target) (λ _ w', recorded w w') w.
Proof. apply recorded_intro. intros w1. handler_frame. Qed.

Lemma use_recorded target w : wp (use target) (λ _ w', recorded w w') w.
Proof. apply recorded_intro. intros w1. handler_frame. Qed.

Lemma unlock_recorded target w : wp (unlock target) (λ _ w', recorded w w') w.
Proof. apply recorded_intro. intros w1. handler_frame. Qed.

Lemma play_piano_recorded target w :
  wp (play_piano target) (λ _ w', recorded w w') w.
Proof. apply recorded_intro. intros w1. handler_frame. Qed.

Lemma flash_recorded arg w : wp (flash arg) (λ _ w', recorded w w') w.
Proof. apply recorded_intro. intros w1. handler_frame. Qed.

Lemma hint_recorded arg w : wp (hint arg) (λ _ w', recorded w w') w.
Proof. apply recorded_intro. intros w1. handler_frame. Qed.

Lemma listen_recorded arg w : wp (listen arg) (λ _ w', recorded w w') w.
Proof. apply recorded_intro. intros w1. handler_frame. Qed.

(** ** A snapshot restores to the state it was taken from *)

(** Evaluates the comparisons of literal keys. *)
Ltac eval_decides :=
  repeat match goal with
  | |- context [@decide (?a = ?b) ?d] =>
      let v := eval vm_compute in (@decide (a = b) d) in
      change (@decide (a = b) d) with v
  end;
  lazy beta iota.

Lemma each_as_str l : Json.each Json.as_str (JStr <$> l) = Ok l.
Proof.
  induction l as [|s l IH]; [done|].
  rewrite fmap_cons. cbn [Json.each Json.as_str]. rewrite IH. done.
Qed.

Lemma as_list_as_str l : Json.as_list Json.as_str (JList (JStr <$> l)) = Ok l.
Proof. apply each_as_str. Qed.

Lemma new_Item_asdict i : new_Item (asdict_Item i) = Ok i.
Proof. destruct i as [? ? ? ? ? [h|] ?]; reflexivity. Qed.

Lemma as_list_new_Item l :
  Json.as_list new_Item (JList (asdict_Item <$> l)) = Ok l.
Proof.
  cbn [Json.as_list]. induction l as [|i l IH]; [done|].
  rewrite fmap_cons. cbn [Json.each]. rewrite new_Item_asdict, IH. done.
Qed.

Lemma as_dict_as_str (d : list (string * string)) :
  Json.as_dict Json.as_str (JObj (prod_map id JStr <$> d)) = Ok d.
Proof.
  cbn [Json.as_dict]. induction d as [|[k v] d IH]; [done|].
  rewrite fmap_cons. cbn [Json.each_value prod_map fst snd id Json.as_str].
  rewrite IH. done.
Qed.

Lemma restore_Player_asdict p : restore_Player (asdict_Player p) = Ok p.
Proof.
  unfold restore_Player.
  assert (new_Player (asdict_Player p)
          = Ok (Player.set_visited ∅ (Player.set_inventory [] p))) as ->.
  { destruct p. unfold new_Player, asdict_Player.
    cbn [Player.room_id Player.inventory Player.visited Player.journal
         Player.sanity Player.battery Player.turns Player.alive Player.escaped
         Player.tutorial_done Player.difficulty].
    replace (Json.kwargs_ok _ _ _) with true by reflexivity.
    unfold Json.field.
    cbn [Dict.get]. eval_decides.
    cbn [mbind outcome_bind Json.as_str Json.as_int Json.as_bool].
    rewrite as_list_as_str. reflexivity. }
  assert (Json.subscript (asdict_Player p) "inventory"
          = Ok (JList (asdict_Item <$> Player.inventory p))) as -> by reflexivity.
  assert (Json.get_default (asdict_Player p) "visited" (JList [])
          = Ok (JList (JStr <$> elements (Player.visited p)))) as -> by reflexivity.
  cbn [mbind outcome_bind untyped_after].
  rewrite as_list_new_Item, as_list_as_str.
  cbn [mbind outcome_bind untyped_after].
  rewrite list_to_set_elements_L. by destruct p.
Qed.

Lemma new_Phantom_asdict p : new_Phantom (asdict_Phantom p) = Ok p.
Proof. by destruct p. Qed.

(** What lines 273-275 do to the room object [r] from the entry of [r0] *)
Definition restore_room (r0 r : Room.t) : Room.t :=
  Room.set_exits (Room.exits r0)
    (Room.set_items (Room.items r0) (Room.set_locked (Room.locked r0) r)).

Lemma restore_room_same r0 r :
  Room.skeleton r = Room.skeleton r0 → restore_room r0 r = r0.
Proof. destruct r0, r. unfold Room.skeleton. intros ?. by simplify_eq/=. Qed.

Definition restore_step (m : gmap string Room.t) (e : string * Room.t)
  : gmap string Room.t :=
  alter (restore_room e.2) e.1 m.

Lemma restore_rooms_run (l : list (string * Room.t)) w :
  restore_rooms (prod_map id room_entry <$> l) w
  = (Ok tt, set_game (set_rooms (foldl restore_step (rooms (game w)) l) (game w)) w).
Proof.
  revert w. induction l as [|[rid r0] l IH]; intros w.
  - by destruct w as [[] ? ? ? ? ?].
  - cbn [foldl].
    cbn [fmap list_fmap prod_map restore_rooms id fst snd].
    unfold mbind at 1, M_bind at 1. cbn [get].
    unfold mbind at 1, M_bind at 1.
    destruct (decide (is_Some (rooms (game w) !! rid))) as [Hin|Hnin].
    + assert (Json.subscript (room_entry r0) "locked" = Ok (JBool (Room.locked r0)))
        as -> by reflexivity.
      assert (Json.subscript (room_entry r0) "items"
              = Ok (JList (asdict_Item <$> Room.items r0))) as -> by reflexivity.
      assert (Json.subscript (room_entry r0) "exits"
              = Ok (JObj (prod_map id JStr <$> Room.exits r0))) as -> by reflexivity.
      cbn [mbind outcome_bind Json.as_bool].
      rewrite as_list_new_Item, as_dict_as_str.
      unfold mbind, M_bind, lift, modify_room, modify. simpl_state.
      rewrite IH. simpl_state.
      rewrite !alter_alter_eq. reflexivity.
    + unfold mret, M_ret. rewrite IH. simpl_state.
      replace (restore_step (rooms (game w)) (rid, r0)) with (rooms (game w));
        [done|].
      symmetry. apply alter_id'. by apply eq_None_not_Some.
Qed.

Lemma foldl_restore_step_lookup (l : list (string * Room.t)) m k :
  NoDup l.*1 →
  foldl restore_step m l !! k
  = match (list_to_map l : gmap string Room.t) !! k with
    | Some r0 => restore_room r0 <$> m !! k
    | None => m !! k
    end.
Proof.
  revert m. induction l as [|[k' r'] l IH]; intros m Hnd; [done|].
  apply NoDup_cons in Hnd as [Hk' Hnd]. cbn [foldl]. rewrite IH by done.
  rewrite list_to_map_cons. unfold restore_step at 1 2. cbn [fst snd].
  destruct (decide (k' = k)) as [->|Hne].
  - rewrite lookup_insert_eq, not_elem_of_list_to_map_1 by done.
    by rewrite lookup_alter_eq.
  - rewrite lookup_insert_ne by done. rewrite !lookup_alter_ne by done. done.
Qed.

Lemma foldl_restore_step (m0 m : gmap string Room.t) :
  Room.skeleton <$> m = Room.skeleton <$> m0 →
  foldl restore_step m (map_to_list m0) = m0.
Proof.
  intros Hs. apply map_eq. intros k.
  rewrite foldl_restore_step_lookup by apply NoDup_fst_map_to_list.
  rewrite list_to_map_to_list.
  pose proof (f_equal (.!! k) Hs) as Hk. rewrite !lookup_fmap in Hk.
  destruct (m0 !! k) as [r0|], (m !! k) as [r|]; simplify_eq/=; try done.
  f_equal. apply restore_room_same. unfold Room.skeleton. congruence.
Qed.

(** [_restore] on a snapshot of [g0], from a state with the same skeleton:
    every attribute but the history is the one of [g0]. *)
Lemma _restore_snapshot g0 w :
  skel (game w) = skel g0 →
  _restore (_snapshot g0) w
  = (Ok tt,
     set_game (mkGame (seed g0) (safe_code g0) (piano_solved g0)
                 (history (game w)) (rooms g0) (player g0) (phantom g0)) w).
Proof.
  intros Hs. unfold _restore.
  assert (Json.subscript (_snapshot g0) "seed" = Ok (JStr (seed g0)))
    as -> by reflexivity.
  assert (Json.subscript (_snapshot g0) "safe_code" = Ok (JStr (safe_code g0)))
    as -> by reflexivity.
  assert (Json.get_default (_snapshot g0) "piano_solved" (JBool false)
          = Ok (JBool (piano_solved g0))) as -> by reflexivity.
  assert (Json.subscript (_snapshot g0) "player" = Ok (asdict_Player (player g0)))
    as -> by reflexivity.
  assert (Json.subscript (_snapshot g0) "phantom" = Ok (asdict_Phantom (phantom g0)))
    as -> by reflexivity.
  assert (Json.subscript (_snapshot g0) "rooms"
          = Ok (JObj (prod_map id room_entry <$> map_to_list (rooms g0))))
    as -> by reflexivity.
  cbn [mbind outcome_bind Json.as_str Json.as_bool json_items].
  rewrite restore_Player_asdict, new_Phantom_asdict.
  unfold mbind, M_bind, lift, modify. simpl_state.
  rewrite restore_rooms_run. simpl_state.
  rewrite foldl_restore_step by done. reflexivity.
Qed.

Lemma last_pushed h s : last (pushed h s) = Some s.
Proof.
  unfold pushed. case_decide as Hlen; [|apply last_snoc].
  destruct h as [|x h]; [simpl in Hlen; unfold HISTORY_CAPACITY in Hlen; lia|].
  simpl. apply last_snoc.
Qed.

(** The attributes that the specification calls the mutable state: the
    player, the phantom, the session fields and the rooms. *)
Definition mutable (g : Game)
  : Player.t * Phantom.t * string * string * bool * gmap string Room.t :=
  (player g, phantom g, seed g, safe_code g, piano_solved g, rooms g).

Lemma undo_recorded arg w w1 :
  recorded w w1 →
  (undo arg w1).1 = Ok tt ∧ mutable (game (undo arg w1).2) = mutable (game w).
Proof.
  intros [Hh Hs].
  assert (∃ w2, undo arg w1 = (Ok tt, w2) ∧ mutable (game w2) = mutable (game w))
    as (w2 & -> & ?); [|done].
  unfold undo, mbind, M_bind. cbn [get].
  rewrite Hh, last_pushed. cbn [modify].
  rewrite _restore_snapshot by (simpl_state; exact Hs).
  eexists. split; reflexivity.
Qed.

(** The handlers that call [_record_action] *)
Definition mutating_handlers : list (string → M unit) :=
  [move; take; drop; use; unlock; play_piano; flash; hint; listen].

(** C1.  For every mutating handler (move, take, drop, use, unlock, play,
    flash, hint, listen), on every argument and from every state, also one
    in which the piano puzzle has added its exit: running the handler and
    then [undo] succeeds and gives back the player, the phantom, the seed,
    the safe code, the piano flag and every room exactly as they were
    before the handler ran. *)
Theorem undo_after_command :
  Forall (λ handler : string → M unit,
    ∀ (arg arg' : string) (w : World),
      (undo arg' (handler arg w).2).1 = Ok tt
      ∧ mutable (game (undo arg' (handler arg w).2).2) = mutable (game w))
    mutating_handlers.
Proof.
  unfold mutating_handlers.
  repeat first [apply List.Forall_nil | apply List.Forall_cons];
    intros arg arg' w; apply undo_recorded.
  - apply move_recorded.
  - apply take_recorded.
  - apply drop_recorded.
  - apply use_recorded.
  - apply unlock_recorded.
  - apply play_piano_recorded.
  - apply flash_recorded.
  - apply hint_recorded.
  - apply listen_recorded.
Qed.

(** ** Procedures that leave the [Game] object alone *)

Ltac wp_step calls :=
  first [ wp_prim; simpl_state | calls | progress wp_beta | progress intros ].

(** Replaces the game of a later state by its value in terms of an
    earlier one. *)
Ltac subst_games :=
  repeat match goal with
  | H : _ ∧ _ |- _ => destruct H
  | H : game ?w' = _ |- _ => is_var w'; try rewrite !H in *; clear H
  end;
  simpl_state.

Lemma _room_spec rid w :
  wp (_room rid) (λ o w',
    w' = w ∧
    match o with
    | Ok r => rooms (game w) !! room_key rid (game w) = Some r
    | Raise e => rooms (game w) !! room_key rid (game w) = None
    | Stuck => False
    end) w.
Proof. unfold _room. repeat wp_step fail; done. Qed.

Lemma choice_game l w : wp (choice l) (λ _ w', game w' = game w) w.
Proof. unfold choice. repeat wp_step fail; done. Qed.

Lemma shake_game w : wp shake (λ o w', o = Ok tt ∧ game w' = game w) w.
Proof. unfold shake, shake_once, randint. repeat wp_step fail; done. Qed.

Lemma choice_game_save l w :
  wp (choice l) (λ _ w',
    game w' = game w ∧ save_json w' = save_json w ∧ stdin w' = stdin w) w.
Proof. unfold choice. repeat wp_step fail; done. Qed.

Lemma shake_game_save w :
  wp shake (λ _ w',
    game w' = game w ∧ save_json w' = save_json w ∧ stdin w' = stdin w) w.
Proof. unfold shake, shake_once, randint. repeat wp_step fail; done. Qed.

Ltac game_calls :=
  idtac;
  lazymatch goal with
  | |- wp (_room _) _ _ => wp_call _room_spec
  | |- wp (choice _) _ _ => wp_call choice_game
  | |- wp shake _ _ => wp_call shake_game
  end.

(** ** The phantom's tick *)

(** C4, as amended.  A tick at which the stun-expiry turn is strictly
    beyond the player's turn counter does nothing at all: no damage, no
    activation, no relocation, no draw from the generator. *)
Theorem stunned_tick_is_inert (w : World) :
  Player.turns (player (game w)) < Phantom.stun_timer (phantom (game w)) →
  _update_phantom w = (Ok tt, w).
Proof.
  intros Hstun. unfold _update_phantom, mbind, M_bind. cbn [get].
  by rewrite decide_True.
Qed.

Lemma scaled_attack g :
  scaled DRAIN_PHANTOM_ATTACK g
  = if decide (Player.difficulty (player g) = "story") then 7
    else if decide (Player.difficulty (player g) = "hard") then 22
    else 15.
Proof. unfold scaled, _diff_mult. repeat case_decide; reflexivity. Qed.

(** C5, as amended.  A tick of the phantom when it is not stunned, is
    active (or becomes so in this tick) and is in the player's room takes
    [int(15 * multiplier)] off the sanity, the product truncated, not
    rounded: 7 on story, 15 on normal, 22 on hard. *)
Theorem phantom_attack_damage (w : World) :
  ¬ Player.turns (player (game w)) < Phantom.stun_timer (phantom (game w)) →
  Phantom.active (phantom (game w)) = true
  ∨ (8 < Player.turns (player (game w))
     ∧ Player.tutorial_done (player (game w)) = true) →
  Phantom.room_id (phantom (game w)) = Player.room_id (player (game w)) →
  Player.sanity (player (game (_update_phantom w).2))
  = Player.sanity (player (game w))
    - (if decide (Player.difficulty (player (game w)) = "story") then 7
       else if decide (Player.difficulty (player (game w)) = "hard") then 22
       else 15).
Proof.
  intros Hstun Hact Hroom. rewrite <- scaled_attack.
  change (wp _update_phantom (λ _ w',
    Player.sanity (player (game w'))
    = Player.sanity (player (game w)) - scaled DRAIN_PHANTOM_ATTACK (game w)) w).
  unfold _update_phantom.
  repeat wp_step game_calls; subst_games; subst; simpl_state;
    try done; try lia.
  all: destruct Hact as [Hact|[Hturns Hdone]];
    destruct (Phantom.active (phantom (game w))); simplify_eq/=;
    rewrite ?Hdone in *; try done;
    case_bool_decide; simplify_eq/=; lia.
Qed.

(** ** [listen] *)

(** The three tiers of the specification: the phantom is in the current
    room, in a room that an exit of the current room leads to, or
    elsewhere. *)
Inductive proximity := Here | Near | Far.

Definition classify (phantom_room : string) (curr : Room.t) : proximity :=
  if decide (phantom_room = Room.id curr) then Here
  else if decide (phantom_room ∈ Dict.values (Room.exits curr)) then Near
  else Far.

Definition proximity_text (p : proximity) : string :=
  match p with
  | Here => "[bold red]IT IS HERE![/]"
  | Near => "[bold yellow]You hear shuffling nearby.[/]"
  | Far => "[dim]Silence.[/]"
  end.

Lemma existsb_bool_decide_eq (x : string) (l : list string) :
  existsb (λ y, bool_decide (x = y)) l = bool_decide (x ∈ l).
Proof.
  induction l as [|y l IH]; cbn [existsb].
  - symmetry. apply bool_decide_eq_false_2, not_elem_of_nil.
  - rewrite IH. destruct (decide (x = y)) as [->|Hne].
    + rewrite (bool_decide_eq_true_2 (y = y)) by done. cbn [orb].
      symmetry. apply bool_decide_eq_true_2, elem_of_cons. by left.
    + rewrite (bool_decide_eq_false_2 (x = y)) by done. cbn [orb].
      apply bool_decide_ext. rewrite elem_of_cons.
      split; [by right | by intros [?|?]].
Qed.

(** C9, as amended.  [listen] changes two things only: it pushes a
    snapshot on the undo history (dropping the oldest beyond ten) and it
    prints.  The player, the phantom, the rooms, the session fields, the
    generator, the save file and the input are as before.  What it prints,
    after the line that it is listening, is the tier of the phantom seen
    from the room of the player; if the player's room id names no room the
    lookup raises after the snapshot is pushed. *)
Theorem listen_effect (arg : string) (w : World) :
  listen arg w
  = let w1 :=
      set_console (console w ++ ["[italic]Listening...[/]"])
        (set_game
           (set_history (pushed (history (game w)) (_snapshot (game w))) (game w))
           w) in
    match rooms (game w) !! Player.room_id (player (game w)) with
    | Some curr =>
        (Ok tt,
         set_console
           (console w1
            ++ [proximity_text (classify (Phantom.room_id (phantom (game w))) curr)])
           w1)
    | None => (Raise (KeyError (Player.room_id (player (game w)))), w1)
    end.
Proof.
  unfold listen, _record_action, _room, mbind, M_bind.
  cbn [modify print get room_key]. simpl_state.
  destruct (rooms (game w) !! Player.room_id (player (game w))) as [curr|];
    [|reflexivity].
  cbn [mret M_ret]. simpl_state. unfold classify.
  destruct (decide (Phantom.room_id (phantom (game w)) = Room.id curr));
    [reflexivity|].
  rewrite existsb_bool_decide_eq.
  destruct (decide (Phantom.room_id (phantom (game w)) ∈ Dict.values (Room.exits curr))).
  - rewrite bool_decide_eq_true_2 by done. reflexivity.
  - rewrite bool_decide_eq_false_2 by done. reflexivity.
Qed.

(** ** Loading and failing restores *)

(** C10, as amended.  Loading with no save file is a silent no-op.  A save
    file that is not JSON makes [load_state] raise, with the state
    untouched; nothing in the engine catches the exception.  [_restore]
    assigns attribute after attribute, so it leaves the state untouched
    only if it fails before the first assignment, at the lookup of
    ["seed"].  A snapshot that the engine wrote itself restores completely:
    loading it gives the player, phantom, session fields and rooms it was
    taken from. *)
Theorem load_and_restore (arg : string) (w : World) :
  (save_json w = NoFile → load_state arg w = (Ok tt, w))
  ∧ (save_json w = Unreadable → load_state arg w = (Raise JSONDecodeError, w))
  ∧ (∀ j e, Json.subscript j "seed" = Raise e → _restore j w = (Raise e, w))
  ∧ (∀ g0, save_json w = Saved (_snapshot g0) → skel (game w) = skel g0 →
       (load_state arg w).1 = Ok tt
       ∧ mutable (game (load_state arg w).2) = mutable g0).
Proof.
  split; [|split; [|split]].
  - intros Hf. unfold load_state, read_save, mbind, M_bind. by rewrite Hf.
  - intros Hf. unfold load_state, read_save, mbind, M_bind. by rewrite Hf.
  - intros j e Hj. unfold _restore, mbind, M_bind, lift.
    rewrite Hj. reflexivity.
  - intros g0 Hf Hs. unfold load_state, read_save, mbind, M_bind. rewrite Hf.
    rewrite _restore_snapshot by done. split; reflexivity.
Qed.

(** ** Rendering and command routing *)

(** What rendering leaves alone: all but the console and the generator. *)
Definition quiet (w w' : World) : Prop :=
  game w' = game w ∧ stdin w' = stdin w ∧ save_json w' = save_json w
  ∧ sound_enabled w' = sound_enabled w.

Ltac quiet_tac :=
  repeat match goal with
  | H : quiet _ _ |- _ => destruct H as (? & ? & ? & ?)
  | H : _ ∧ _ |- _ => destruct H
  end;
  subst; unfold quiet in *; simpl_state; repeat split; congruence.

Ltac wp_quiet_step calls :=
  first [ wp_prim; simpl_state | calls | progress wp_beta | progress intros
        | quiet_tac ].

Lemma process_words_quiet ws w : wp (process_words ws) (λ _ w', quiet w w') w.
Proof.
  revert w. induction ws as [|x ws IH]; intros w; cbn [process_words].
  - repeat wp_quiet_step fail.
  - repeat wp_quiet_step ltac:(idtac;
      lazymatch goal with
      | |- wp (process_words _) _ _ => wp_call IH
      end).
Qed.

Lemma _process_text_quiet text w : wp (_process_text text) (λ _ w', quiet w w') w.
Proof.
  unfold _process_text.
  repeat wp_quiet_step ltac:(idtac;
    lazymatch goal with
    | |- wp (process_words _) _ _ => wp_call process_words_quiet
    end).
Qed.

Lemma _render_ui_quiet w :
  wp _render_ui (λ o w', quiet w w' ∧ o = Ok tt) w.
Proof. unfold _render_ui. repeat wp_step fail. by repeat split. Qed.

Lemma render_room_quiet w : wp render_room (λ _ w', quiet w w') w.
Proof.
  unfold render_room.
  repeat wp_quiet_step ltac:(idtac;
    lazymatch goal with
    | |- wp (_room _) _ _ => wp_call _room_spec
    | |- wp (_process_text _) _ _ => wp_call _process_text_quiet
    end).
Qed.

Lemma Dict_get_is_Some {V} k (d : list (string * V)) :
  k ∈ Dict.keys d → is_Some (Dict.get k d).
Proof.
  unfold Dict.keys. induction d as [|[k' v] d IH]; cbn [fmap list_fmap fst Dict.get].
  - by intros ?%elem_of_nil.
  - intros [->|Hin]%elem_of_cons.
    + rewrite decide_True by done. eauto.
    + case_decide; eauto.
Qed.

(** C6.  A non-empty line whose first token is no key of the command
    table goes to the scorer.  With a best score of 80 or more (and the
    best choice being one of the choices, as the scorer promises) the
    substitution is printed and the handler of the best key runs on the
    untouched argument; with a best score below 80 the only effect is the
    line "Unknown command." on the console.  A pass of the loop that reads
    an empty line changes neither the game, nor the save file, nor the
    sound switch: no handler runs. *)
Theorem dispatch_resolution (w : World) :
  (∀ inp cmd args,
     Str.split inp = cmd :: args →
     Dict.mem cmd cmds = false →
     (FUZZY_CONFIDENCE ≤ (extractOne cmd (Dict.keys cmds)).2)%Z →
     (extractOne cmd (Dict.keys cmds)).1 ∈ Dict.keys cmds →
     ∃ handler,
       Dict.get (extractOne cmd (Dict.keys cmds)).1 cmds = Some handler
       ∧ dispatch inp w
         = handler (Str.join " " args)
             (set_console
                (console w
                 ++ ["[dim italic]Did you mean '"
                     +:+ (extractOne cmd (Dict.keys cmds)).1 +:+ "'?[/]"])
                w))
  ∧ (∀ inp cmd args,
       Str.split inp = cmd :: args →
       Dict.mem cmd cmds = false →
       ((extractOne cmd (Dict.keys cmds)).2 < FUZZY_CONFIDENCE)%Z →
       dispatch inp w
       = (Ok tt, set_console (console w ++ ["[dim]Unknown command.[/]"]) w))
  ∧ (∀ l r,
       stdin w = l :: r →
       Str.lower (Str.strip l) = "" →
       Player.room_id (player (game w)) ≠ "garden" →
       game (turn w).2 = game w
       ∧ save_json (turn w).2 = save_json w
       ∧ sound_enabled (turn w).2 = sound_enabled w).
Proof.
  split; [|split].
  - intros inp cmd args Hsplit Hmem Hscore Hbest.
    destruct (Dict_get_is_Some _ _ Hbest) as [handler Hh].
    exists handler. split; [done|].
    unfold dispatch. rewrite Hsplit, Hmem.
    destruct (extractOne cmd (Dict.keys cmds)) as [best score].
    cbn [fst snd] in *. rewrite decide_True by done.
    unfold mbind, M_bind, call_cmd. cbn [print]. by rewrite Hh.
  - intros inp cmd args Hsplit Hmem Hscore.
    unfold dispatch. rewrite Hsplit, Hmem.
    destruct (extractOne cmd (Dict.keys cmds)) as [best score].
    cbn [fst snd] in *. rewrite decide_False by lia. reflexivity.
  - intros l r Hin Hempty Hroom.
    change (wp turn (λ _ w',
      game w' = game w ∧ save_json w' = save_json w
      ∧ sound_enabled w' = sound_enabled w) w).
    unfold turn.
    repeat wp_step ltac:(idtac;
      lazymatch goal with
      | |- wp _render_ui _ _ => wp_call _render_ui_quiet
      | |- wp render_room _ _ => wp_call render_room_quiet
      end);
      try quiet_tac.
    all: repeat match goal with
         | H : quiet _ _ |- _ => destruct H as (? & ? & ? & ?)
         | H : _ ∧ _ |- _ => destruct H
         end; simplify_eq/=; congruence.
Qed.

(** ** Resource and inventory bounds *)

(** The two bounds that the code keeps on the player: on the resources
    (sanity never above 100, battery between 0 and 100) and on the pockets
    (at most five items carried). *)
Inductive bound := Resources | Pockets.

Definition bounded (b : bound) (p : Player.t) : Prop :=
  match b with
  | Resources => Player.sanity p ≤ 100 ∧ 0 ≤ Player.battery p ≤ 100
  | Pockets => (length (Player.inventory p) ≤ MAX_INV_SLOTS)%nat
  end.

(** The player that [_restore] installs from [j] *)
Definition player_of_json (j : json) : outcome Player.t :=
  d ← Json.subscript j "player"; restore_Player d.

(** A snapshot that keeps bound [b].  For the resources: the player that
    [_restore] installs from it is within them.  For the pockets: what the
    snapshot holds as the player's inventory is a list of at most five
    entries, whatever they are; line 263 binds that list as it is and line
    264 puts one item for each entry in its place, neither with a look at
    the length. *)
Definition json_ok (b : bound) (j : json) : Prop :=
  match b with
  | Resources => ∀ p, player_of_json j = Ok p → bounded Resources p
  | Pockets =>
      ∀ d v,
        Json.subscript j "player" = Ok d →
        Json.subscript d "inventory" = Ok v →
        ∃ l, v = JList l ∧ (length l ≤ MAX_INV_SLOTS)%nat
  end.

(** A save file that is missing, unreadable, or holds a snapshot that
    keeps the bound; every file that [save_state] writes in a bounded
    state is one. *)
Definition file_ok (b : bound) (f : save_file) : Prop :=
  match f with
  | Saved j => json_ok b j
  | _ => True
  end.

Definition Inv (b : bound) (w : World) : Prop :=
  bounded b (player (game w))
  ∧ Forall (json_ok b) (history (game w))
  ∧ file_ok b (save_json w).

Lemma json_ok_snapshot b g : bounded b (player g) → json_ok b (_snapshot g).
Proof.
  assert (Json.subscript (_snapshot g) "player" = Ok (asdict_Player (player g)))
    as Hplayer by reflexivity.
  destruct b; intros Hb.
  - intros p. unfold player_of_json. rewrite Hplayer.
    cbn [mbind outcome_bind]. rewrite restore_Player_asdict. congruence.
  - intros d v Hd Hv. rewrite Hplayer in Hd. injection Hd as <-.
    assert (Json.subscript (asdict_Player (player g)) "inventory"
            = Ok (JList (asdict_Item <$> Player.inventory (player g))))
      as Hinv by reflexivity.
    rewrite Hinv in Hv. injection Hv as <-.
    eexists. split; [reflexivity|]. by rewrite length_fmap.
Qed.

Lemma each_length {A} (f : json → outcome A) l xs :
  Json.each f l = Ok xs → length xs = length l.
Proof.
  revert xs. induction l as [|j l IH]; intros xs; cbn [Json.each].
  - by intros [= <-].
  - destruct (f j) as [a| |]; cbn [mbind outcome_bind]; [|done..].
    destruct (Json.each f l) as [as'| |]; cbn [mbind outcome_bind]; [|done..].
    intros [= <-]. cbn [length]. by rewrite (IH as').
Qed.

(** The player that [_restore] installs from a snapshot that keeps a
    bound is within it. *)
Lemma json_ok_player b j p :
  json_ok b j → player_of_json j = Ok p → bounded b p.
Proof.
  destruct b; intros Hj Hp; [by apply Hj|].
  unfold player_of_json in Hp.
  destruct (Json.subscript j "player") as [d| |] eqn:Hd;
    cbn [mbind outcome_bind] in Hp; [|done..].
  unfold restore_Player in Hp.
  destruct (new_Player d) as [p0| |]; cbn [mbind outcome_bind] in Hp; [|done..].
  destruct (Json.subscript d "inventory") as [v| |] eqn:Hv;
    cbn [mbind outcome_bind untyped_after] in Hp; [|done..].
  destruct (Hj d v Hd Hv) as (l & -> & Hl).
  cbn [Json.as_list] in Hp.
  destruct (Json.each new_Item l) as [inv| |] eqn:Hinv;
    cbn [mbind outcome_bind untyped_after] in Hp; [|done..].
  destruct (untyped_after _) as [vis| |];
    cbn [mbind outcome_bind] in Hp; [|done..].
  injection Hp as <-. cbn [bounded]. destruct p0.
  cbn [Player.set_visited Player.set_inventory Player.inventory].
  by rewrite (each_length _ _ _ Hinv).
Qed.

Lemma Forall_pushed (P : json → Prop) h s :
  Forall P h → P s → Forall P (pushed h s).
Proof.
  intros Hh Hs. assert (Forall P (h ++ [s])) as Hall.
  { apply Forall_app. split; [done|]. by apply Forall_singleton. }
  unfold pushed. case_decide; [|done].
  destruct (h ++ [s]); [done|]. by apply Forall_cons in Hall as [_ ?].
Qed.

Lemma Forall_removelast {A} (P : A → Prop) (l : list A) :
  Forall P l → Forall P (removelast l).
Proof.
  induction 1 as [|x l Hx Hl IH]; [done|].
  cbn [removelast]. destruct l; [done|]. by apply Forall_cons.
Qed.

Lemma last_Forall {A} (P : A → Prop) (l : list A) x :
  Forall P l → last l = Some x → P x.
Proof.
  intros Hl [l' ->]%last_Some. apply Forall_app in Hl as [_ Hx].
  by inversion Hx.
Qed.

Lemma scaled_nonneg c g : 0 ≤ c → 0 ≤ scaled c g.
Proof.
  intros Hc. unfold scaled, _diff_mult, py_int.
  repeat case_decide; cbn [Qmult inject_Z Qnum Qden];
    apply Z.quot_pos; lia.
Qed.

Lemma list_remove_first_length {A} `{EqDecision A} (x : A) (l : list A) :
  (length (list_remove_first x l) ≤ length l)%nat.
Proof.
  induction l as [|y l IH]; [done|]. cbn [list_remove_first].
  case_decide; cbn [length]; lia.
Qed.

(** What the status update and the phantom's tick may do to the player:
    lower the sanity and, within its range, the battery. *)
Definition shrinks (w w' : World) : Prop :=
  history (game w') = history (game w)
  ∧ save_json w' = save_json w
  ∧ stdin w' = stdin w
  ∧ Player.inventory (player (game w')) = Player.inventory (player (game w))
  ∧ Player.sanity (player (game w')) ≤ Player.sanity (player (game w))
  ∧ (0 ≤ Player.battery (player (game w)) →
     0 ≤ Player.battery (player (game w'))
         ≤ Player.battery (player (game w))).

Ltac pose_scaled :=
  repeat match goal with
  | |- context [scaled ?c ?g] =>
      lazymatch goal with
      | _ : 0 ≤ scaled c g |- _ => fail
      | _ => pose proof (scaled_nonneg c g ltac:(by vm_compute))
      end
  | _ : context [scaled ?c ?g] |- _ =>
      lazymatch goal with
      | _ : 0 ≤ scaled c g |- _ => fail
      | _ => pose proof (scaled_nonneg c g ltac:(by vm_compute))
      end
  end.

(** Brings what is known of later states into terms of earlier ones. *)
Ltac tidy :=
  repeat match goal with
  | H : shrinks _ _ |- _ => destruct H as (? & ? & ? & ? & ? & ?)
  | H : _ ∧ _ |- _ => destruct H
  end;
  subst; simpl_state;
  repeat match goal with
  | H : game ?w = _ |- _ => is_var w; try rewrite !H in *; clear H; simpl_state
  | H : save_json ?w = _ |- _ => is_var w; try rewrite !H in *; clear H; simpl_state
  | H : history (game ?w) = _ |- _ => is_var w; try rewrite !H in *; clear H
  | H : Player.inventory (player (game ?w)) = _ |- _ =>
      is_var w; try rewrite !H in *; clear H
  end.

Ltac shrinks_tac :=
  unfold shrinks; simpl_state; tidy; pose_scaled;
  repeat split; first [ congruence | lia ].

Ltac wp_shrinks_step calls :=
  first [ wp_prim; simpl_state | calls | progress wp_beta | progress intros
        | shrinks_tac ].

Ltac quiet_calls :=
  idtac;
  lazymatch goal with
  | |- wp (_room _) _ _ => wp_call _room_spec
  | |- wp (choice _) _ _ => wp_call choice_game_save
  | |- wp shake _ _ => wp_call shake_game_save
  end.

Lemma _update_phantom_shrinks w : wp _update_phantom (λ _ w', shrinks w w') w.
Proof. unfold _update_phantom. repeat wp_shrinks_step quiet_calls. Qed.

Lemma _update_status_shrinks w : wp _update_status (λ _ w', shrinks w w') w.
Proof. unfold _update_status. repeat wp_shrinks_step quiet_calls. Qed.

(** What [_restore] of [j] may do to the player, the history and the save
    file, whether it completes or fails on the way. *)
Definition restored (j : json) (w w' : World) : Prop :=
  (player (game w') = player (game w)
   ∨ player_of_json j = Ok (player (game w')))
  ∧ history (game w') = history (game w)
  ∧ save_json w' = save_json w
  ∧ stdin w' = stdin w.

Lemma restore_rooms_keeps l w :
  wp (restore_rooms l) (λ _ w',
    player (game w') = player (game w)
    ∧ history (game w') = history (game w)
    ∧ save_json w' = save_json w
    ∧ stdin w' = stdin w) w.
Proof.
  revert w. induction l as [|[rid r_data] l IH]; intros w; cbn [restore_rooms].
  - by apply wp_ret.
  - repeat wp_step ltac:(idtac;
      lazymatch goal with
      | |- wp (restore_rooms _) _ _ => wp_call IH
      end);
      tidy; try done; repeat split; congruence.
Qed.

Lemma _restore_restored j w : wp (_restore j) (λ _ w', restored j w w') w.
Proof.
  unfold _restore.
  repeat wp_step ltac:(idtac;
    lazymatch goal with
    | |- wp (restore_rooms _) _ _ => wp_call restore_rooms_keeps
    end);
    unfold restored, player_of_json; simpl_state; tidy;
    (split; [first [by left | by right] | by repeat split]).
Qed.

Ltac inv_tac :=
  try match goal with b : bound |- _ => destruct b end;
  unfold Inv, bounded in *; simpl_state; tidy; pose_scaled;
  rewrite ?length_app; cbn [length];
  try match goal with
  | |- context [list_remove_first ?x ?l] =>
      pose proof (list_remove_first_length x l)
  end;
  unfold MAX_INV_SLOTS, BATTERY_RESTORE, SANITY_RESTORE_AMULET in *;
  repeat split; first [ done | congruence | lia ].

Ltac inv_calls :=
  idtac;
  lazymatch goal with
  | |- wp (_room _) _ _ => wp_call _room_spec
  | |- wp (choice _) _ _ => wp_call choice_game_save
  | |- wp shake _ _ => wp_call shake_game_save
  | |- wp _update_status _ _ => wp_call _update_status_shrinks
  | |- wp _update_phantom _ _ => wp_call _update_phantom_shrinks
  | |- wp (_process_text _) _ _ => wp_call _process_text_quiet
  end.

Ltac wp_inv_step :=
  first [ wp_prim; simpl_state | inv_calls | progress wp_beta | progress intros ].

Ltac handler_inv := repeat wp_inv_step; try (unfold quiet in *; inv_tac).

Lemma inv_record_intro b (body : M unit) :
  (∀ w1, Inv b w1 → wp body (λ _ w', Inv b w') w1) →
  ∀ w, Inv b w → wp (_record_action ≫= λ _, body) (λ _ w', Inv b w') w.
Proof.
  intros Hbody w (Hb & Hh & Hf). apply wp_bind, wp_modify. apply Hbody.
  split; [done|]. split; [|done]. simpl_state.
  apply Forall_pushed; [done|]. by apply json_ok_snapshot.
Qed.

Lemma move_Inv b direction w : Inv b w → wp (move direction) (λ _ w', Inv b w') w.
Proof. revert w. apply inv_record_intro. intros w1 Hinv. handler_inv. Qed.

Lemma take_Inv b target w : Inv b w → wp (take target) (λ _ w', Inv b w') w.
Proof. revert w. apply inv_record_intro. intros w1 Hinv. handler_inv. Qed.

Lemma drop_Inv b target w : Inv b w → wp (drop target) (λ _ w', Inv b w') w.
Proof. revert w. apply inv_record_intro. intros w1 Hinv. handler_inv. Qed.

Lemma use_Inv b target w : Inv b w → wp (use target) (λ _ w', Inv b w') w.
Proof. revert w. apply inv_record_intro. intros w1 Hinv. handler_inv. Qed.

Lemma unlock_Inv b target w : Inv b w → wp (unlock target) (λ _ w', Inv b w') w.
Proof. revert w. apply inv_record_intro. intros w1 Hinv. handler_inv. Qed.

Lemma play_piano_Inv b target w : Inv b w → wp (play_piano target) (λ _ w', Inv b w') w.
Proof. revert w. apply inv_record_intro. intros w1 Hinv. handler_inv. Qed.

Lemma flash_Inv b arg w : Inv b w → wp (flash arg) (λ _ w', Inv b w') w.
Proof. revert w. apply inv_record_intro. intros w1 Hinv. handler_inv. Qed.

Lemma hint_Inv b arg w : Inv b w → wp (hint arg) (λ _ w', Inv b w') w.
Proof. revert w. apply inv_record_intro. intros w1 Hinv. handler_inv. Qed.

Lemma listen_Inv b arg w : Inv b w → wp (listen arg) (λ _ w', Inv b w') w.
Proof. revert w. apply inv_record_intro. intros w1 Hinv. handler_inv. Qed.

Lemma look_Inv b target w : Inv b w → wp (look target) (λ _ w', Inv b w') w.
Proof. intros Hinv. unfold look. handler_inv. Qed.

Lemma show_inv_Inv b arg w : Inv b w → wp (show_inv arg) (λ _ w', Inv b w') w.
Proof. intros Hinv. unfold show_inv. handler_inv. Qed.

Lemma show_journal_Inv b arg w : Inv b w → wp (show_journal arg) (λ _ w', Inv b w') w.
Proof. intros Hinv. unfold show_journal. handler_inv. Qed.

Lemma show_map_Inv b arg w : Inv b w → wp (show_map arg) (λ _ w', Inv b w') w.
Proof. intros Hinv. unfold show_map. handler_inv. Qed.

Lemma show_help_Inv b arg w : Inv b w → wp (show_help arg) (λ _ w', Inv b w') w.
Proof. intros Hinv. unfold show_help. handler_inv. Qed.

Lemma mute_Inv b arg w : Inv b w → wp (mute arg) (λ _ w', Inv b w') w.
Proof. intros Hinv. unfold mute. handler_inv. Qed.

Lemma unmute_Inv b arg w : Inv b w → wp (unmute arg) (λ _ w', Inv b w') w.
Proof. intros Hinv. unfold unmute. handler_inv. Qed.

Lemma save_state_Inv b arg w : Inv b w → wp (save_state arg) (λ _ w', Inv b w') w.
Proof.
  intros (Hb & Hh & Hf). unfold save_state. repeat wp_inv_step.
  split; [done|]. split; [done|]. simpl_state. by apply json_ok_snapshot.
Qed.

Lemma restored_Inv b j w w' :
  json_ok b j → Inv b w → restored j w w' → Inv b w'.
Proof.
  intros Hj (Hb & Hh & Hf) ([Hp|Hp] & Hh' & Hf' & _).
  - split; [by rewrite Hp|]. split; [by rewrite Hh' | by rewrite Hf'].
  - split; [by eapply json_ok_player|].
    split; [by rewrite Hh' | by rewrite Hf'].
Qed.

Lemma Inv_set_console b c w : Inv b w → Inv b (set_console c w).
Proof. done. Qed.

Lemma undo_Inv b arg w : Inv b w → wp (undo arg) (λ _ w', Inv b w') w.
Proof.
  intros Hinv. unfold undo. apply wp_bind, wp_get. wp_beta.
  destruct (last (history (game w))) as [prev|] eqn:Hlast;
    [|apply wp_print; by apply Inv_set_console].
  assert (json_ok b prev) as Hprev.
  { destruct Hinv as (_ & Hh & _). by eapply last_Forall. }
  apply wp_bind, wp_modify. wp_beta.
  assert (Inv b (set_game (set_history (removelast (history (game w))) (game w)) w))
    as Hinv'.
  { destruct Hinv as (Hb & Hh & Hf). split; [done|]. split; [|done].
    simpl_state. by apply Forall_removelast. }
  apply wp_bind. wp_call _restore_restored.
  assert (Inv b w') as Hw' by (by eapply restored_Inv).
  destruct o; [|done..]. apply wp_print. by apply Inv_set_console.
Qed.

Lemma load_state_Inv b arg w : Inv b w → wp (load_state arg) (λ _ w', Inv b w') w.
Proof.
  intros Hinv. unfold load_state. apply wp_bind, wp_read_save. wp_beta.
  destruct (save_json w) as [| |j] eqn:Hfile; [by apply wp_ret|by apply wp_raise|].
  assert (json_ok b j) as Hj.
  { destruct Hinv as (_ & _ & Hf). by rewrite Hfile in Hf. }
  apply wp_bind. wp_call _restore_restored.
  assert (Inv b w') as Hw' by (by eapply restored_Inv).
  destruct o; [|done..]. apply wp_print. by apply Inv_set_console.
Qed.

Lemma Dict_get_Forall {V} (P : V → Prop) k v (d : list (string * V)) :
  Forall (λ kv, P kv.2) d → Dict.get k d = Some v → P v.
Proof.
  induction 1 as [|[k' v'] d Hv Hd IH]; cbn [Dict.get]; [done|].
  case_decide; [|done]. by intros [= <-].
Qed.

Lemma cmds_Inv b :
  Forall (λ kv : string * (string → M unit),
            ∀ arg w, Inv b w → wp (kv.2 arg) (λ _ w', Inv b w') w) cmds.
Proof.
  unfold cmds.
  repeat first [apply List.Forall_nil | apply List.Forall_cons];
    cbn [snd]; intros arg w.
  1-3: apply move_Inv.
  1-3: apply look_Inv.
  1-3: apply take_Inv.
  - apply drop_Inv.
  - apply use_Inv.
  - apply show_inv_Inv.
  - apply show_inv_Inv.
  - apply show_inv_Inv.
  - apply show_map_Inv.
  - apply show_journal_Inv.
  - apply show_journal_Inv.
  - apply save_state_Inv.
  - apply load_state_Inv.
  - apply show_help_Inv.
  - apply unlock_Inv.
  - apply play_piano_Inv.
  - apply undo_Inv.
  - apply hint_Inv.
  - apply listen_Inv.
  - apply flash_Inv.
  - apply mute_Inv.
  - apply unmute_Inv.
Qed.

Lemma call_cmd_Inv b k arg w : Inv b w → wp (call_cmd k arg) (λ _ w', Inv b w') w.
Proof.
  intros Hinv. unfold call_cmd.
  destruct (Dict.get k cmds) as [handler|] eqn:Hget; [|done].
  exact (Dict_get_Forall
           (λ h : string → M unit, ∀ arg w, Inv b w → wp (h arg) (λ _ w', Inv b w') w)
           k handler cmds (cmds_Inv b) Hget arg w Hinv).
Qed.

Lemma dispatch_Inv b inp w : Inv b w → wp (dispatch inp) (λ _ w', Inv b w') w.
Proof.
  intros Hinv. unfold dispatch.
  destruct (Str.split inp) as [|cmd args]; [done|].
  destruct (Dict.mem cmd cmds); [by apply call_cmd_Inv|].
  destruct (extractOne cmd (Dict.keys cmds)) as [best score].
  case_decide; [|done].
  apply wp_bind, wp_print. wp_beta. apply call_cmd_Inv. by apply Inv_set_console.
Qed.

Lemma turn_Inv b w : Inv b w → wp turn (λ _ w', Inv b w') w.
Proof.
  intros Hinv. unfold turn.
  repeat first
    [ wp_prim; simpl_state
    | lazymatch goal with
      | |- wp _render_ui _ _ => wp_call _render_ui_quiet
      | |- wp render_room _ _ => wp_call render_room_quiet
      | |- wp (dispatch _) _ _ =>
          eapply wp_wand;
          [ apply (dispatch_Inv b); unfold quiet in *; inv_tac
          | wp_beta; intros ? ? ? ]
      end
    | progress wp_beta | progress intros ];
    try (unfold quiet in *; inv_tac).
Qed.

(** ** The input only shrinks, so the loop ends *)

Definition consumes (w w' : World) : Prop := stdin w' `suffix_of` stdin w.

Ltac solve_suffix :=
  solve [ repeat first
    [ reflexivity
    | eassumption
    | apply suffix_nil
    | apply suffix_cons_r
    | etrans; [eassumption|] ] ].

Ltac consumes_tac :=
  unfold consumes in *; simpl_state;
  repeat match goal with
  | H : shrinks _ _ |- _ => destruct H as (_ & _ & ? & _)
  | H : quiet _ _ |- _ => destruct H as (_ & ? & _)
  | H : restored _ _ _ |- _ => destruct H as (_ & _ & _ & ?)
  | H : _ ∧ _ |- _ => destruct H
  end;
  subst; simpl_state;
  repeat match goal with
  | H : stdin ?w = _ |- _ => is_var w; try rewrite !H in *; clear H
  | H : _ = stdin ?w |- _ => is_var w; symmetry in H
  end;
  try (eexists _, _; split; [reflexivity|]);
  solve_suffix.

Ltac consumes_calls :=
  idtac;
  lazymatch goal with
  | |- wp (_room _) _ _ => wp_call _room_spec
  | |- wp (choice _) _ _ => wp_call choice_game_save
  | |- wp shake _ _ => wp_call shake_game_save
  | |- wp _update_status _ _ => wp_call _update_status_shrinks
  | |- wp _update_phantom _ _ => wp_call _update_phantom_shrinks
  | |- wp (_process_text _) _ _ => wp_call _process_text_quiet
  | |- wp (_restore _) _ _ => wp_call _restore_restored
  | |- wp _render_ui _ _ => wp_call _render_ui_quiet
  | |- wp render_room _ _ => wp_call render_room_quiet
  end.

Ltac handler_consumes :=
  repeat first [ wp_prim; simpl_state | consumes_calls | progress wp_beta
               | progress intros ];
  try consumes_tac.

Lemma cmds_consumes :
  Forall (λ kv : string * (string → M unit),
            ∀ arg w, wp (kv.2 arg) (λ _ w', consumes w w') w) cmds.
Proof.
  unfold cmds.
  repeat first [apply List.Forall_nil | apply List.Forall_cons];
    cbn [snd]; intros arg w.
  1-3: unfold move, _record_action; handler_consumes.
  1-3: unfold look; handler_consumes.
  1-3: unfold take, _record_action; handler_consumes.
  - unfold drop, _record_action; handler_consumes.
  - unfold use, _record_action; handler_consumes.
  - unfold show_inv; handler_consumes.
  - unfold show_inv; handler_consumes.
  - unfold show_inv; handler_consumes.
  - unfold show_map; handler_consumes.
  - unfold show_journal; handler_consumes.
  - unfold show_journal; handler_consumes.
  - unfold save_state; handler_consumes.
  - unfold load_state; handler_consumes.
  - unfold show_help; handler_consumes.
  - unfold unlock, _record_action; handler_consumes.
  - unfold play_piano, _record_action; handler_consumes.
  - unfold undo; handler_consumes.
  - unfold hint, _record_action; handler_consumes.
  - unfold listen, _record_action; handler_consumes.
  - unfold flash, _record_action; handler_consumes.
  - unfold mute; handler_consumes.
  - unfold unmute; handler_consumes.
Qed.

Lemma call_cmd_consumes k arg w :
  wp (call_cmd k arg) (λ _ w', consumes w w') w.
Proof.
  unfold call_cmd.
  destruct (Dict.get k cmds) as [handler|] eqn:Hget; [|apply wp_raise; consumes_tac].
  exact (Dict_get_Forall
           (λ h : string → M unit, ∀ arg w, wp (h arg) (λ _ w', consumes w w') w)
           k handler cmds cmds_consumes Hget arg w).
Qed.

Lemma dispatch_consumes inp w : wp (dispatch inp) (λ _ w', consumes w w') w.
Proof.
  unfold dispatch.
  destruct (Str.split inp) as [|cmd args]; [apply wp_raise; consumes_tac|].
  destruct (Dict.mem cmd cmds); [apply call_cmd_consumes|].
  destruct (extractOne cmd (Dict.keys cmds)) as [best score].
  case_decide; [|apply wp_print; consumes_tac].
  apply wp_bind, wp_print. wp_beta.
  eapply wp_wand; [apply call_cmd_consumes|]. intros; consumes_tac.
Qed.

(** A pass of the loop that asks for another one has read a line. *)
Lemma turn_consumes w :
  wp turn (λ o w',
    o = Ok true → ∃ l r, stdin w = l :: r ∧ stdin w' `suffix_of` r) w.
Proof.
  unfold turn.
  repeat first
    [ wp_prim; simpl_state
    | consumes_calls
    | lazymatch goal with
      | |- wp (dispatch _) _ _ => wp_call dispatch_consumes
      end
    | progress wp_beta | progress intros ];
    try done; consumes_tac.
Qed.

(** The fuel that [start] gives the loop is enough. *)
Lemma loop_total fuel w :
  (length (stdin w) < fuel)%nat → is_Some (loop fuel w).
Proof.
  revert w. induction fuel as [|fuel IH]; intros w Hlen; [lia|].
  cbn [loop]. pose proof (turn_consumes w) as Hturn. unfold wp in Hturn.
  destruct (turn w) as [[[|]|e|] w']; cbn [fst snd] in Hturn; [|by eauto..].
  destruct (IH w') as [[tr r] ->]; [|by eauto].
  destruct (Hturn eq_refl) as (l & r & Hin & Hsuf%suffix_length).
  rewrite Hin in Hlen. cbn [length] in Hlen. lia.
Qed.

(** ** Whole sessions *)

Lemma loop_Inv b fuel w tr o w' :
  Inv b w → loop fuel w = Some (tr, (o, w')) → Inv b w'.
Proof.
  revert w tr. induction fuel as [|fuel IH]; intros w tr Hinv; [done|].
  cbn [loop]. pose proof (turn_Inv b w Hinv) as Hturn. unfold wp in Hturn.
  destruct (turn w) as [[[|]|e|] w1]; cbn [fst snd] in Hturn;
    [|intros ?; by simplify_eq/=..].
  destruct (loop fuel w1) as [[tr1 [o1 w2]]|] eqn:Hloop; [|done].
  cbn. intros ?; simplify_eq/=. by eapply IH.
Qed.

Lemma prologue_Inv b w : Inv b w → wp prologue (λ _ w', Inv b w') w.
Proof.
  intros Hinv. unfold prologue, _select_difficulty.
  repeat wp_inv_step; inv_tac.
Qed.

Lemma _game_over_Inv b w : Inv b w → wp _game_over (λ _ w', Inv b w') w.
Proof. intros Hinv. unfold _game_over. repeat wp_inv_step; inv_tac. Qed.

Lemma start_Inv b w tr o w' :
  Inv b w → start w = Some (tr, (o, w')) → Inv b w'.
Proof.
  intros Hinv. unfold start.
  pose proof (prologue_Inv b w Hinv) as Hpro. unfold wp in Hpro.
  destruct (prologue w) as [[[]|e|] w1]; cbn [fst snd] in Hpro;
    [|intros ?; by simplify_eq/=..].
  destruct (loop _ w1) as [[tr1 [o1 w2]]|] eqn:Hloop; [|done].
  apply (loop_Inv b) in Hloop; [|done]. cbn.
  pose proof (_game_over_Inv b w2 Hloop) as Hover. unfold wp in Hover.
  destruct o1; intros ?; simplify_eq/=; try done.
  by destruct (_game_over w2); simplify_eq/=.
Qed.

Lemma start_total w : is_Some (start w).
Proof.
  unfold start. destruct (prologue w) as [[[]|e|] w1]; [|by eauto..].
  destruct (loop_total (S (length (stdin w1))) w1) as [[tr [o w2]] ->]; [lia|].
  cbn. destruct o; eauto.
Qed.

Lemma main_total seed r0 file lines : is_Some (main seed r0 file lines).
Proof. unfold main. destruct (Game_init seed r0). apply start_total. Qed.

Lemma main_Inv b seed r0 file lines tr o w' :
  file_ok b file → main seed r0 file lines = Some (tr, (o, w')) → Inv b w'.
Proof.
  intros Hfile. unfold main.
  destruct (Game_init seed r0) as [g r] eqn:Hinit.
  apply start_Inv. unfold Game_init in Hinit. simplify_eq.
  split; [|split]; simpl_state; [|done..].
  destruct b; unfold bounded, MAX_INV_SLOTS, STARTING_SANITY, STARTING_BATTERY;
    cbn; lia.
Qed.


(** C7, as amended.  At the end of every session, whatever the seed and
    the input, that starts without a save file or with one that holds at
    most five items for the player, the player carries at most five items,
    and the save file it leaves is again such a file; [load] itself checks
    no length.  And [take] of an item that is there and takeable, with
    five or more items carried, prints "Inventory full!" and changes
    nothing but the console and the undo history: the inventory and the
    items of the room are as before. *)
Theorem inventory_capacity :
  (∀ seed (r0 : rng G) file lines,
     file_ok Pockets file →
     ∃ tr o w',
       main seed r0 file lines = Some (tr, (o, w'))
       ∧ (length (Player.inventory (player (game w'))) ≤ MAX_INV_SLOTS)%nat
       ∧ file_ok Pockets (save_json w'))
  ∧ (∀ target (w : World) room item,
       rooms (game w) !! Player.room_id (player (game w)) = Some room →
       next_match
         (λ i, bool_decide (Str.lower (Item.name i) = Str.replace "up " "" target)
               || bool_decide (Item.id i = Str.replace "up " "" target))
         (Room.items room) = Some item →
       Item.takeable item = true →
       (MAX_INV_SLOTS ≤ length (Player.inventory (player (game w))))%nat →
       take target w
       = (Ok tt,
          set_console (console w ++ ["[red]Inventory full![/]"])
            (set_game
               (set_history (pushed (history (game w)) (_snapshot (game w)))
                  (game w))
               w))).
Proof.
  split.
  - intros seed r0 file lines Hfile.
    destruct (main_total seed r0 file lines) as [[tr [o w']] Hmain].
    exists tr, o, w'. split; [done|].
    by destruct (main_Inv Pockets _ _ _ _ _ _ _ Hfile Hmain) as (? & _ & ?).
  - intros target w room item Hroom Hitem Htake Hfull.
    unfold take, _record_action, _room, mbind, M_bind.
    cbn [modify get room_key]. simpl_state. rewrite Hroom.
    cbn [mret M_ret]. simpl_state. rewrite Hitem, Htake. cbn [negb].
    rewrite decide_True by done. reflexivity.
Qed.

(** ** The save file matters to [load] only *)

(** [m] runs the same way whatever the save file holds, and leaves
    worlds that differ in the save file at most. *)
Definition blind_at {A} (w : World) (m : M A) : Prop :=
  ∀ s, ∃ s', m (set_save_json s w) = ((m w).1, set_save_json s' (m w).2).

Definition blind {A} (m : M A) : Prop := ∀ w, blind_at w m.

Lemma blind_at_bind {A B} (m : M A) (k : A → M B) w :
  blind_at w m →
  (∀ a w1, m w = (Ok a, w1) → blind_at w1 (k a)) →
  blind_at w (m ≫= k).
Proof.
  intros Hm Hk s. destruct (Hm s) as [s1 E]. unfold mbind, M_bind. rewrite E.
  destruct (m w) as [[a|e|] w1] eqn:Hmw; cbn [fst snd]; [|by eauto..].
  by apply Hk.
Qed.

Lemma blind_bind {A B} (m : M A) (k : A → M B) :
  blind m → (∀ a, blind (k a)) → blind (m ≫= k).
Proof. intros Hm Hk w. apply blind_at_bind; [done|]. intros a w1 _. apply Hk. Qed.

Lemma blind_ret {A} (a : A) : blind (mret a).
Proof. intros w s. by exists s. Qed.
Lemma blind_raise {A} e : blind (raise e : M A).
Proof. intros w s. by exists s. Qed.
Lemma blind_lift {A} (o : outcome A) : blind (lift o).
Proof. intros w s. by exists s. Qed.
Lemma blind_get : blind get.
Proof. intros w s. by exists s. Qed.
Lemma blind_modify f : blind (modify f).
Proof. intros w s. by exists s. Qed.
Lemma blind_print t : blind (print t).
Proof. intros w s. by exists s. Qed.
Lemma blind_input : blind input.
Proof. intros w s. exists s. unfold input. simpl_state. by destruct (stdin w). Qed.
Lemma blind_read_line : blind read_line.
Proof. intros w s. exists s. unfold read_line. simpl_state. by destruct (stdin w). Qed.
Lemma blind_read_difficulty : blind read_difficulty.
Proof. intros w s. by exists s. Qed.
Lemma blind_random_random : blind random_random.
Proof. intros w s. by exists s. Qed.
Lemma blind_randbelow n : blind (randbelow n).
Proof. intros w s. by exists s. Qed.
Lemma blind_set_sound b : blind (set_sound b).
Proof. intros w s. by exists s. Qed.
Lemma blind_write_save j : blind (write_save j).
Proof. intros w s. by exists (Saved j). Qed.

Ltac blind_prim :=
  lazymatch goal with
  | |- blind (mbind _ _) => apply blind_bind
  | |- blind (mret _) => apply blind_ret
  | |- blind (raise _) => apply blind_raise
  | |- blind (lift _) => apply blind_lift
  | |- blind get => apply blind_get
  | |- blind (modify_player _) => apply blind_modify
  | |- blind (modify_phantom _) => apply blind_modify
  | |- blind (modify_room _ _) => apply blind_modify
  | |- blind (modify _) => apply blind_modify
  | |- blind (print _) => apply blind_print
  | |- blind input => apply blind_input
  | |- blind read_line => apply blind_read_line
  | |- blind read_difficulty => apply blind_read_difficulty
  | |- blind random_random => apply blind_random_random
  | |- blind (randbelow _) => apply blind_randbelow
  | |- blind (set_sound _) => apply blind_set_sound
  | |- blind (write_save _) => apply blind_write_save
  | |- blind (if ?c then _ else _) => destruct c
  | |- blind (match ?x with _ => _ end) => destruct x
  | |- blind (let x := ?v in _) => cbv zeta
  | |- ∀ _, _ => intros ?
  end.

Lemma blind_process_words ws : blind (process_words ws).
Proof.
  induction ws as [|x ws IH]; cbn [process_words]; repeat first [blind_prim | apply IH].
Qed.

Lemma blind_restore_rooms l : blind (restore_rooms l).
Proof.
  induction l as [|[rid r_data] l IH]; cbn [restore_rooms];
    repeat first [blind_prim | apply IH].
Qed.

Ltac blind_tac :=
  repeat first
    [ blind_prim
    | apply blind_process_words
    | apply blind_restore_rooms
    | progress unfold _room, choice, randint, shake, shake_once, _process_text,
        _update_phantom, _update_status, _record_action, _restore,
        _render_ui, render_room, _select_difficulty ].

(** Every entry of the command table but the one of [load] *)
Lemma cmds_blind :
  Forall (λ kv : string * (string → M unit),
            kv.1 ≠ "load" → ∀ arg, blind (kv.2 arg)) cmds.
Proof.
  unfold cmds.
  repeat first [apply List.Forall_nil | apply List.Forall_cons];
    cbn [fst snd]; intros Hkey arg; try done.
  1-3: unfold move; blind_tac.
  1-3: unfold look; blind_tac.
  1-3: unfold take; blind_tac.
  - unfold drop; blind_tac.
  - unfold use; blind_tac.
  - unfold show_inv; blind_tac.
  - unfold show_inv; blind_tac.
  - unfold show_inv; blind_tac.
  - unfold show_map; blind_tac.
  - unfold show_journal; blind_tac.
  - unfold show_journal; blind_tac.
  - unfold save_state; blind_tac.
  - unfold show_help; blind_tac.
  - unfold unlock; blind_tac.
  - unfold play_piano; blind_tac.
  - unfold undo; blind_tac.
  - unfold hint; blind_tac.
  - unfold listen; blind_tac.
  - unfold flash; blind_tac.
  - unfold mute; blind_tac.
  - unfold unmute; blind_tac.
Qed.

Lemma Dict_get_Forall_kv {V} (P : string * V → Prop) k v (d : list (string * V)) :
  Forall P d → Dict.get k d = Some v → P (k, v).
Proof.
  induction 1 as [|[k' v'] d Hv Hd IH]; cbn [Dict.get]; [done|].
  case_decide; [|done]. intros [= <-]. by subst.
Qed.

Lemma call_cmd_blind k arg : k ≠ "load" → blind (call_cmd k arg).
Proof.
  intros Hk. unfold call_cmd.
  destruct (Dict.get k cmds) as [handler|] eqn:Hget; [|apply blind_raise].
  exact (Dict_get_Forall_kv _ k handler cmds cmds_blind Hget Hk arg).
Qed.

Lemma dispatch_blind inp :
  (∀ cmd args, Str.split inp = cmd :: args → resolve cmd ≠ Some "load") →
  blind (dispatch inp).
Proof.
  intros Hres. unfold dispatch.
  destruct (Str.split inp) as [|cmd args]; [apply blind_raise|].
  specialize (Hres cmd args eq_refl). unfold resolve in Hres.
  destruct (Dict.mem cmd cmds).
  { apply call_cmd_blind. congruence. }
  destruct (extractOne cmd (Dict.keys cmds)) as [best score].
  case_decide; [|apply blind_print].
  apply blind_bind; [apply blind_print|]. intros _.
  apply call_cmd_blind. congruence.
Qed.

Lemma blind_prologue : blind prologue.
Proof. unfold prologue. blind_tac. Qed.

Lemma blind__game_over : blind _game_over.
Proof. unfold _game_over. blind_tac. Qed.

Lemma blind_blind_at {A} (m : M A) w : blind m → blind_at w m.
Proof. intros Hm. apply Hm. Qed.

(** A pass of the loop whose input line would not run [load] *)
Lemma turn_blind_at w :
  (∀ l r, stdin w = l :: r → may_load l = false) → blind_at w turn.
Proof.
  intros Hline. unfold turn.
  apply blind_at_bind; [apply blind_get|]. intros g w0 [= <- <-].
  destruct (negb _); [apply blind_ret|].
  case_decide; [apply blind_blind_at; blind_tac|].
  apply blind_at_bind; [apply blind_blind_at; blind_tac|]. intros [] w1 Hui.
  pose proof (_render_ui_quiet w) as [(_ & Hin1 & _) _].
  rewrite Hui in Hin1. cbn [snd] in Hin1.
  apply blind_at_bind; [apply blind_blind_at; blind_tac|]. intros [] w2 Hroom.
  pose proof (render_room_quiet w1) as (_ & Hin2 & _).
  unfold wp in Hin2. rewrite Hroom in Hin2. cbn [snd] in Hin2.
  apply blind_at_bind; [apply blind_read_line|]. intros line w3 Hread.
  unfold read_line in Hread.
  destruct (stdin w2) as [|l r] eqn:Hw2; simplify_eq; [apply blind_ret|].
  assert (may_load l = false) as Hl.
  { apply (Hline l r). congruence. }
  case_decide; [apply blind_ret|].
  assert (blind (dispatch (Str.lower (Str.strip l)))) as Hd.
  { apply dispatch_blind. intros cmd args Hsplit. unfold may_load in Hl.
    rewrite Hsplit in Hl. by apply bool_decide_eq_false in Hl. }
  apply blind_blind_at. repeat first [blind_prim | apply Hd].
Qed.

(** Two results that agree but for the save file that is left *)
Definition same_but_save
    (r1 r2 : option (list string * (outcome unit * World))) : Prop :=
  match r1, r2 with
  | Some (tr1, (o1, w1)), Some (tr2, (o2, w2)) =>
      tr2 = tr1 ∧ o2 = o1 ∧ ∃ s, w2 = set_save_json s w1
  | None, None => True
  | _, _ => False
  end.

Lemma Forall_suffix {A} (P : A → Prop) (l1 l2 : list A) :
  l1 `suffix_of` l2 → Forall P l2 → Forall P l1.
Proof. intros [k ->] Hall. by apply Forall_app in Hall as [_ ?]. Qed.

Lemma loop_blind fuel w s :
  Forall (λ l, may_load l = false) (stdin w) →
  same_but_save (loop fuel w) (loop fuel (set_save_json s w)).
Proof.
  revert w s. induction fuel as [|fuel IH]; intros w s Hall; [done|].
  cbn [loop].
  destruct (turn_blind_at w) with (s := s) as [s' E].
  { intros l r Hin. rewrite Hin in Hall. by apply Forall_cons in Hall as [? _]. }
  rewrite E. pose proof (turn_consumes w) as Hturn. unfold wp in Hturn.
  destruct (turn w) as [[[|]|e|] w1]; cbn [fst snd] in *;
    [|by (repeat split; eauto)..].
  destruct (Hturn eq_refl) as (l & r & Hin & Hsuf).
  assert (Forall (λ l, may_load l = false) (stdin w1)) as Hall1.
  { eapply Forall_suffix; [exact Hsuf|]. rewrite Hin in Hall.
    by apply Forall_cons in Hall as [_ ?]. }
  specialize (IH w1 s' Hall1).
  destruct (loop fuel w1) as [[tr1 [o1 w2]]|],
           (loop fuel (set_save_json s' w1)) as [[tr2 [o2 w3]]|];
    cbn in *; try done.
  destruct IH as (-> & -> & s2 & ->). repeat split; eauto.
Qed.

Lemma select_difficulty_suffix lines :
  (select_difficulty lines).2 `suffix_of` lines.
Proof.
  induction lines as [|l r IH]; cbn [select_difficulty]; [done|].
  repeat case_decide; cbn [snd]; try by apply suffix_cons_r.
Qed.

Lemma prologue_consumes w : wp prologue (λ _ w', consumes w w') w.
Proof.
  unfold prologue, _select_difficulty.
  repeat first [ wp_prim; simpl_state | progress wp_beta | progress intros ];
    unfold consumes; simpl_state; try done; apply select_difficulty_suffix.
Qed.

Lemma start_blind w s :
  Forall (λ l, may_load l = false) (stdin w) →
  same_but_save (start w) (start (set_save_json s w)).
Proof.
  intros Hall. unfold start.
  destruct (blind_prologue w s) as [s1 E]. rewrite E.
  pose proof (prologue_consumes w) as Hpro. unfold wp, consumes in Hpro.
  destruct (prologue w) as [[[]|e|] w1]; cbn [fst snd] in *;
    [|by (repeat split; eauto)..].
  pose proof (loop_blind (S (length (stdin w1))) w1 s1
                (Forall_suffix _ _ _ Hpro Hall)) as Hloop.
  change (stdin (set_save_json s1 w1)) with (stdin w1).
  destruct (loop (S (length (stdin w1))) w1) as [[tr1 [o1 w2]]|],
           (loop (S (length (stdin w1))) (set_save_json s1 w1))
             as [[tr2 [o2 w3]]|];
    cbn in *; try done.
  destruct Hloop as (-> & -> & s2 & ->).
  destruct o1; [|by (repeat split; eauto)..].
  destruct (blind__game_over w2 s2) as [s3 E3]. rewrite E3.
  destruct (_game_over w2). repeat split; eauto.
Qed.

(** What a session shows: the room of the phantom after each pass of the
    loop, how the session ended, the [Game] object at the end (the safe
    code is one of its attributes) and all that was printed. *)
Definition observed (r : option (list string * (outcome unit * World)))
  : option (list string * outcome unit * Game * list string) :=
  (λ r, (r.1, r.2.1, game r.2.2, console r.2.2)) <$> r.

(** C3, as amended.  Two sessions with the same seed and the same input
    show the same: the same rooms of the phantom turn by turn, the same
    safe code, the same end and the same console, whatever state the
    generator was in before it was seeded, provided that they start with
    the same save file or that no line of the input would run [load].
    The file that [load] reads is a third input of the session. *)
Theorem session_determinism (seed : string) (r1 r2 : rng G)
    (file1 file2 : save_file) (lines : list string) :
  file1 = file2 ∨ Forall (λ l, may_load l = false) lines →
  observed (main (Some seed) r1 file1 lines)
  = observed (main (Some seed) r2 file2 lines).
Proof.
  intros Hfiles. unfold main, Game_init. cbv zeta.
  destruct Hfiles as [->|Hall]; [reflexivity|].
  match goal with
  | |- observed (start ?w1) = observed (start ?w2) =>
      change w2 with (set_save_json file2 w1);
      pose proof (start_blind w1 file2 Hall) as Hsame
  end.
  unfold same_but_save in Hsame.
  repeat case_match; try done.
  destruct Hsame as (-> & -> & s & ->). reflexivity.
Qed.

(** * Further properties of the engine *)

(** ** What a command may do to the undo history and to the map *)

Lemma restore_rooms_frame l w : wp (restore_rooms l) (λ _ w', frame w w') w.
Proof.
  revert w. induction l as [|[rid r_data] l IH]; intros w; cbn [restore_rooms].
  - by apply wp_ret.
  - repeat wp_frame_step ltac:(idtac;
      lazymatch goal with
      | |- wp (restore_rooms _) _ _ => wp_call IH
      end).
Qed.

Lemma _restore_frame j w : wp (_restore j) (λ _ w', frame w w') w.
Proof.
  unfold _restore.
  repeat wp_frame_step ltac:(idtac;
    lazymatch goal with
    | |- wp (restore_rooms _) _ _ => wp_call restore_rooms_frame
    end).
Qed.

(** A command keeps the skeleton of the map, and leaves the history as it
    is, pushes the snapshot of the state it starts from, or pops one. *)
Definition steps (w w' : World) : Prop :=
  skel (game w') = skel (game w)
  ∧ (history (game w') = history (game w)
     ∨ history (game w') = pushed (history (game w)) (_snapshot (game w))
     ∨ history (game w') = removelast (history (game w))).

Lemma recorded_steps w w' : recorded w w' → steps w w'.
Proof. intros [Hh Hs]. split; [done|]. by right; left. Qed.

Ltac steps_tac :=
  repeat match goal with
  | H : frame _ _ |- _ => destruct H as [? ?]
  | H : quiet _ _ |- _ => destruct H as (? & _)
  | H : _ ∧ _ |- _ => destruct H
  end;
  subst; unfold steps, frame, skel in *; simpl_state;
  rewrite ?skeleton_alter in *
    by (intros ?; rewrite ?skeleton_set_locked, ?skeleton_set_items,
                          ?skeleton_set_exits; reflexivity);
  repeat match goal with
  | H : game ?w = _ |- _ => is_var w; try rewrite !H in *; clear H
  end;
  split; [congruence|];
  first [ left; congruence | right; right; congruence ].

Ltac steps_calls :=
  idtac;
  lazymatch goal with
  | |- wp (_room _) _ _ => wp_call _room_frame
  | |- wp (_process_text _) _ _ => wp_call _process_text_quiet
  | |- wp (_restore _) _ _ => wp_call _restore_frame
  end.

Ltac handler_steps :=
  repeat first [ wp_prim; simpl_state | steps_calls | progress wp_beta
               | progress intros ];
  try steps_tac.

Lemma cmds_steps :
  Forall (λ kv : string * (string → M unit),
            ∀ arg w, wp (kv.2 arg) (λ _ w', steps w w') w) cmds.
Proof.
  unfold cmds.
  repeat first [apply List.Forall_nil | apply List.Forall_cons];
    cbn [snd]; intros arg w.
  1-3: eapply wp_wand; [apply move_recorded|intros; by apply recorded_steps].
  1-3: unfold look; handler_steps.
  1-3: eapply wp_wand; [apply take_recorded|intros; by apply recorded_steps].
  - eapply wp_wand; [apply drop_recorded|intros; by apply recorded_steps].
  - eapply wp_wand; [apply use_recorded|intros; by apply recorded_steps].
  - unfold show_inv; handler_steps.
  - unfold show_inv; handler_steps.
  - unfold show_inv; handler_steps.
  - unfold show_map; handler_steps.
  - unfold show_journal; handler_steps.
  - unfold show_journal; handler_steps.
  - unfold save_state; handler_steps.
  - unfold load_state; handler_steps.
  - unfold show_help; handler_steps.
  - eapply wp_wand; [apply unlock_recorded|intros; by apply recorded_steps].
  - eapply wp_wand; [apply play_piano_recorded|intros; by apply recorded_steps].
  - unfold undo; handler_steps.
  - eapply wp_wand; [apply hint_recorded|intros; by apply recorded_steps].
  - eapply wp_wand; [apply listen_recorded|intros; by apply recorded_steps].
  - eapply wp_wand; [apply flash_recorded|intros; by apply recorded_steps].
  - unfold mute; handler_steps.
  - unfold unmute; handler_steps.
Qed.

(** ** Invariants of a session *)

(** A property of the state that every command keeps, that depends on the
    [Game] object and the save file only, and that the loop's own writes
    (death, escape from the garden, the difficulty) keep, holds at the end
    of a session that starts with it. *)
Section Session_invariant.

Variable I : World → Prop.

Hypothesis I_ext :
  ∀ w w', game w' = game w → save_json w' = save_json w → I w → I w'.
Hypothesis I_alive : ∀ w,
  I w →
  I (set_game (set_player (Player.set_alive false (player (game w))) (game w)) w).
Hypothesis I_escaped : ∀ w,
  I w → Player.room_id (player (game w)) = "garden" →
  I (set_game (set_player (Player.set_escaped true (player (game w))) (game w)) w).
Hypothesis I_difficulty : ∀ d w,
  I w →
  I (set_game (set_player (Player.set_difficulty d (player (game w))) (game w)) w).
Hypothesis I_cmds :
  Forall (λ kv : string * (string → M unit),
            ∀ arg w, I w → wp (kv.2 arg) (λ _ w', I w') w) cmds.

Lemma I_quiet w w' : quiet w w' → I w → I w'.
Proof. intros (Hg & _ & Hs & _). by apply I_ext. Qed.

Lemma I_print s w : I w → I (set_console s w).
Proof. by apply I_ext. Qed.

Lemma I_stdin s w : I w → I (set_stdin s w).
Proof. by apply I_ext. Qed.

Lemma call_cmd_keeps k arg w : I w → wp (call_cmd k arg) (λ _ w', I w') w.
Proof.
  intros HI. unfold call_cmd.
  destruct (Dict.get k cmds) as [handler|] eqn:Hget; [|done].
  exact (Dict_get_Forall
           (λ h : string → M unit, ∀ arg w, I w → wp (h arg) (λ _ w', I w') w)
           k handler cmds I_cmds Hget arg w HI).
Qed.

Lemma dispatch_keeps inp w : I w → wp (dispatch inp) (λ _ w', I w') w.
Proof.
  intros HI. unfold dispatch.
  destruct (Str.split inp) as [|cmd args]; [done|].
  destruct (Dict.mem cmd cmds); [by apply call_cmd_keeps|].
  destruct (extractOne cmd (Dict.keys cmds)) as [best score].
  case_decide; [|by apply wp_print, I_print].
  apply wp_bind, wp_print. wp_beta. apply call_cmd_keeps. by apply I_print.
Qed.

Lemma turn_keeps w : I w → wp turn (λ _ w', I w') w.
Proof.
  intros HI. unfold turn.
  apply wp_bind, wp_get. wp_beta.
  destruct (negb _); [by apply wp_ret|].
  case_decide as Hroom.
  { apply wp_bind, wp_modify_player. wp_beta. apply wp_ret. by apply I_escaped. }
  apply wp_bind. wp_call _render_ui_quiet.
  destruct H as [Hq ->]. apply (I_quiet _ _ Hq) in HI. clear Hq.
  apply wp_bind. wp_call render_room_quiet.
  apply (I_quiet _ _ H) in HI. clear H.
  destruct o; [|done..].
  apply wp_bind, wp_read_line.
  destruct (stdin w'0) as [|l r]; wp_beta; [by apply wp_ret|].
  case_decide; [by apply wp_ret, I_stdin|].
  apply wp_bind. eapply wp_wand; [apply dispatch_keeps; by apply I_stdin|].
  wp_beta. intros o w2 HI2. destruct o; [|done..].
  apply wp_bind, wp_get. wp_beta. apply wp_bind.
  case_decide.
  - apply wp_bind, wp_print. wp_beta. apply wp_modify_player. wp_beta.
    apply wp_ret. by apply I_alive, I_print.
  - apply wp_ret. wp_beta. by apply wp_ret.
Qed.

Lemma loop_keeps fuel w tr o w' :
  I w → loop fuel w = Some (tr, (o, w')) → I w'.
Proof.
  revert w tr. induction fuel as [|fuel IH]; intros w tr HI; [done|].
  cbn [loop]. pose proof (turn_keeps w HI) as Hturn. unfold wp in Hturn.
  destruct (turn w) as [[[|]|e|] w1]; cbn [fst snd] in Hturn;
    [|intros ?; by simplify_eq/=..].
  destruct (loop fuel w1) as [[tr1 [o1 w2]]|] eqn:Hloop; [|done].
  cbn. intros ?; simplify_eq/=. by eapply IH.
Qed.

Lemma prologue_keeps w : I w → wp prologue (λ _ w', I w') w.
Proof.
  intros HI. unfold prologue, _select_difficulty.
  apply wp_bind, wp_get. wp_beta.
  apply wp_bind, wp_print. wp_beta.
  apply wp_bind, wp_bind, wp_print. wp_beta. apply wp_read_difficulty.
  destruct (select_difficulty _).1; [|by apply I_stdin, I_print, I_print..].
  apply wp_bind, wp_modify_player. wp_beta. apply wp_print.
  by apply I_print, I_difficulty, I_stdin, I_print, I_print.
Qed.

Lemma _game_over_keeps w : I w → wp _game_over (λ _ w', I w') w.
Proof.
  intros HI. unfold _game_over. apply wp_bind, wp_get. wp_beta.
  destruct (Player.escaped _); by apply wp_print, I_print.
Qed.

Lemma start_keeps w tr o w' : I w → start w = Some (tr, (o, w')) → I w'.
Proof.
  intros HI. unfold start.
  pose proof (prologue_keeps w HI) as Hpro. unfold wp in Hpro.
  destruct (prologue w) as [[[]|e|] w1]; cbn [fst snd] in Hpro;
    [|intros ?; by simplify_eq/=..].
  destruct (loop _ w1) as [[tr1 [o1 w2]]|] eqn:Hloop; [|done].
  apply loop_keeps in Hloop; [|done]. cbn.
  pose proof (_game_over_keeps w2 Hloop) as Hover. unfold wp in Hover.
  destruct o1; intros ?; simplify_eq/=; try done.
  by destruct (_game_over w2); simplify_eq/=.
Qed.

End Session_invariant.

(** ** The undo history holds at most ten snapshots *)

Lemma pushed_length h s :
  (length h ≤ HISTORY_CAPACITY → length (pushed h s) ≤ HISTORY_CAPACITY)%nat.
Proof.
  unfold pushed, HISTORY_CAPACITY. intros Hlen.
  case_decide as Hcap; rewrite length_app in Hcap; cbn [length] in Hcap.
  - destruct h as [|x h]; cbn [length app tail] in *; [lia|].
    rewrite length_app. cbn [length]. lia.
  - rewrite length_app. cbn [length]. lia.
Qed.

Lemma removelast_length {A} (l : list A) : (length (removelast l) ≤ length l)%nat.
Proof.
  induction l as [|x l IH]; [done|]. cbn [removelast].
  destruct l; cbn [length] in *; lia.
Qed.

Lemma steps_length w w' :
  steps w w' →
  (length (history (game w)) ≤ HISTORY_CAPACITY)%nat →
  (length (history (game w')) ≤ HISTORY_CAPACITY)%nat.
Proof.
  intros [_ [->|[->| ->]]] Hlen; [done|by apply pushed_length|].
  pose proof (removelast_length (history (game w))). lia.
Qed.

Lemma cmds_steps_keeps (I : World → Prop) :
  (∀ w w', steps w w' → I w → I w') →
  Forall (λ kv : string * (string → M unit),
            ∀ arg w, I w → wp (kv.2 arg) (λ _ w', I w') w) cmds.
Proof.
  intros HI. eapply Forall_impl; [exact cmds_steps|].
  intros kv Hkv arg w Hw. eapply wp_wand; [apply Hkv|].
  intros o w1 Hst. exact (HI _ _ Hst Hw).
Qed.

Lemma main_history seed r0 file lines tr o w' :
  main seed r0 file lines = Some (tr, (o, w')) →
  (length (history (game w')) ≤ HISTORY_CAPACITY)%nat.
Proof.
  unfold main. destruct (Game_init seed r0) as [g r] eqn:Hinit.
  apply (start_keeps
           (λ w, (length (history (game w)) ≤ HISTORY_CAPACITY)%nat)).
  - intros w w1 -> _. done.
  - done.
  - done.
  - done.
  - apply cmds_steps_keeps. intros w w1. apply steps_length.
  - unfold Game_init in Hinit. simplify_eq. simpl_state. cbn. lia.
Qed.

(** X1.  Every session runs to an end, whatever the seed, the save file
    and the input, and at its end (so after every sequence of commands) the
    undo history holds at most ten snapshots. *)
Theorem history_is_bounded (seed : option string) (r0 : rng G)
    (file : save_file) (lines : list string) :
  ∃ tr o w',
    main seed r0 file lines = Some (tr, (o, w'))
    ∧ (length (history (game w')) ≤ HISTORY_CAPACITY)%nat.
Proof.
  destruct (main_total seed r0 file lines) as [[tr [o w']] Hmain].
  exists tr, o, w'. split; [done|]. by eapply main_history.
Qed.

(** ** The map keeps its rooms *)

Lemma main_skel seed r0 file lines tr o w' :
  main seed r0 file lines = Some (tr, (o, w')) →
  skel (game w') = skel (Game_init seed r0).1.
Proof.
  unfold main. destruct (Game_init seed r0) as [g r] eqn:Hinit. cbn [fst].
  apply (start_keeps (λ w, skel (game w) = skel g)).
  - by intros w w1 -> _.
  - done.
  - done.
  - done.
  - apply cmds_steps_keeps. intros w w1 [Hst _] Hs. by rewrite Hst.
  - done.
Qed.

(** X2.  A session never adds, removes or renames a room: at its end, the
    rooms are those of the start, each with the identifier, name,
    description, darkness and key it started with, whatever the commands
    - also [undo], and [load] of any save file at all.  Only the lock, the
    items and the exits of a room change. *)
Theorem map_skeleton_is_fixed (seed : option string) (r0 : rng G)
    (file : save_file) (lines : list string) :
  ∃ tr o w',
    main seed r0 file lines = Some (tr, (o, w'))
    ∧ dom (rooms (game w')) = dom (rooms (Game_init seed r0).1)
    ∧ ∀ k r, rooms (game w') !! k = Some r →
        ∃ r0', rooms (Game_init seed r0).1 !! k = Some r0'
               ∧ Room.skeleton r = Room.skeleton r0'.
Proof.
  destruct (main_total seed r0 file lines) as [[tr [o w']] Hmain].
  exists tr, o, w'. split; [done|].
  pose proof (main_skel _ _ _ _ _ _ _ Hmain) as Hs. unfold skel in Hs.
  split.
  - apply (f_equal dom) in Hs. by rewrite !dom_fmap_L in Hs.
  - intros k r Hk. apply (f_equal (.!! k)) in Hs.
    rewrite !lookup_fmap, Hk in Hs.
    destruct (rooms (Game_init seed r0).1 !! k) as [r0'|];
      cbn [fmap option_fmap option_map] in Hs; [|done].
    exists r0'. split; [done|]. congruence.
Qed.

(** ** One pass of the loop for each line at most *)







(** ** Who lives has a mind *)








(** ** Undo is a stack of depth ten *)

(** Commands run one after the other, whatever each returns *)
Definition run (cs : list (M unit)) (w : World) : World :=
  foldl (λ w c, (c w).2) w cs.

(** [n] times [undo] *)
Definition undos (n : nat) (w : World) : World :=
  Nat.iter n (λ w, (undo "" w).2) w.

(** A call of one of the handlers that record the state *)
Definition mutating (c : M unit) : Prop :=
  ∃ h arg, h ∈ mutating_handlers ∧ c = h arg.

Lemma mutating_recorded c w : mutating c → recorded w (c w).2.
Proof.
  intros (h & arg & Hin & ->). unfold mutating_handlers in Hin.
  repeat (apply elem_of_cons in Hin as [->|Hin]);
    [..|by apply elem_of_nil in Hin].
  - apply move_recorded.
  - apply take_recorded.
  - apply drop_recorded.
  - apply use_recorded.
  - apply unlock_recorded.
  - apply play_piano_recorded.
  - apply flash_recorded.
  - apply hint_recorded.
  - apply listen_recorded.
Qed.

Lemma undo_pops arg g h w :
  history (game w) = (h ++ [_snapshot g])%list →
  skel (game w) = skel g →
  undo arg w
  = (Ok tt,
     set_console (console w ++ ["[bold yellow]Time Rewind.[/]"])
       (set_game (mkGame (seed g) (safe_code g) (piano_solved g) h (rooms g)
                    (player g) (phantom g)) w)).
Proof.
  intros Hh Hs. unfold undo, mbind, M_bind. cbn [get].
  rewrite Hh, last_snoc. cbn [modify]. rewrite removelast_last.
  rewrite _restore_snapshot by (simpl_state; exact Hs). reflexivity.
Qed.

(** The history ends with the snapshots of [gs], oldest first, all of the
    map of [w]. *)
Definition stacked (gs : list Game) (w : World) : Prop :=
  (∃ h, history (game w) = (h ++ (_snapshot <$> gs))%list)
  ∧ Forall (λ g, skel g = skel (game w)) gs.

Lemma pushed_app h l s :
  (length l < HISTORY_CAPACITY)%nat →
  ∃ h', pushed (h ++ l) s = (h' ++ (l ++ [s]))%list.
Proof.
  unfold pushed, HISTORY_CAPACITY. intros Hl. case_decide as Hcap.
  - destruct h as [|x h].
    + rewrite app_nil_l, length_app in Hcap. cbn [length] in Hcap. lia.
    + exists h. cbn [app tail]. by rewrite <- app_assoc.
  - exists h. by rewrite <- app_assoc.
Qed.

Lemma run_snoc cs c w : run (cs ++ [c]) w = (c (run cs w)).2.
Proof. unfold run. by rewrite foldl_app. Qed.

Lemma run_stacked cs w :
  Forall mutating cs →
  (length cs ≤ HISTORY_CAPACITY)%nat →
  ∃ gs, length gs = length cs
        ∧ stacked gs (run cs w)
        ∧ head (gs ++ [game (run cs w)]) = Some (game w).
Proof.
  induction cs as [|c cs IH] using rev_ind; intros Hcs Hlen.
  - exists []. split; [done|]. split; [|done]. split; [|done].
    exists (history (game w)). by rewrite app_nil_r.
  - apply Forall_app in Hcs as [Hcs Hc]. rewrite Forall_singleton in Hc.
    rewrite length_app in Hlen. cbn [length] in Hlen.
    destruct IH as (gs & Hgs & [[h Hh] Hskel] & Hhead); [done|lia|].
    rewrite run_snoc.
    destruct (mutating_recorded c (run cs w) Hc) as [Hrec Hs].
    exists (gs ++ [game (run cs w)])%list. split; [|split; [split|]].
    + rewrite !length_app. cbn [length]. lia.
    + rewrite Hrec, Hh.
      destruct (pushed_app h (_snapshot <$> gs) (_snapshot (game (run cs w))))
        as [h' ->]; [rewrite length_fmap; lia|].
      exists h'. by rewrite fmap_app.
    + apply Forall_app. split.
      * eapply Forall_impl; [exact Hskel|]. intros g Hg. by rewrite Hs.
      * by apply Forall_singleton.
    + destruct gs; cbn in *; done.
Qed.

Lemma undos_stacked gs w m0 :
  stacked gs w →
  mutable <$> head (gs ++ [game w]) = Some m0 →
  mutable (game (undos (length gs) w)) = m0.
Proof.
  revert w. induction gs as [|g gs IH] using rev_ind; intros w [[h Hh] Hskel] Hhead.
  - cbn in *. congruence.
  - rewrite fmap_app, app_assoc in Hh. cbn [fmap list_fmap] in Hh.
    apply Forall_app in Hskel as [Hskel Hg]. rewrite Forall_singleton in Hg.
    rewrite length_app, Nat.add_comm. cbn [length Nat.add].
    unfold undos. rewrite Nat.iter_succ_r.
    rewrite (undo_pops "" g _ w Hh) by done. cbn [snd].
    apply IH.
    + split; [by exists h|]. simpl_state.
      eapply Forall_impl; [exact Hskel|]. intros g' Hg'.
      rewrite Hg', <- Hg. reflexivity.
    + simpl_state. destruct gs; cbn in *; [|done]. by simplify_eq.
Qed.

(** ** Saving and loading *)

Ltac file_tac :=
  repeat match goal with
  | H : shrinks _ _ |- _ => destruct H as (_ & ? & _)
  | H : quiet _ _ |- _ => destruct H as (_ & _ & ? & _)
  | H : restored _ _ _ |- _ => destruct H as (_ & _ & ? & _)
  | H : _ ∧ _ |- _ => destruct H
  end;
  subst; simpl_state; congruence.

Ltac handler_file :=
  repeat first [ wp_prim; simpl_state | consumes_calls | progress wp_beta
               | progress intros ];
  try file_tac.

Lemma cmds_keep_file :
  Forall (λ kv : string * (string → M unit),
            kv.1 ≠ "save" →
            ∀ arg w, wp (kv.2 arg) (λ _ w', save_json w' = save_json w) w) cmds.
Proof.
  unfold cmds.
  repeat first [apply List.Forall_nil | apply List.Forall_cons];
    cbn [fst snd]; intros Hne arg w.
  1-3: unfold move, _record_action; handler_file.
  1-3: unfold look; handler_file.
  1-3: unfold take, _record_action; handler_file.
  - unfold drop, _record_action; handler_file.
  - unfold use, _record_action; handler_file.
  - unfold show_inv; handler_file.
  - unfold show_inv; handler_file.
  - unfold show_inv; handler_file.
  - unfold show_map; handler_file.
  - unfold show_journal; handler_file.
  - unfold show_journal; handler_file.
  - done.
  - unfold load_state; handler_file.
  - unfold show_help; handler_file.
  - unfold unlock, _record_action; handler_file.
  - unfold play_piano, _record_action; handler_file.
  - unfold undo; handler_file.
  - unfold hint, _record_action; handler_file.
  - unfold listen, _record_action; handler_file.
  - unfold flash, _record_action; handler_file.
  - unfold mute; handler_file.
  - unfold unmute; handler_file.
Qed.

(** A call of a command of the table other than [save] *)
Definition other_than_save (c : M unit) : Prop :=
  ∃ k h arg, Dict.get k cmds = Some h ∧ k ≠ "save" ∧ c = h arg.

Lemma run_keeps_file cs w :
  Forall other_than_save cs →
  save_json (run cs w) = save_json w ∧ skel (game (run cs w)) = skel (game w).
Proof.
  induction cs as [|c cs IH] using rev_ind; intros Hcs; [done|].
  apply Forall_app in Hcs as [Hcs Hc]. rewrite Forall_singleton in Hc.
  destruct (IH Hcs) as [Hfile Hskel]. rewrite run_snoc.
  destruct Hc as (k & h & arg & Hget & Hne & ->).
  pose proof (Dict_get_Forall_kv _ k h cmds cmds_keep_file Hget Hne arg (run cs w))
    as Hf.
  pose proof (Dict_get_Forall_kv _ k h cmds cmds_steps Hget arg (run cs w))
    as [Hs _].
  unfold wp in Hf. cbn [fst snd] in *. split; congruence.
Qed.

(** X5.  Undo is a stack: after up to ten commands that record the state
    (move, take, drop, use, unlock, play, flash, hint, listen, in any mix
    and on any arguments, from any state and whatever each prints or
    raises), as many [undo]s bring back the player, the phantom, the seed,
    the safe code, the piano flag and every room as they were before the
    first of them. *)
Theorem undo_is_a_stack (cs : list (M unit)) (w : World) :
  Forall mutating cs →
  (length cs ≤ HISTORY_CAPACITY)%nat →
  mutable (game (undos (length cs) (run cs w))) = mutable (game w).
Proof.
  intros Hcs Hlen.
  destruct (run_stacked cs w Hcs Hlen) as (gs & Hgs & Hst & Hhead).
  rewrite <- Hgs. apply undos_stacked; [done|]. by rewrite Hhead.
Qed.

(** X6.  What [save] writes, [load] reads back: after [save] in any state
    and then any commands of the table other than [save] (whatever they
    are given, print or raise), [load] succeeds and brings back the
    player, the phantom, the seed, the safe code, the piano flag and every
    room as they were when [save] ran. *)
Theorem save_then_load (cs : list (M unit)) (a a' : string) (w : World) :
  Forall other_than_save cs →
  (load_state a' (run cs (save_state a w).2)).1 = Ok tt
  ∧ mutable (game (load_state a' (run cs (save_state a w).2)).2)
    = mutable (game w).
Proof.
  intros Hcs.
  destruct (run_keeps_file cs (save_state a w).2 Hcs) as [Hf Hs].
  change (save_json (save_state a w).2) with (Saved (_snapshot (game w))) in Hf.
  change (game (save_state a w).2) with (game w) in Hs.
  revert Hf Hs. generalize (run cs (save_state a w).2). intros w1 Hf Hs.
  unfold load_state, mbind, M_bind. cbn [read_save]. rewrite Hf.
  rewrite _restore_snapshot by done. done.
Qed.

(** ** Taking and dropping *)




(** ** Moving *)


(** ** Actions that take no time *)

(** What a command that is no move leaves alone: the phantom, the turn
    counter and the room of the player. *)
Definition still (w w' : World) : Prop :=
  phantom (game w') = phantom (game w)
  ∧ Player.turns (player (game w')) = Player.turns (player (game w))
  ∧ Player.room_id (player (game w')) = Player.room_id (player (game w)).

Ltac still_tac :=
  repeat match goal with
  | H : quiet _ _ |- _ => destruct H as (? & _)
  | H : _ ∧ _ |- _ => destruct H
  end;
  subst; unfold still; simpl_state;
  repeat match goal with
  | H : game ?w = _ |- _ => is_var w; try rewrite !H in *; clear H; simpl_state
  end;
  done.

Ltac still_calls :=
  idtac;
  lazymatch goal with
  | |- wp (_room _) _ _ => wp_call _room_spec
  | |- wp (_process_text _) _ _ => wp_call _process_text_quiet
  end.

Ltac handler_still :=
  repeat first [ wp_prim; simpl_state | still_calls | progress wp_beta
               | progress intros ];
  try still_tac.

Definition timed : list string := ["go"; "move"; "walk"; "flash"; "undo"; "load"].

Lemma cmds_still :
  Forall (λ kv : string * (string → M unit),
            kv.1 ∉ timed →
            ∀ arg w, wp (kv.2 arg) (λ _ w', still w w') w) cmds.
Proof.
  unfold cmds.
  repeat first [apply List.Forall_nil | apply List.Forall_cons];
    cbn [fst snd]; intros Hne arg w;
    try (exfalso; apply Hne; unfold timed;
         solve [repeat first [apply list_elem_of_here
                             |apply list_elem_of_further]]).
  1-3: unfold look; handler_still.
  1-3: unfold take, _record_action; handler_still.
  - unfold drop, _record_action; handler_still.
  - unfold use, _record_action; handler_still.
  - unfold show_inv; handler_still.
  - unfold show_inv; handler_still.
  - unfold show_inv; handler_still.
  - unfold show_map; handler_still.
  - unfold show_journal; handler_still.
  - unfold show_journal; handler_still.
  - unfold save_state; handler_still.
  - unfold show_help; handler_still.
  - unfold unlock, _record_action; handler_still.
  - unfold play_piano, _record_action; handler_still.
  - unfold hint, _record_action; handler_still.
  - unfold listen, _record_action; handler_still.
  - unfold mute; handler_still.
  - unfold unmute; handler_still.
Qed.

(** X9.  Time passes on moves only.  Every command of the table other
    than go, move, walk, flash, undo and load, on any argument and from
    any state, leaves the phantom as it is (room, activity, stun), the turn
    counter as it is and the player in his room. *)
Theorem only_moves_take_time (k arg : string) (handler : string → M unit)
    (w : World) :
  Dict.get k cmds = Some handler →
  k ∉ timed →
  phantom (game (handler arg w).2) = phantom (game w)
  ∧ Player.turns (player (game (handler arg w).2)) = Player.turns (player (game w))
  ∧ Player.room_id (player (game (handler arg w).2))
    = Player.room_id (player (game w)).
Proof.
  intros Hget Hk.
  exact (Dict_get_Forall_kv _ k handler cmds cmds_still Hget Hk arg w).
Qed.

(** ** The phantom *)

Lemma _update_phantom_stunned w :
  Player.turns (player (game w)) < Phantom.stun_timer (phantom (game w)) →
  _update_phantom w = (Ok tt, w).
Proof.
  intros Hstun. unfold _update_phantom, mbind, M_bind. cbn [get].
  by rewrite decide_True.
Qed.

Lemma choice_console l w :
  wp (choice l) (λ _ w', game w' = game w ∧ console w' = console w) w.
Proof. unfold choice. repeat wp_step fail; done. Qed.

Lemma shake_console w :
  wp shake (λ _ w', game w' = game w ∧ ∃ k, console w' = console w ++ k) w.
Proof.
  unfold shake, shake_once, randint. repeat wp_step fail.
  split; [done|]. simpl_state. rewrite <- !app_assoc. eauto.
Qed.

Ltac console_calls :=
  idtac;
  lazymatch goal with
  | |- wp (_room _) _ _ => wp_call _room_spec
  | |- wp (choice _) _ _ => wp_call choice_console
  | |- wp shake _ _ => wp_call shake_console
  end.

(** Closes a goal on the activity of the phantom and on a line of the
    console after a tick. *)
Ltac awake_tac :=
  repeat match goal with
  | H : _ ∧ _ |- _ => destruct H
  | H : ∃ _, _ |- _ => destruct H
  end;
  subst; simpl_state;
  repeat match goal with
  | H : game ?w = _ |- _ => is_var w; try rewrite !H in *; clear H; simpl_state
  | H : console ?w = _ |- _ => is_var w; try rewrite !H in *; clear H; simpl_state
  end;
  try split;
  first [ done
        | congruence
        | repeat first
            [ apply elem_of_app; right; apply list_elem_of_singleton; reflexivity
            | apply elem_of_app; left ] ].

Lemma _update_phantom_active w :
  Phantom.active (phantom (game w)) = true →
  wp _update_phantom (λ _ w', Phantom.active (phantom (game w')) = true) w.
Proof.
  intros Hactive. unfold _update_phantom.
  repeat wp_step console_calls; awake_tac.
Qed.

Lemma _update_phantom_wakes w :
  Phantom.active (phantom (game w)) = false →
  8 < Player.turns (player (game w)) →
  Player.tutorial_done (player (game w)) = true →
  Phantom.stun_timer (phantom (game w)) ≤ Player.turns (player (game w)) →
  wp _update_phantom (λ _ w',
    Phantom.active (phantom (game w')) = true
    ∧ "[bold magenta]Something has awakened in the house...[/]" ∈ console w') w.
Proof.
  intros Hactive Hturns Hdone Hstun.
  unfold _update_phantom. apply wp_bind, wp_get. wp_beta.
  rewrite decide_False by lia.
  rewrite Hactive, Hdone, bool_decide_eq_true_2 by done. cbn [negb andb].
  repeat wp_step console_calls; awake_tac.
Qed.

(** X10.  The phantom sleeps until the first tick after turn 8 with the
    tutorial done.  A tick with the phantom inactive and the turn counter
    at 8 or less, or the tutorial not done, does nothing at all.  A tick
    with the phantom inactive, the turn counter above 8, the tutorial done
    and no stun running wakes it and says so.  And once active it stays
    active through every tick. *)
Theorem phantom_awakening (w : World) :
  (Phantom.active (phantom (game w)) = false →
   Player.turns (player (game w)) ≤ 8
   ∨ Player.tutorial_done (player (game w)) = false →
   _update_phantom w = (Ok tt, w))
  ∧ (Phantom.active (phantom (game w)) = false →
     8 < Player.turns (player (game w)) →
     Player.tutorial_done (player (game w)) = true →
     Phantom.stun_timer (phantom (game w)) ≤ Player.turns (player (game w)) →
     Phantom.active (phantom (game (_update_phantom w).2)) = true
     ∧ "[bold magenta]Something has awakened in the house...[/]"
       ∈ console (_update_phantom w).2)
  ∧ (Phantom.active (phantom (game w)) = true →
     Phantom.active (phantom (game (_update_phantom w).2)) = true).
Proof.
  split; [|split].
  - intros Hactive Hearly.
    unfold _update_phantom, mbind, M_bind. cbn [get].
    case_decide; [done|].
    replace (bool_decide (8 < Player.turns (player (game w)))
             && negb (Phantom.active (phantom (game w)))
             && Player.tutorial_done (player (game w))) with false.
    + cbn [mret M_ret]. by rewrite Hactive.
    + destruct Hearly as [Hturns| ->].
      * by rewrite bool_decide_eq_false_2 by lia.
      * by rewrite andb_false_r.
  - intros Hactive Hturns Hdone Hstun.
    by apply (_update_phantom_wakes w).
  - intros Hactive. apply (_update_phantom_active w Hactive).
Qed.

(** Where the phantom may be after a tick or a flash: where it was, or
    behind an exit of the room that [_room] finds for it. *)
Definition walked (w w' : World) : Prop :=
  Phantom.room_id (phantom (game w')) = Phantom.room_id (phantom (game w))
  ∨ ∃ r,
      rooms (game w) !! room_key (Some (Phantom.room_id (phantom (game w)))) (game w)
      = Some r
      ∧ Phantom.room_id (phantom (game w')) ∈ Dict.values (Room.exits r).

Lemma choice_elem l w :
  wp (choice l) (λ o w',
    game w' = game w ∧ match o with Ok x => x ∈ l | _ => True end) w.
Proof.
  unfold choice. repeat wp_step fail; try done.
  split; [done|]. by eapply list_elem_of_lookup_2.
Qed.

Ltac walk_calls :=
  idtac;
  lazymatch goal with
  | |- wp (_room _) _ _ => wp_call _room_spec
  | |- wp (choice _) _ _ => wp_call choice_elem
  | |- wp shake _ _ => wp_call shake_game
  end.

Ltac walked_tac :=
  repeat match goal with
  | H : _ ∧ _ |- _ => destruct H
  end;
  subst; unfold walked, room_key in *; simpl_state;
  repeat match goal with
  | H : game ?w = _ |- _ => is_var w; try rewrite !H in *; clear H; simpl_state
  end;
  first [ by left | right; eexists; split; [eassumption|]; congruence ].

Lemma _update_phantom_walked w : wp _update_phantom (λ _ w', walked w w') w.
Proof. unfold _update_phantom. repeat wp_step walk_calls; walked_tac. Qed.

Lemma flash_walked arg w : wp (flash arg) (λ _ w', walked w w') w.
Proof. unfold flash, _record_action. repeat wp_step walk_calls; walked_tac. Qed.

(** X11.  The phantom walks through exits.  After a tick, and after a
    flash, the phantom is in the room it was in or in a room that an exit
    of that room leads to; it never jumps. *)
Theorem phantom_walks_the_exits (arg : string) (w : World) :
  walked w (_update_phantom w).2 ∧ walked w (flash arg w).2.
Proof. split; [apply _update_phantom_walked | apply flash_walked]. Qed.

(** ** The flashlight *)

Lemma flash_hit arg w :
  _has "flashlight" (game w) = true →
  scaled BAT_COST_FLASH (game w) ≤ Player.battery (player (game w)) →
  Phantom.room_id (phantom (game w)) = Player.room_id (player (game w)) →
  wp (flash arg) (λ _ w',
    player (game w')
    = Player.set_battery
        (Player.battery (player (game w)) - scaled BAT_COST_FLASH (game w))
        (player (game w))
    ∧ Phantom.stun_timer (phantom (game w')) = Player.turns (player (game w)) + 3
    ∧ Phantom.active (phantom (game w')) = Phantom.active (phantom (game w))) w.
Proof.
  intros Hhas Hbat Hroom. unfold flash, _record_action.
  apply wp_bind, wp_modify. wp_beta. apply wp_bind, wp_get. wp_beta.
  simpl_state.
  change (_has "flashlight" (set_history _ (game w)))
    with (_has "flashlight" (game w)).
  change (scaled BAT_COST_FLASH (set_history _ (game w)))
    with (scaled BAT_COST_FLASH (game w)).
  rewrite Hhas. cbn [negb]. rewrite decide_False by lia.
  rewrite decide_True by done.
  repeat wp_step walk_calls;
    repeat match goal with
    | H : _ ∧ _ |- _ => destruct H
    end;
    subst; simpl_state;
    repeat match goal with
    | H : game ?w = _ |- _ => is_var w; try rewrite !H in *; clear H; simpl_state
    end;
    done.
Qed.

(** X12.  What [flash] does.  Without the flashlight, or with less battery
    than the flash costs (20, scaled by the difficulty), nothing changes
    but the console and the undo history.  With both, the cost is taken
    off the battery; if the phantom is elsewhere nothing else happens; if
    it is in the player's room it is stunned until three turns later, so
    that every tick at which the turn counter is below that does nothing
    at all. *)
Theorem flash_effect (arg : string) (w : World) :
  (_has "flashlight" (game w) = false
   ∨ Player.battery (player (game w)) < scaled BAT_COST_FLASH (game w) →
   (flash arg w).1 = Ok tt
   ∧ mutable (game (flash arg w).2) = mutable (game w)
   ∧ rand (flash arg w).2 = rand w)
  ∧ (_has "flashlight" (game w) = true →
     scaled BAT_COST_FLASH (game w) ≤ Player.battery (player (game w)) →
     Phantom.room_id (phantom (game w)) ≠ Player.room_id (player (game w)) →
     (flash arg w).1 = Ok tt
     ∧ player (game (flash arg w).2)
       = Player.set_battery
           (Player.battery (player (game w)) - scaled BAT_COST_FLASH (game w))
           (player (game w))
     ∧ phantom (game (flash arg w).2) = phantom (game w)
     ∧ rooms (game (flash arg w).2) = rooms (game w)
     ∧ rand (flash arg w).2 = rand w)
  ∧ (_has "flashlight" (game w) = true →
     scaled BAT_COST_FLASH (game w) ≤ Player.battery (player (game w)) →
     Phantom.room_id (phantom (game w)) = Player.room_id (player (game w)) →
     player (game (flash arg w).2)
     = Player.set_battery
         (Player.battery (player (game w)) - scaled BAT_COST_FLASH (game w))
         (player (game w))
     ∧ Phantom.stun_timer (phantom (game (flash arg w).2))
       = Player.turns (player (game w)) + 3
     ∧ ∀ w2 : World,
         phantom (game w2) = phantom (game (flash arg w).2) →
         Player.turns (player (game w2)) < Player.turns (player (game w)) + 3 →
         _update_phantom w2 = (Ok tt, w2)).
Proof.
  split; [|split].
  - intros Hno. unfold flash, _record_action, mbind, M_bind.
    cbn [modify get]. simpl_state.
    change (_has "flashlight" (set_history _ (game w)))
      with (_has "flashlight" (game w)).
    change (scaled BAT_COST_FLASH (set_history _ (game w)))
      with (scaled BAT_COST_FLASH (game w)).
    destruct (_has "flashlight" (game w)); cbn [negb]; [|done].
    destruct Hno as [?|Hlow]; [done|]. by rewrite decide_True.
  - intros Hhas Hbat Hroom. unfold flash, _record_action, mbind, M_bind.
    cbn [modify get]. simpl_state.
    change (_has "flashlight" (set_history _ (game w)))
      with (_has "flashlight" (game w)).
    change (scaled BAT_COST_FLASH (set_history _ (game w)))
      with (scaled BAT_COST_FLASH (game w)).
    rewrite Hhas. cbn [negb]. rewrite decide_False by lia.
    cbn [modify_player modify print]. simpl_state.
    by rewrite decide_False.
  - intros Hhas Hbat Hroom.
    pose proof (flash_hit arg w Hhas Hbat Hroom) as Hhit. unfold wp in Hhit.
    destruct Hhit as (Hp & Hstun & _). split; [done|]. split; [done|].
    intros w2 Hph Hturns. apply _update_phantom_stunned.
    rewrite Hph, Hstun. done.
Qed.

(** ** Dark rooms *)

(** What the status update and the tick leave of the battery and of the
    pockets. *)
Definition dims (w w' : World) : Prop :=
  Player.inventory (player (game w')) = Player.inventory (player (game w))
  ∧ Player.battery (player (game w'))
    ≤ Z.max 0 (Player.battery (player (game w))).

Ltac dims_tac :=
  repeat match goal with
  | H : _ ∧ _ |- _ => destruct H
  end;
  subst; unfold dims; simpl_state;
  repeat match goal with
  | H : game ?w = _ |- _ => is_var w; try rewrite !H in *; clear H; simpl_state
  end;
  pose_scaled; split; [done|lia].

Lemma _update_status_dims w : wp _update_status (λ _ w', dims w w') w.
Proof. unfold _update_status. repeat wp_step game_calls; dims_tac. Qed.

Lemma _update_phantom_dims w : wp _update_phantom (λ _ w', dims w w') w.
Proof. unfold _update_phantom. repeat wp_step game_calls; dims_tac. Qed.

Lemma move_into_the_dark direction w curr d dest :
  rooms (game w) !! Player.room_id (player (game w)) = Some curr →
  Dict.get direction (Room.exits curr) = Some d →
  rooms (game w) !! room_key (Some d) (game w) = Some dest →
  Room.locked dest = false ∨ holds_key (Room.key_id dest) (game w) = true →
  Room.dark dest = true →
  _has "flashlight" (game w) = false ∨ Player.battery (player (game w)) ≤ 0 →
  wp (move direction) (λ o w',
    o = Ok tt → Player.alive (player (game w')) = false) w.
Proof.
  intros Hcurr Hexit Hdest Hopen Hdark Hlight.
  unfold move, _record_action.
  apply wp_bind, wp_modify. wp_beta.
  apply wp_bind. wp_call _room_spec. destruct H as [-> Hlook].
  destruct o as [r1|e|]; [|done..].
  cbn [room_key] in Hlook. simpl_state. rewrite Hcurr in Hlook.
  injection Hlook as <-.
  wp_beta. rewrite Hexit.
  apply wp_bind, wp_get. wp_beta.
  apply wp_bind. wp_call _room_spec. destruct H as [-> Hlook].
  destruct o as [r2|e|]; [|done..].
  cbn [room_key] in Hlook, Hdest. simpl_state. rewrite Hdest in Hlook.
  injection Hlook as <-. wp_beta.
  assert (∀ w2 : World,
    Player.inventory (player (game w2)) = Player.inventory (player (game w)) →
    Player.battery (player (game w2)) = Player.battery (player (game w)) →
    wp (modify_player (λ p,
            Player.set_turns (Player.turns p + 1)
              (Player.set_visited ({[Room.id dest]} ∪ Player.visited p)
                 (Player.set_room_id (Room.id dest) p)));;
        _update_status;;
        _update_phantom;;
        g ← get;
        if Room.dark dest then
          if negb (_has "flashlight" g) then
            print "[bold red]Darkness consumes you.[/]";;
            modify_player (Player.set_alive false)
          else if decide (Player.battery (player g) ≤ 0) then
            print "[bold red]Flashlight dead. You die.[/]";;
            modify_player (Player.set_alive false)
          else mret tt
        else mret tt)
      (λ o w', o = Ok tt → Player.alive (player (game w')) = false) w2) as Hin.
  { intros w2 Hinv Hbat. rewrite Hdark.
    apply wp_bind, wp_modify_player. wp_beta.
    apply wp_bind. wp_call _update_status_dims. destruct o; [|done..].
    apply wp_bind. wp_call _update_phantom_dims. destruct o; [|done..].
    apply wp_bind, wp_get. wp_beta.
    destruct H as [Hi1 Hb1], H0 as [Hi2 Hb2]. simpl_state.
    assert (_has "flashlight" (game w'0) = _has "flashlight" (game w)) as Hhas.
    { unfold _has. by rewrite Hi2, Hi1, Hinv. }
    rewrite Hhas. destruct Hlight as [->|Hlow]; cbn [negb].
    - apply wp_bind, wp_print. wp_beta. by apply wp_modify_player.
    - destruct (_has "flashlight" (game w)); cbn [negb].
      + rewrite decide_True by lia.
        apply wp_bind, wp_print. wp_beta. by apply wp_modify_player.
      + apply wp_bind, wp_print. wp_beta. by apply wp_modify_player. }
  change (holds_key (Room.key_id dest) _)
    with (holds_key (Room.key_id dest) (game w)).
  destruct (Room.locked dest).
  - destruct Hopen as [?|Hk]; [done|]. rewrite Hk.
    apply wp_bind, wp_bind, wp_print. wp_beta.
    apply wp_bind, wp_modify_room. wp_beta. apply wp_bind.
    destruct (decide (Room.id dest = "foyer")).
    + apply wp_modify_player. wp_beta. apply wp_ret. wp_beta. by apply Hin.
    + apply wp_ret. wp_beta. apply wp_ret. wp_beta. by apply Hin.
  - apply wp_bind, wp_ret. wp_beta. by apply Hin.
Qed.

(** X13.  Darkness kills.  A move that enters a dark room (through an
    exit of the current room, the room behind it unlocked or its key
    carried) and returns leaves the player dead when he carries no
    flashlight, and also when the battery was at zero or below. *)
Theorem darkness_kills (direction : string) (w : World) (curr dest : Room.t)
    (d : string) :
  rooms (game w) !! Player.room_id (player (game w)) = Some curr →
  Dict.get direction (Room.exits curr) = Some d →
  rooms (game w) !! room_key (Some d) (game w) = Some dest →
  Room.locked dest = false ∨ holds_key (Room.key_id dest) (game w) = true →
  Room.dark dest = true →
  _has "flashlight" (game w) = false ∨ Player.battery (player (game w)) ≤ 0 →
  (move direction w).1 = Ok tt →
  Player.alive (player (game (move direction w).2)) = false.
Proof.
  intros Hcurr Hexit Hdest Hopen Hdark Hlight.
  by apply (move_into_the_dark direction w curr d dest).
Qed.

(** ** The difficulty prompt *)

(** The answers that the prompt takes *)
Definition answers : list (string * string) :=
  [("1", "story"); ("2", "normal"); ("3", "hard")].

(** X14.  The difficulty prompt skips every line that is not 1, 2 or 3
    once stripped, and takes the first that is: it returns the difficulty
    of that line and leaves the lines after it.  With no such line it
    reads the whole input and ends with [EOFError]. *)
Theorem select_difficulty_spec (lines : list string) :
  match select_difficulty lines with
  | (Ok d, rest) =>
      ∃ skipped l,
        lines = (skipped ++ l :: rest)%list
        ∧ Forall (λ x, Dict.get (Str.strip x) answers = None) skipped
        ∧ Dict.get (Str.strip l) answers = Some d
  | (Raise e, rest) =>
      e = EOFError ∧ rest = []
      ∧ Forall (λ x, Dict.get (Str.strip x) answers = None) lines
  | (Stuck, _) => False
  end.
Proof.
  induction lines as [|l lines IH]; [done|].
  cbn [select_difficulty]. unfold answers in *.
  destruct (decide (Str.strip l = "1")) as [H1|H1].
  { exists [], l. split; [done|]. split; [done|]. cbn [Dict.get].
    by rewrite decide_True. }
  destruct (decide (Str.strip l = "2")) as [H2|H2].
  { exists [], l. split; [done|]. split; [done|]. cbn [Dict.get].
    rewrite decide_False by done. by rewrite decide_True. }
  destruct (decide (Str.strip l = "3")) as [H3|H3].
  { exists [], l. split; [done|]. split; [done|]. cbn [Dict.get].
    rewrite !decide_False by done. by rewrite decide_True. }
  assert (Dict.get (Str.strip l) [("1", "story"); ("2", "normal"); ("3", "hard")]
          = None) as Hl.
  { cbn [Dict.get]. by rewrite !decide_False. }
  destruct (select_difficulty lines) as [[d|e|] rest]; [| |done].
  - destruct IH as (skipped & l' & -> & Hsk & Hd).
    exists (l :: skipped), l'. split; [done|]. split; [|done].
    by apply List.Forall_cons.
  - destruct IH as (-> & -> & Hall). split; [done|]. split; [done|].
    by apply List.Forall_cons.
Qed.

(** ** The safe *)

(** What [_randbelow(n)] promises: a number below [n]. *)
Definition in_range : Prop :=
  ∀ n r, (0 < n)%nat → ((rng_randbelow G n r).1 < n)%nat.

Lemma three_digits (k : nat) :
  (k < 900)%nat → String.length (Str.of_Z (100 + Z.of_nat k)) = 3%nat.
Proof.
  intros Hk.
  assert (forallb (λ k, Nat.eqb (String.length (Str.of_Z (100 + Z.of_nat k))) 3)
            (seq 0 900) = true) as Hall by (vm_compute; reflexivity).
  rewrite forallb_forall in Hall. apply Nat.eqb_eq, Hall, in_seq. lia.
Qed.

(** X15.  The code of the safe is on the note.  In every new session the
    kitchen holds the note, and the text that reading it shows is "Code: "
    followed by the code of the safe; and with a generator that keeps to
    its range the code is the decimal numeral of a number from 100 to 999,
    three characters long. *)
Theorem the_code_is_on_the_note (seed : option string) (r0 : rng G) :
  (∃ kitchen note,
     rooms (Game_init seed r0).1 !! "kitchen" = Some kitchen
     ∧ next_match (λ i, bool_decide (Item.id i = "note")) (Room.items kitchen)
       = Some note
     ∧ shown_hidden_text note
       = Some ("Code: " +:+ safe_code (Game_init seed r0).1))
  ∧ (in_range →
     String.length (safe_code (Game_init seed r0).1) = 3%nat
     ∧ ∃ n, 100 ≤ n ≤ 999 ∧ safe_code (Game_init seed r0).1 = Str.of_Z n).
Proof.
  unfold Game_init. cbn [fst]. simpl_state. split.
  - eexists _, _. split; [|split].
    + unfold _init_world. by vm_compute.
    + reflexivity.
    + reflexivity.
  - intros Hrange.
    set (r := rng_seed G _).
    pose proof (Hrange (Z.to_nat 900) r ltac:(lia)) as Hlt.
    split; [apply three_digits; lia|].
    eexists. split; [|reflexivity]. lia.
Qed.

(** X16.  Opening the safe.  In the library, on an argument that mentions
    the safe, [unlock] reads one line.  If the line is the code of the
    safe, a silver key is added to the items of the library and nothing
    else changes; otherwise the only change is a loss of sanity of 3,
    scaled by the difficulty.  Anywhere else, or on another argument, no
    line is read and nothing changes but the console and the undo
    history. *)
Theorem unlock_the_safe (target : string) (w : World) :
  (Str.contains "safe" target = true →
   Player.room_id (player (game w)) = "library" →
   ∀ library code rest,
     rooms (game w) !! "library" = Some library →
     stdin w = code :: rest →
     (unlock target w).1 = Ok tt
     ∧ stdin (unlock target w).2 = rest
     ∧ (code = safe_code (game w) →
        rooms (game (unlock target w).2)
        = <["library" :=
              Room.set_items
                (Room.items library
                 ++ [Item.mk "silver_key" "Silver Key" "Small key." true false
                       None 0])
                library]> (rooms (game w))
        ∧ player (game (unlock target w).2) = player (game w))
     ∧ (code ≠ safe_code (game w) →
        rooms (game (unlock target w).2) = rooms (game w)
        ∧ player (game (unlock target w).2)
          = Player.set_sanity
              (Player.sanity (player (game w))
               - scaled DRAIN_WRONG_CODE (game w))
              (player (game w))))
  ∧ (Str.contains "safe" target = false
     ∨ Player.room_id (player (game w)) ≠ "library" →
     (unlock target w).1 = Ok tt
     ∧ stdin (unlock target w).2 = stdin w
     ∧ mutable (game (unlock target w).2) = mutable (game w)).
Proof.
  split.
  - intros Hsafe Hroom library code rest Hlib Hin.
    unfold unlock, _record_action, mbind, M_bind.
    cbn [modify get]. simpl_state. rewrite Hsafe, Hroom.
    rewrite bool_decide_eq_true_2 by done. cbn [andb].
    unfold input. simpl_state. rewrite Hin.
    destruct (decide (code = safe_code (game w))) as [Hcode|Hcode].
    + unfold print, _room, mbind, M_bind. cbn [get room_key]. simpl_state.
      rewrite Hroom, Hlib. cbn [mret M_ret]. unfold modify_room, modify.
      simpl_state.
      split; [done|]. split; [done|]. split; [|done]. intros _. split; [|done].
      apply map_eq. intros k. destruct (decide (k = "library")) as [->|Hk].
      * by rewrite lookup_alter_eq, lookup_insert_eq, Hlib.
      * by rewrite lookup_alter_ne, lookup_insert_ne.
    + unfold print, modify_player, modify. simpl_state.
      split; [done|]. split; [done|]. split; done.
  - intros Helse.
    unfold unlock, _record_action, mbind, M_bind.
    cbn [modify get]. simpl_state.
    replace (Str.contains "safe" target
             && bool_decide (Player.room_id (player (game w)) = "library"))
      with false; [done|].
    destruct Helse as [->|Hroom]; [done|].
    rewrite bool_decide_eq_false_2 by done. by rewrite andb_false_r.
Qed.

(** ** The piano *)

Lemma Dict_get_set_eq {V} k (v : V) d : Dict.get k (Dict.set k v d) = Some v.
Proof.
  induction d as [|[k' v'] d IH]; cbn [Dict.set Dict.get].
  - by rewrite decide_True.
  - case_decide; cbn [Dict.get]; [by rewrite decide_True|].
    by rewrite decide_False.
Qed.

Lemma Dict_get_set_ne {V} k k' (v : V) d :
  k' ≠ k → Dict.get k' (Dict.set k v d) = Dict.get k' d.
Proof.
  intros Hne. induction d as [|[k2 v2] d IH]; cbn [Dict.set Dict.get].
  - by rewrite decide_False.
  - case_decide; cbn [Dict.get]; subst.
    + by rewrite !decide_False.
    + case_decide; done.
Qed.

(** X17.  The piano opens the study.  In the library, on an argument that
    mentions the piano and with the puzzle unsolved, [play_piano] reads
    one line; if it is DAD or D-A-D (in any case, with spaces around) the
    puzzle is solved and the library gets an exit east to the study, its
    other exits staying as they are.  Once the puzzle is solved,
    [play_piano] reads no line and changes nothing but the console and the
    undo history. *)
Theorem piano_opens_the_study (target : string) (w : World) :
  Str.contains "piano" target = true →
  Player.room_id (player (game w)) = "library" →
  (∀ library notes rest,
     piano_solved (game w) = false →
     rooms (game w) !! "library" = Some library →
     stdin w = notes :: rest →
     Str.upper (Str.strip notes) ∈ ["DAD"; "D-A-D"] →
     (play_piano target w).1 = Ok tt
     ∧ stdin (play_piano target w).2 = rest
     ∧ piano_solved (game (play_piano target w).2) = true
     ∧ player (game (play_piano target w).2) = player (game w)
     ∧ ∃ library',
         rooms (game (play_piano target w).2)
         = <["library" := library']> (rooms (game w))
         ∧ Room.items library' = Room.items library
         ∧ Dict.get "east" (Room.exits library') = Some "study"
         ∧ ∀ k, k ≠ "east" →
             Dict.get k (Room.exits library') = Dict.get k (Room.exits library))
  ∧ (piano_solved (game w) = true →
     (play_piano target w).1 = Ok tt
     ∧ stdin (play_piano target w).2 = stdin w
     ∧ mutable (game (play_piano target w).2) = mutable (game w)).
Proof.
  intros Hpiano Hroom. split.
  - intros library notes rest Hunsolved Hlib Hin Hnotes.
    unfold play_piano, _record_action, mbind, M_bind.
    cbn [modify get]. simpl_state. rewrite Hpiano, Hroom.
    rewrite bool_decide_eq_true_2 by done. cbn [andb]. rewrite Hunsolved.
    unfold input. simpl_state. rewrite Hin.
    rewrite bool_decide_eq_true_2 by done.
    unfold print. simpl_state. rewrite Hlib.
    unfold modify_room, modify. simpl_state.
    split; [done|]. split; [done|]. split; [done|]. split; [done|].
    exists (Room.set_exits (Dict.set "east" "study" (Room.exits library)) library).
    split; [|split; [by destruct library|split]].
    + apply map_eq. intros k. destruct (decide (k = "library")) as [->|Hk].
      * by rewrite lookup_alter_eq, lookup_insert_eq, Hlib.
      * by rewrite lookup_alter_ne, lookup_insert_ne.
    + destruct library. apply Dict_get_set_eq.
    + intros k Hk. destruct library. by apply Dict_get_set_ne.
  - intros Hsolved.
    unfold play_piano, _record_action, mbind, M_bind.
    cbn [modify get]. simpl_state. rewrite Hpiano, Hroom.
    rewrite bool_decide_eq_true_2 by done. cbn [andb]. by rewrite Hsolved.
Qed.

(** ** Sessions that start without a save file *)

(** The rooms that exits lead to: all of the map but the garden *)
Definition inside : list string :=
  ["gate"; "foyer"; "kitchen"; "library"; "bedroom"; "basement"; "attic";
   "study"].

(** The rooms of [_init_world] without their locks, items and exits *)
Definition skel0 : gmap string (string * string * string * bool * option string) :=
  Room.skeleton <$> _init_world "".

(** The phantom is awake only after turn 8 with the tutorial done. *)
Definition grace (ph : Phantom.t) (p : Player.t) : Prop :=
  Phantom.active ph = true →
  8 < Player.turns p ∧ Player.tutorial_done p = true.

(** A game on the map of [_init_world] with the player and the phantom
    inside, nobody escaped, every exit leading inside, nothing carried
    that cannot be taken, and the phantom asleep while it has to be. *)
Definition wf (g : Game) : Prop :=
  skel g = skel0
  ∧ Player.room_id (player g) ∈ inside
  ∧ Player.escaped (player g) = false
  ∧ Phantom.room_id (phantom g) ∈ inside
  ∧ map_Forall (λ _ r, Forall (λ t, t ∈ inside) (Dict.values (Room.exits r)))
      (rooms g)
  ∧ Forall (λ i, Item.takeable i = true) (Player.inventory (player g))
  ∧ grace (phantom g) (player g).

Definition snap_ok (j : json) : Prop := ∃ g, j = _snapshot g ∧ wf g.

(** The states of a session that started without a save file: the game,
    every snapshot of the history and the save file, if there is one by
    now, are as [wf] says. *)
Definition Sound (w : World) : Prop :=
  wf (game w)
  ∧ Forall snap_ok (history (game w))
  ∧ match save_json w with
    | NoFile => True
    | Unreadable => False
    | Saved j => snap_ok j
    end.

(** What the libraries promise: [_randbelow(n)] is below [n], and the
    best match of the scorer is one of the choices. *)
Definition contracts : Prop :=
  in_range ∧ ∀ q, (extractOne q (Dict.keys cmds)).1 ∈ Dict.keys cmds.

(** The ends that a sound session can come to: a regular one, the end of
    the input at a prompt, or a library that broke its promise. *)
Definition benign {A} (o : outcome A) (w : World) : Prop :=
  match o with
  | Ok _ => True
  | Raise e => (e = EOFError ∧ stdin w = []) ∨ ¬ contracts
  | Stuck => False
  end.

Lemma skel_init c : Room.skeleton <$> _init_world c = skel0.
Proof.
  unfold skel0, _init_world. rewrite <- !list_to_map_fmap. reflexivity.
Qed.

Lemma inside_cases k :
  k ∈ inside →
  k = "gate" ∨ k = "foyer" ∨ k = "kitchen" ∨ k = "library" ∨ k = "bedroom"
  ∨ k = "basement" ∨ k = "attic" ∨ k = "study".
Proof.
  unfold inside. intros Hk.
  repeat (apply elem_of_cons in Hk as [->|Hk]; [tauto|]).
  by apply elem_of_nil in Hk.
Qed.

Lemma inside_intro k :
  bool_decide (k ∈ inside) = true → k ∈ inside.
Proof. apply bool_decide_eq_true_1. Qed.

Lemma skel0_inside k :
  k ∈ inside → ∃ n d b o, skel0 !! k = Some (k, n, d, b, o).
Proof.
  intros Hk. apply inside_cases in Hk.
  repeat destruct Hk as [->|Hk]; [..|subst k];
    eexists _, _, _, _; vm_compute; reflexivity.
Qed.

Lemma wf_lookup g k :
  wf g → k ∈ inside →
  ∃ r, rooms g !! k = Some r
       ∧ Room.id r = k
       ∧ Forall (λ t, t ∈ inside) (Dict.values (Room.exits r)).
Proof.
  intros (Hs & _ & _ & _ & Hex & _) Hk.
  destruct (skel0_inside k Hk) as (n & d & b & o & H0).
  rewrite <- Hs in H0. unfold skel in H0. rewrite lookup_fmap in H0.
  destruct (rooms g !! k) as [r|] eqn:Hr; [|done].
  exists r. split; [done|]. split.
  - cbn in H0. unfold Room.skeleton in H0. by simplify_eq.
  - by eapply (map_Forall_lookup_1 _ _ _ _ Hex).
Qed.

Lemma wf_garden g : wf g → is_Some (rooms g !! "garden").
Proof.
  intros (Hs & _). apply (f_equal (.!! "garden")) in Hs.
  unfold skel in Hs. rewrite lookup_fmap in Hs.
  destruct (rooms g !! "garden"); [by eauto|]. by vm_compute in Hs.
Qed.

Lemma inside_nonempty k : k ∈ inside → k ≠ "".
Proof.
  intros Hk%inside_cases ->. repeat destruct Hk as [Hk|Hk]; discriminate.
Qed.

Lemma inside_not_garden k : k ∈ inside → k ≠ "garden".
Proof.
  intros Hk%inside_cases ->. repeat destruct Hk as [Hk|Hk]; discriminate.
Qed.

Lemma room_key_inside rid g :
  wf g → (∀ r, rid = Some r → r ∈ inside) → room_key rid g ∈ inside.
Proof.
  intros (_ & Hp & _) Hrid. destruct rid as [r|]; [|done].
  cbn [room_key]. case_decide; [done|]. by apply Hrid.
Qed.

Lemma wf_intro g :
  skel g = skel0 →
  Player.room_id (player g) ∈ inside →
  Player.escaped (player g) = false →
  Phantom.room_id (phantom g) ∈ inside →
  map_Forall (λ _ r, Forall (λ t, t ∈ inside) (Dict.values (Room.exits r)))
    (rooms g) →
  Forall (λ i, Item.takeable i = true) (Player.inventory (player g)) →
  grace (phantom g) (player g) →
  wf g.
Proof. intros. repeat (split; [assumption|]). assumption. Qed.

Lemma wf_set_player g p :
  wf g → Player.room_id p ∈ inside → Player.escaped p = false →
  Forall (λ i, Item.takeable i = true) (Player.inventory p) →
  grace (phantom g) p →
  wf (set_player p g).
Proof. intros (? & ? & ? & ? & ? & ? & ?) ? ? ? ?. by apply wf_intro. Qed.

Lemma wf_set_phantom g ph :
  wf g → Phantom.room_id ph ∈ inside → grace ph (player g) →
  wf (set_phantom ph g).
Proof. intros (? & ? & ? & ? & ? & ? & ?) ? ?. by apply wf_intro. Qed.

Lemma wf_set_history g h : wf g → wf (set_history h g).
Proof. intros (? & ? & ? & ? & ? & ? & ?). by apply wf_intro. Qed.

Lemma wf_set_piano_solved g b : wf g → wf (set_piano_solved b g).
Proof. intros (? & ? & ? & ? & ? & ? & ?). by apply wf_intro. Qed.

Lemma wf_alter g k f :
  wf g →
  (∀ r, Room.skeleton (f r) = Room.skeleton r) →
  (∀ r, Forall (λ t, t ∈ inside) (Dict.values (Room.exits r)) →
        Forall (λ t, t ∈ inside) (Dict.values (Room.exits (f r)))) →
  wf (set_rooms (alter f k (rooms g)) g).
Proof.
  intros (Hs & ? & ? & ? & Hex & ? & ?) Hskel Hexits.
  split; [|split; [done|split; [done|split; [done|split; [|by split]]]]].
  - unfold skel in *. simpl_state. by rewrite skeleton_alter.
  - simpl_state. intros k' r' Hr'.
    destruct (decide (k = k')) as [->|Hne].
    + rewrite lookup_alter_eq in Hr'.
      destruct (rooms g !! k') as [r|] eqn:Hr; [|done]. cbn in Hr'.
      simplify_eq. apply Hexits. by eapply (map_Forall_lookup_1 _ _ _ _ Hex).
    + rewrite lookup_alter_ne in Hr' by done.
      by eapply (map_Forall_lookup_1 _ _ _ _ Hex).
Qed.

Lemma wf_restored g0 h :
  wf g0 →
  wf (mkGame (seed g0) (safe_code g0) (piano_solved g0) h (rooms g0) (player g0)
        (phantom g0)).
Proof. intros (? & ? & ? & ? & ? & ? & ?). by apply wf_intro. Qed.

Lemma wf_init seed r0 : wf (Game_init seed r0).1.
Proof.
  unfold Game_init. cbn [fst].
  split; [apply skel_init|]. split; [by apply inside_intro|].
  split; [done|]. split; [by apply inside_intro|]. simpl_state.
  split; [|split; [apply List.Forall_nil|by intros ?]].
  intros k r Hk. apply elem_of_list_to_map_2 in Hk.
  repeat (apply elem_of_cons in Hk as [Hk|Hk];
          [injection Hk as -> ->; cbn [Room.exits Dict.values fmap list_fmap snd];
           repeat first [apply List.Forall_nil
                        |apply List.Forall_cons; [by apply inside_intro|]]|]).
  by apply elem_of_nil in Hk.
Qed.

Lemma Sound_wf w : Sound w → wf (game w).
Proof. by intros (? & _). Qed.

Lemma Sound_player w : Sound w → Player.room_id (player (game w)) ∈ inside.
Proof. by intros ((_ & ? & _) & _). Qed.

Lemma Sound_escaped w : Sound w → Player.escaped (player (game w)) = false.
Proof. by intros ((_ & _ & ? & _) & _). Qed.

Lemma Sound_phantom w : Sound w → Phantom.room_id (phantom (game w)) ∈ inside.
Proof. by intros ((_ & _ & _ & ? & _) & _). Qed.

Lemma Sound_inventory w :
  Sound w → Forall (λ i, Item.takeable i = true) (Player.inventory (player (game w))).
Proof. by intros ((_ & _ & _ & _ & _ & ? & _) & _). Qed.

Lemma Sound_grace w : Sound w → grace (phantom (game w)) (player (game w)).
Proof. by intros ((_ & _ & _ & _ & _ & _ & ?) & _). Qed.

Lemma Forall_list_remove_first {A} `{EqDecision A} (P : A → Prop) x (l : list A) :
  Forall P l → Forall P (list_remove_first x l).
Proof.
  induction 1 as [|y l Hy Hl IH]; cbn [list_remove_first]; [done|].
  case_decide; [done|]. by apply List.Forall_cons.
Qed.

Lemma Sound_ext w w' :
  game w' = game w → save_json w' = save_json w → Sound w → Sound w'.
Proof. unfold Sound. by intros -> ->. Qed.

Lemma Sound_set_console c w : Sound w → Sound (set_console c w).
Proof. by apply Sound_ext. Qed.

Lemma Sound_set_stdin c w : Sound w → Sound (set_stdin c w).
Proof. by apply Sound_ext. Qed.

Lemma Sound_set_rand c w : Sound w → Sound (set_rand c w).
Proof. by apply Sound_ext. Qed.

Lemma Sound_set_sound_enabled c w : Sound w → Sound (set_sound_enabled c w).
Proof. by apply Sound_ext. Qed.

Lemma Sound_save w : Sound w → Sound (set_save_json (Saved (_snapshot (game w))) w).
Proof.
  intros (Hwf & Hh & _). split; [done|]. split; [done|]. by exists (game w).
Qed.

Lemma Sound_set_game w g :
  Sound w → wf g → history g = history (game w) → Sound (set_game g w).
Proof.
  intros (_ & Hh & Hf) Hwf Hhist. split; [done|]. split; [|done].
  simpl_state. by rewrite Hhist.
Qed.

Lemma Sound_record w :
  Sound w →
  Sound (set_game
           (set_history (pushed (history (game w)) (_snapshot (game w))) (game w))
           w).
Proof.
  intros (Hwf & Hh & Hf). split; [by apply wf_set_history|]. split; [|done].
  simpl_state. apply Forall_pushed; [done|]. by exists (game w).
Qed.

Lemma Sound_restore j w :
  Sound w → snap_ok j →
  ∃ g0, wf g0
        ∧ _restore j w
          = (Ok tt,
             set_game (mkGame (seed g0) (safe_code g0) (piano_solved g0)
                         (history (game w)) (rooms g0) (player g0) (phantom g0))
               w).
Proof.
  intros ((Hs & _) & _) (g0 & -> & Hg0). exists g0. split; [done|].
  apply _restore_snapshot. destruct Hg0 as (Hs0 & _). congruence.
Qed.

Lemma Dict_get_values {V} k (v : V) d : Dict.get k d = Some v → v ∈ Dict.values d.
Proof.
  unfold Dict.values.
  induction d as [|[k' v'] d IH]; cbn [Dict.get fmap list_fmap snd]; [done|].
  case_decide.
  - intros [= ->]. apply list_elem_of_here.
  - intros Hd. apply list_elem_of_further. by apply IH.
Qed.

Lemma Dict_get_inside k v (d : list (string * string)) :
  Forall (λ t, t ∈ inside) (Dict.values d) → Dict.get k d = Some v → v ∈ inside.
Proof.
  intros Hall Hget. rewrite Forall_forall in Hall.
  by eapply Hall, Dict_get_values.
Qed.

Lemma Dict_set_inside k v (d : list (string * string)) :
  Forall (λ t, t ∈ inside) (Dict.values d) → v ∈ inside →
  Forall (λ t, t ∈ inside) (Dict.values (Dict.set k v d)).
Proof.
  unfold Dict.values. intros Hall Hv.
  induction d as [|[k' v'] d IH]; cbn [Dict.set fmap list_fmap snd] in *.
  - by apply List.Forall_cons.
  - apply Forall_cons in Hall as [Hv' Hall].
    case_decide; cbn [fmap list_fmap snd]; apply List.Forall_cons; auto.
Qed.

(** *** The procedures that the handlers call *)

Lemma _record_action_S w :
  Sound w → wp _record_action (λ o w', Sound w' ∧ o = Ok tt) w.
Proof.
  intros HS. apply wp_modify. split; [|done]. by apply Sound_record.
Qed.

Lemma _room_S rid w :
  Sound w → (∀ r, rid = Some r → r ∈ inside) →
  wp (_room rid) (λ o w',
    w' = w
    ∧ ∃ r, o = Ok r
           ∧ rooms (game w) !! room_key rid (game w) = Some r
           ∧ Room.id r ∈ inside
           ∧ Forall (λ t, t ∈ inside) (Dict.values (Room.exits r))) w.
Proof.
  intros HS Hrid.
  pose proof (room_key_inside rid (game w) (Sound_wf _ HS) Hrid) as Hk.
  destruct (wf_lookup _ _ (Sound_wf _ HS) Hk) as (r & Hr & Hid & Hex).
  unfold _room, wp, mbind, M_bind. cbn [get]. rewrite Hr. cbn.
  split; [done|]. exists r. by rewrite Hid.
Qed.

Lemma choice_S l w :
  Sound w → l ≠ [] →
  wp (choice l) (λ o w',
    Sound w' ∧ benign o w' ∧ ∀ x, o = Ok x → x ∈ l) w.
Proof.
  intros HS Hl. unfold choice. apply wp_bind, wp_randbelow. wp_beta.
  destruct (l !! _) as [x|] eqn:Hx.
  - apply wp_ret. split; [by apply Sound_set_rand|]. split; [exact I|].
    intros ? [= <-]. by eapply list_elem_of_lookup_2.
  - apply wp_raise. split; [by apply Sound_set_rand|]. split; [|done].
    right. intros [Hr _]. apply lookup_ge_None_1 in Hx.
    specialize (Hr (length l) (rand w)). destruct l; [done|].
    cbn [length] in *. lia.
Qed.

Lemma shake_S w : Sound w → wp shake (λ o w', Sound w' ∧ o = Ok tt) w.
Proof.
  intros HS. pose proof (shake_game w) as H1.
  pose proof (shake_game_save w) as H2. unfold wp in *.
  destruct H1 as [Ho _], H2 as (Hg & Hf & _).
  split; [|done]. by eapply Sound_ext.
Qed.

Lemma process_words_ok ws w :
  wp (process_words ws) (λ o w', quiet w w' ∧ ∃ out, o = Ok out) w.
Proof.
  revert w. induction ws as [|x ws IH]; intros w; cbn [process_words].
  - apply wp_ret. split; [done|]. eauto.
  - repeat wp_step ltac:(idtac;
      lazymatch goal with
      | |- wp (process_words _) _ _ => wp_call IH
      end);
      repeat match goal with
      | H : _ ∧ _ |- _ => destruct H
      | H : ∃ _, _ |- _ => destruct H
      end;
      simplify_eq; (split; [quiet_tac|eauto]).
Qed.

Lemma _process_text_S text w :
  Sound w →
  wp (_process_text text) (λ o w', Sound w' ∧ ∃ s, o = Ok s) w.
Proof.
  intros HS. unfold _process_text. apply wp_bind, wp_get. wp_beta.
  case_decide; [apply wp_ret; eauto|].
  apply wp_bind. eapply wp_wand; [apply process_words_ok|]. wp_beta.
  intros o w' [(Hg & _ & Hf & _) [out ->]].
  apply wp_ret. split; [by eapply Sound_ext|]. eauto.
Qed.

Lemma input_S w : Sound w → wp input (λ o w', Sound w' ∧ benign o w') w.
Proof.
  intros HS. apply wp_input. destruct (stdin w) as [|l r] eqn:Hin.
  - split; [done|]. by left.
  - split; [by apply Sound_set_stdin|]. exact I.
Qed.

(** *** Symbolic execution that keeps [Sound] *)

Ltac S_facts :=
  repeat match goal with
  | H : Sound ?w |- _ =>
      lazymatch goal with
      | _ : Player.room_id (player (game w)) ∈ inside |- _ => fail
      | _ => pose proof (Sound_player w H); pose proof (Sound_phantom w H);
             pose proof (Sound_escaped w H); pose proof (Sound_inventory w H);
             pose proof (Sound_grace w H)
      end
  end.

Ltac S_side :=
  simpl_state; S_facts;
  first
    [ assumption
    | done
    | congruence
    | match goal with
      | H : Dict.get _ ?d = Some ?v, HF : Forall _ (Dict.values ?d) |- ?v ∈ inside =>
          exact (Dict_get_inside _ _ _ HF H)
      | H : ∀ x, Ok ?a = Ok x → x ∈ ?l, HF : Forall _ ?l |- ?a ∈ inside =>
          exact (proj1 (Forall_forall _ _) HF _ (H _ eq_refl))
      | |- Forall _ (list_remove_first _ _) =>
          apply Forall_list_remove_first; assumption
      | H : negb (Item.takeable ?i) = false |- Forall _ (_ ++ [?i]) =>
          apply Forall_app; split; [assumption|];
          apply List.Forall_cons; [|apply List.Forall_nil];
          by apply negb_false_iff
      | Hg : grace ?ph ?p |- grace ?ph _ =>
          let Ha := fresh in
          intros Ha; destruct (Hg Ha); simpl_state;
          split; first [lia | assumption | reflexivity]
      | |- grace (Phantom.set_active true _) _ =>
          intros _;
          repeat match goal with
          | H : _ && _ = true |- _ => apply andb_prop in H as [? ?]
          end;
          split; [by apply (bool_decide_eq_true_1 _) | assumption]
      end ].

Ltac wf_tac :=
  lazymatch goal with
  | |- wf (set_player _ _) =>
      apply wf_set_player; [wf_tac | S_side | S_side | S_side | S_side]
  | |- wf (set_phantom _ _) => apply wf_set_phantom; [wf_tac | S_side | S_side]
  | |- wf (set_rooms (alter _ _ _) _) =>
      apply wf_alter;
      [ wf_tac
      | intros r; by destruct r
      | intros r Hr;
        first [ by destruct r
              | destruct r; cbn [Room.exits Room.set_exits] in *;
                apply Dict_set_inside; [assumption | by apply inside_intro] ] ]
  | |- wf (set_history _ _) => apply wf_set_history; wf_tac
  | |- wf (set_piano_solved _ _) => apply wf_set_piano_solved; wf_tac
  | |- wf (game _) => apply Sound_wf; assumption
  end.

Ltac sound_tac :=
  lazymatch goal with
  | |- Sound (set_console _ _) => apply Sound_set_console; sound_tac
  | |- Sound (set_stdin _ _) => apply Sound_set_stdin; sound_tac
  | |- Sound (set_rand _ _) => apply Sound_set_rand; sound_tac
  | |- Sound (set_sound_enabled _ _) => apply Sound_set_sound_enabled; sound_tac
  | |- Sound (set_save_json _ _) => apply Sound_save; sound_tac
  | |- Sound (set_game _ _) =>
      apply Sound_set_game; [sound_tac | wf_tac | reflexivity]
  | |- Sound _ => assumption
  end.

(** Names the state after a write, keeping that it is sound. *)
Ltac regen :=
  wp_beta;
  lazymatch goal with
  | |- wp _ _ ?w1 =>
      tryif is_var w1 then idtac
      else (let HS := fresh "HS" in
            let w' := fresh "w" in
            assert (Sound w1) as HS by sound_tac;
            revert HS; generalize w1; intros w' HS)
  | |- _ => idtac
  end.

Ltac S_open :=
  repeat match goal with
  | H : _ ∧ _ |- _ => destruct H
  | H : ∃ _, _ |- _ => destruct H
  end;
  subst; wp_beta.

Ltac S_call_side :=
  first
    [ assumption
    | intros ? ?; simplify_eq; S_side
    | match goal with
      | H : ?l = _ :: _ |- Dict.values ?l ≠ [] => by rewrite H
      | |- Dict.values (_ :: _) ≠ [] => discriminate
      end ].

Ltac S_call lem :=
  eapply wp_wand; [ apply lem; S_call_side | wp_beta; intros ? ? ?; S_open ].

Ltac key_absurd :=
  match goal with
  | H : rooms (game ?w) !! "garden" = None, HS : Sound ?w |- _ =>
      destruct (wf_garden _ (Sound_wf _ HS)) as [? ?]; congruence
  | H : rooms (game ?w) !! ?k = None, HS : Sound ?w |- _ =>
      destruct (wf_lookup (game w) k (Sound_wf _ HS)) as (? & ? & _);
      [by apply inside_intro | congruence]
  | H : benign Stuck _ |- _ => destruct H
  end.

Ltac S_done :=
  first [ exfalso; key_absurd
        | split; [sound_tac | first [exact I | assumption | reflexivity]] ].

Ltac S_step :=
  first
  [ progress wp_beta
  | progress intros
  | lazymatch goal with
    | |- wp (mbind _ _) _ _ => apply wp_bind
    | |- wp (mret _) _ _ => apply wp_ret
    | |- wp get _ _ => apply wp_get
    | |- wp _record_action _ _ => S_call _record_action_S
    | |- wp (_room _) _ _ => S_call _room_S
    | |- wp (choice _) _ _ => S_call choice_S
    | |- wp shake _ _ => S_call shake_S
    | |- wp (_process_text _) _ _ => S_call _process_text_S
    | |- wp input _ _ => S_call input_S
    | |- wp (modify_player _) _ _ => apply wp_modify_player; regen
    | |- wp (modify_phantom _) _ _ => apply wp_modify_phantom; regen
    | |- wp (modify_room _ _) _ _ => apply wp_modify_room; regen
    | |- wp (modify _) _ _ => apply wp_modify; regen
    | |- wp (print _) _ _ => apply wp_print; regen
    | |- wp (set_sound _) _ _ => apply wp_set_sound; regen
    | |- wp (write_save _) _ _ => apply wp_write_save; regen
    | |- wp random_random _ _ => apply wp_random_random; regen
    | |- wp (raise _) _ _ => apply wp_raise
    | |- wp (if ?c then _ else _) _ _ => destruct c eqn:?
    | |- wp (match ?x with _ => _ end) _ _ => destruct x eqn:?
    | |- wp (let x := ?v in _) _ _ => cbv zeta
    | |- match ?o with Ok _ => _ | Raise _ => _ | Stuck => _ end =>
        destruct o eqn:?
    end ].

Lemma _update_status_S w :
  Sound w → wp _update_status (λ o w', Sound w' ∧ o = Ok tt) w.
Proof. intros HS. unfold _update_status. repeat S_step; S_done. Qed.

Lemma _update_phantom_S w :
  Sound w → wp _update_phantom (λ o w', Sound w' ∧ benign o w') w.
Proof. intros HS. unfold _update_phantom. repeat S_step; S_done. Qed.

(** *** The handlers *)

Ltac H_step :=
  first
  [ lazymatch goal with
    | |- wp _update_status _ _ => S_call _update_status_S
    | |- wp _update_phantom _ _ => S_call _update_phantom_S
    end
  | S_step ].

Ltac handler_S := repeat H_step; S_done.

Lemma move_S direction w :
  Sound w → wp (move direction) (λ o w', Sound w' ∧ benign o w') w.
Proof. intros HS. unfold move. handler_S. Qed.

Lemma take_S target w :
  Sound w → wp (take target) (λ o w', Sound w' ∧ benign o w') w.
Proof. intros HS. unfold take. handler_S. Qed.

Lemma drop_S target w :
  Sound w → wp (drop target) (λ o w', Sound w' ∧ benign o w') w.
Proof. intros HS. unfold drop. handler_S. Qed.

Lemma use_S target w :
  Sound w → wp (use target) (λ o w', Sound w' ∧ benign o w') w.
Proof. intros HS. unfold use. handler_S. Qed.

Lemma unlock_S target w :
  Sound w → wp (unlock target) (λ o w', Sound w' ∧ benign o w') w.
Proof. intros HS. unfold unlock. handler_S. Qed.

Lemma play_piano_S target w :
  Sound w → wp (play_piano target) (λ o w', Sound w' ∧ benign o w') w.
Proof. intros HS. unfold play_piano. handler_S. Qed.

Lemma flash_S arg w :
  Sound w → wp (flash arg) (λ o w', Sound w' ∧ benign o w') w.
Proof. intros HS. unfold flash. handler_S. Qed.

Lemma hint_S arg w :
  Sound w → wp (hint arg) (λ o w', Sound w' ∧ benign o w') w.
Proof. intros HS. unfold hint. handler_S. Qed.

Lemma listen_S arg w :
  Sound w → wp (listen arg) (λ o w', Sound w' ∧ benign o w') w.
Proof. intros HS. unfold listen. handler_S. Qed.

Lemma look_S target w :
  Sound w → wp (look target) (λ o w', Sound w' ∧ benign o w') w.
Proof. intros HS. unfold look. handler_S. Qed.

Lemma show_inv_S arg w :
  Sound w → wp (show_inv arg) (λ o w', Sound w' ∧ benign o w') w.
Proof. intros HS. unfold show_inv. handler_S. Qed.

Lemma show_journal_S arg w :
  Sound w → wp (show_journal arg) (λ o w', Sound w' ∧ benign o w') w.
Proof. intros HS. unfold show_journal. handler_S. Qed.

Lemma show_map_S arg w :
  Sound w → wp (show_map arg) (λ o w', Sound w' ∧ benign o w') w.
Proof. intros HS. unfold show_map. handler_S. Qed.

Lemma show_help_S arg w :
  Sound w → wp (show_help arg) (λ o w', Sound w' ∧ benign o w') w.
Proof. intros HS. unfold show_help. handler_S. Qed.

Lemma mute_S arg w :
  Sound w → wp (mute arg) (λ o w', Sound w' ∧ benign o w') w.
Proof. intros HS. unfold mute. handler_S. Qed.

Lemma unmute_S arg w :
  Sound w → wp (unmute arg) (λ o w', Sound w' ∧ benign o w') w.
Proof. intros HS. unfold unmute. handler_S. Qed.

Lemma save_state_S arg w :
  Sound w → wp (save_state arg) (λ o w', Sound w' ∧ benign o w') w.
Proof. intros HS. unfold save_state. handler_S. Qed.

Lemma undo_S arg w :
  Sound w → wp (undo arg) (λ o w', Sound w' ∧ benign o w') w.
Proof.
  intros HS. unfold undo. apply wp_bind, wp_get. wp_beta.
  destruct (last (history (game w))) as [prev|] eqn:Hlast;
    [|apply wp_print; split; [by apply Sound_set_console|exact I]].
  pose proof HS as (Hwf & Hh & Hf).
  pose proof (last_Forall _ _ _ Hh Hlast) as Hprev.
  apply wp_bind, wp_modify. wp_beta.
  assert (Sound (set_game (set_history (removelast (history (game w))) (game w)) w))
    as HS1.
  { split; [by apply wf_set_history|]. split; [|done]. simpl_state.
    by apply Forall_removelast. }
  destruct (Sound_restore prev _ HS1 Hprev) as (g0 & Hg0 & Hrun).
  apply wp_bind. unfold wp at 1. rewrite Hrun. cbn [fst snd].
  apply wp_print. split; [|exact I]. apply Sound_set_console.
  destruct HS1 as (_ & Hh1 & Hf1). split; [by apply wf_restored|]. by split.
Qed.

Lemma load_state_S arg w :
  Sound w → wp (load_state arg) (λ o w', Sound w' ∧ benign o w') w.
Proof.
  intros HS. unfold load_state. apply wp_bind, wp_read_save. wp_beta.
  pose proof HS as (Hwf & Hh & Hf).
  destruct (save_json w) as [| |j] eqn:Hfile; [by apply wp_ret|done|].
  destruct (Sound_restore j _ HS Hf) as (g0 & Hg0 & Hrun).
  apply wp_bind. unfold wp at 1. rewrite Hrun. cbn [fst snd].
  apply wp_print. split; [|exact I]. apply Sound_set_console.
  split; [by apply wf_restored|]. split; [done|]. simpl_state. by rewrite Hfile.
Qed.

Lemma cmds_S :
  Forall (λ kv : string * (string → M unit),
            ∀ arg w, Sound w → wp (kv.2 arg) (λ o w', Sound w' ∧ benign o w') w)
    cmds.
Proof.
  unfold cmds.
  repeat first [apply List.Forall_nil | apply List.Forall_cons];
    cbn [snd]; intros arg w.
  1-3: apply move_S.
  1-3: apply look_S.
  1-3: apply take_S.
  - apply drop_S.
  - apply use_S.
  - apply show_inv_S.
  - apply show_inv_S.
  - apply show_inv_S.
  - apply show_map_S.
  - apply show_journal_S.
  - apply show_journal_S.
  - apply save_state_S.
  - apply load_state_S.
  - apply show_help_S.
  - apply unlock_S.
  - apply play_piano_S.
  - apply undo_S.
  - apply hint_S.
  - apply listen_S.
  - apply flash_S.
  - apply mute_S.
  - apply unmute_S.
Qed.

(** *** A stripped line that is not empty has a first word *)

Lemma words_go_Some c s : String.words_go (Some c) s ≠ [].
Proof.
  revert c. induction s as [|a s IH]; intros c; cbn [String.words_go]; [done|].
  destruct (Ascii.is_space a); [done|apply IH].
Qed.

Lemma words_nonempty a s :
  Ascii.is_space a = false → String.words (String a s) ≠ [].
Proof.
  intros Ha. unfold String.words. cbn [String.words_go]. rewrite Ha.
  apply words_go_Some.
Qed.

(** Empty, or starting with a character that [p] rejects *)
Definition starts_clean (p : ascii → bool) (s : string) : Prop :=
  match s with
  | EmptyString => True
  | String a _ => p a = false
  end.

Lemma lstrip_by_clean p s : starts_clean p (Str.lstrip_by p s).
Proof.
  induction s as [|a s IH]; cbn [Str.lstrip_by]; [done|].
  destruct (p a) eqn:Ha; [done|]. exact Ha.
Qed.

Lemma lstrip_by_suffix p s : ∃ pre, s = pre +:+ Str.lstrip_by p s.
Proof.
  induction s as [|a s [pre IH]]; cbn [Str.lstrip_by]; [by exists ""|].
  destruct (p a).
  - exists (String a pre).
    change (String a s = String a (pre +:+ Str.lstrip_by p s)). by f_equal.
  - by exists "".
Qed.

Lemma append_String a s t : String a s +:+ t = String a (s +:+ t).
Proof. reflexivity. Qed.

Lemma string_app_nil_r s : s +:+ "" = s.
Proof. induction s as [|a s IH]; [done|]. by rewrite append_String, IH. Qed.

Lemma string_app_assoc s1 s2 s3 : (s1 +:+ s2) +:+ s3 = s1 +:+ (s2 +:+ s3).
Proof.
  induction s1 as [|a s1 IH]; [done|]. by rewrite !append_String, IH.
Qed.

Lemma rev_app_spec s1 s2 : String.rev_app s1 s2 = String.rev s1 +:+ s2.
Proof.
  unfold String.rev. revert s2.
  induction s1 as [|a s1 IH]; intros s2; cbn [String.rev_app]; [done|].
  rewrite (IH (String a s2)), (IH (String a "")), string_app_assoc. done.
Qed.

Lemma rev_String a s : String.rev (String a s) = String.rev s +:+ String a "".
Proof. unfold String.rev at 1. cbn [String.rev_app]. apply rev_app_spec. Qed.

Lemma rev_append s1 s2 :
  String.rev (s1 +:+ s2) = String.rev s2 +:+ String.rev s1.
Proof.
  induction s1 as [|a s1 IH].
  - change ("" +:+ s2) with s2. by rewrite string_app_nil_r.
  - by rewrite append_String, !rev_String, IH, string_app_assoc.
Qed.

Lemma rev_involutive s : String.rev (String.rev s) = s.
Proof.
  induction s as [|a s IH]; [done|].
  by rewrite rev_String, rev_append, IH.
Qed.

Lemma starts_clean_prefix p s1 s2 :
  starts_clean p (s1 +:+ s2) → starts_clean p s1.
Proof. by destruct s1. Qed.

Lemma strip_by_clean p s : starts_clean p (Str.strip_by p s).
Proof.
  unfold Str.strip_by.
  pose proof (lstrip_by_clean p s) as Hu.
  destruct (lstrip_by_suffix p (String.rev (Str.lstrip_by p s))) as [pre Hpre].
  apply (f_equal String.rev) in Hpre.
  rewrite rev_involutive, rev_append in Hpre. rewrite Hpre in Hu.
  by eapply starts_clean_prefix.
Qed.

Lemma lower_char_space a :
  Ascii.is_space a = false → Ascii.is_space (Str.lower_char a) = false.
Proof. by destruct a as [[] [] [] [] [] [] [] []]. Qed.

Lemma split_lower_strip l :
  Str.lower (Str.strip l) ≠ "" → Str.split (Str.lower (Str.strip l)) ≠ [].
Proof.
  unfold Str.strip. pose proof (strip_by_clean Ascii.is_space l) as Hc.
  destruct (Str.strip_by Ascii.is_space l) as [|a s]; [done|]. intros _.
  cbn [Str.lower Str.map_chars]. apply words_nonempty.
  by apply lower_char_space.
Qed.

(** *** The loop and the session *)

Lemma call_cmd_S k arg w :
  Sound w → (Dict.get k cmds = None → ¬ contracts) →
  wp (call_cmd k arg) (λ o w', Sound w' ∧ benign o w') w.
Proof.
  intros HS Hk. unfold call_cmd.
  destruct (Dict.get k cmds) as [handler|] eqn:Hget.
  - exact (Dict_get_Forall
             (λ h : string → M unit,
                ∀ arg w, Sound w → wp (h arg) (λ o w', Sound w' ∧ benign o w') w)
             k handler cmds cmds_S Hget arg w HS).
  - apply wp_raise. split; [done|]. right. by apply Hk.
Qed.

Lemma dispatch_S inp w :
  Sound w → Str.split inp ≠ [] →
  wp (dispatch inp) (λ o w', Sound w' ∧ benign o w') w.
Proof.
  intros HS Hsplit. unfold dispatch.
  destruct (Str.split inp) as [|cmd args]; [done|].
  destruct (Dict.mem cmd cmds) eqn:Hmem.
  { apply call_cmd_S; [done|]. intros Hnone.
    apply bool_decide_eq_true_1 in Hmem. rewrite Hnone in Hmem.
    by destruct Hmem. }
  destruct (extractOne cmd (Dict.keys cmds)) as [best score] eqn:Hbest.
  case_decide; [|apply wp_print; split; [by apply Sound_set_console|exact I]].
  apply wp_bind, wp_print. wp_beta. apply call_cmd_S.
  - by apply Sound_set_console.
  - intros Hnone [_ Hscorer]. specialize (Hscorer cmd). rewrite Hbest in Hscorer.
    cbn [fst] in Hscorer. apply Dict_get_is_Some in Hscorer. rewrite Hnone in Hscorer.
    by destruct Hscorer.
Qed.

Lemma _render_ui_S w :
  Sound w → wp _render_ui (λ o w', Sound w' ∧ o = Ok tt) w.
Proof. intros HS. unfold _render_ui. repeat S_step; S_done. Qed.

Lemma render_room_S w :
  Sound w → wp render_room (λ o w', Sound w' ∧ o = Ok tt) w.
Proof. intros HS. unfold render_room. repeat S_step; S_done. Qed.

Lemma turn_S w : Sound w → wp turn (λ o w', Sound w' ∧ benign o w') w.
Proof.
  intros HS. unfold turn. apply wp_bind, wp_get. wp_beta.
  destruct (negb _); [by apply wp_ret|].
  case_decide as Hroom.
  { by destruct (inside_not_garden _ (Sound_player _ HS)). }
  apply wp_bind. eapply wp_wand; [by apply _render_ui_S|]. wp_beta.
  intros o w1 [HS1 ->].
  apply wp_bind. eapply wp_wand; [by apply render_room_S|]. wp_beta.
  intros o w2 [HS2 ->].
  apply wp_bind, wp_read_line.
  destruct (stdin w2) as [|l r] eqn:Hin; wp_beta; [by apply wp_ret|].
  case_decide as Hinp.
  { apply wp_ret. split; [by apply Sound_set_stdin|exact I]. }
  apply wp_bind. eapply wp_wand.
  { apply dispatch_S; [by apply Sound_set_stdin|by apply split_lower_strip]. }
  wp_beta. intros o w3 [HS3 Hb]. destruct o as [[]|e|]; [|done..].
  repeat S_step; S_done.
Qed.

Lemma loop_S fuel w tr o w' :
  Sound w → loop fuel w = Some (tr, (o, w')) → Sound w' ∧ benign o w'.
Proof.
  revert w tr. induction fuel as [|fuel IH]; intros w tr HS; [done|].
  cbn [loop]. pose proof (turn_S w HS) as Hturn. unfold wp in Hturn.
  destruct (turn w) as [[[|]|e|] w1]; cbn [fst snd] in Hturn;
    [|intros ?; by simplify_eq/=..].
  destruct Hturn as [HS1 _].
  destruct (loop fuel w1) as [[tr1 [o1 w2]]|] eqn:Hloop; [|done].
  cbn. intros ?; simplify_eq/=. by eapply IH.
Qed.

Lemma select_difficulty_ends lines :
  match select_difficulty lines with
  | (Ok _, _) => True
  | (Raise e, rest) => e = EOFError ∧ rest = []
  | (Stuck, _) => False
  end.
Proof.
  induction lines as [|l lines IH]; cbn [select_difficulty]; [done|].
  repeat case_decide; done.
Qed.

Lemma prologue_S w : Sound w → wp prologue (λ o w', Sound w' ∧ benign o w') w.
Proof.
  intros HS. unfold prologue, _select_difficulty.
  apply wp_bind, wp_get. wp_beta. apply wp_bind, wp_print. wp_beta.
  apply wp_bind, wp_bind, wp_print. wp_beta. apply wp_read_difficulty.
  pose proof (select_difficulty_ends (stdin w)) as Hsel. simpl_state.
  destruct (select_difficulty (stdin w)) as [[d|e|] rest]; cbn [fst snd];
    [| |done].
  - repeat S_step; S_done.
  - destruct Hsel as [-> ->]. split; [|by left].
    by apply Sound_set_stdin, Sound_set_console, Sound_set_console.
Qed.

(** What a session that starts sound ends with *)
Definition ends_lost (o : outcome unit) (w : World) : Prop :=
  Sound w ∧ benign o w ∧ (o = Ok tt → last (console w) = Some "DIED").

Lemma ends_lost_raise e w :
  Sound w → benign (Raise e : outcome unit) w → ends_lost (Raise e) w.
Proof. intros HS Hb. split; [done|]. split; [done|]. done. Qed.

Lemma start_S w tr o w' :
  Sound w → start w = Some (tr, (o, w')) → ends_lost o w'.
Proof.
  intros HS. unfold start.
  pose proof (prologue_S w HS) as Hpro. unfold wp in Hpro.
  destruct (prologue w) as [[[]|e|] w1]; cbn [fst snd] in Hpro.
  2,3: intros ?; simplify_eq/=; destruct Hpro as [? Hb];
       first [by destruct Hb | by apply ends_lost_raise].
  destruct Hpro as [HS1 _].
  destruct (loop _ w1) as [[tr1 [o1 w2]]|] eqn:Hloop; [|done].
  apply loop_S in Hloop as [HS2 Hb]; [|done]. cbn.
  destruct o1 as [[]|e|];
    [|intros ?; simplify_eq/=;
      first [by destruct Hb | by apply ends_lost_raise]..].
  unfold _game_over, mbind, M_bind. cbn [get].
  rewrite (Sound_escaped _ HS2). unfold print. intros ?; simplify_eq/=.
  split; [by apply Sound_set_console|]. split; [exact I|]. intros _.
  simpl_state. apply last_snoc.
Qed.

(** A save file that a sound session can have left: none, or a snapshot
    of a game as [wf] says. *)
Definition own_file (f : save_file) : Prop :=
  match f with
  | NoFile => True
  | Unreadable => False
  | Saved j => snap_ok j
  end.

Lemma main_S seed r0 file lines tr o w' :
  own_file file → main seed r0 file lines = Some (tr, (o, w')) → ends_lost o w'.
Proof.
  intros Hfile. unfold main.
  pose proof (wf_init seed r0) as Hwf.
  destruct (Game_init seed r0) as [g r] eqn:Hinit. cbn [fst] in Hwf.
  apply start_S. split; [done|]. split; [|done]. simpl_state.
  unfold Game_init in Hinit. simplify_eq. simpl_state. apply List.Forall_nil.
Qed.

(** X18.  Nobody gets out.  No exit of the map of [_init_world] leads to
    the garden, and no command makes one.  So in a session that starts
    without a save file, or with one that such a session saved, whatever
    the seed and the input, the player never enters the garden and never
    escapes: a session that comes to its regular end reports "DIED", and
    the save file it leaves is again of that kind. *)
Theorem nobody_gets_out (seed : option string) (r0 : rng G)
    (file : save_file) (lines : list string) :
  own_file file →
  ∃ tr o w',
    main seed r0 file lines = Some (tr, (o, w'))
    ∧ Player.room_id (player (game w')) ≠ "garden"
    ∧ Player.escaped (player (game w')) = false
    ∧ (o = Ok tt → last (console w') = Some "DIED")
    ∧ own_file (save_json w').
Proof.
  intros Hfile.
  destruct (main_total seed r0 file lines) as [[tr [o w']] Hmain].
  exists tr, o, w'. split; [done|].
  destruct (main_S _ _ _ _ _ _ _ Hfile Hmain) as (HS & _ & Hdied).
  split; [by apply inside_not_garden, Sound_player|].
  split; [by apply Sound_escaped|]. split; [done|]. by destruct HS as (_ & _ & ?).
Qed.


(** X20.  The hour of grace.  In a session that starts without a save
    file, or with one that such a session saved, whatever the seed and the
    input, the phantom is active only when the turn counter is above 8 and
    the tutorial is done: until then no tick makes it attack or walk. *)
Theorem phantom_keeps_the_grace_period (seed : option string) (r0 : rng G)
    (file : save_file) (lines : list string) :
  own_file file →
  ∃ tr o w',
    main seed r0 file lines = Some (tr, (o, w'))
    ∧ (Phantom.active (phantom (game w')) = true →
       8 < Player.turns (player (game w'))
       ∧ Player.tutorial_done (player (game w')) = true).
Proof.
  intros Hfile.
  destruct (main_total seed r0 file lines) as [[tr [o w']] Hmain].
  exists tr, o, w'. split; [done|].
  destruct (main_S _ _ _ _ _ _ _ Hfile Hmain) as (HS & _).
  exact (Sound_grace _ HS).
Qed.

(** X21.  What cannot be taken is never carried.  In a session that starts
    without a save file, or with one that such a session saved, whatever
    the seed and the input, every item in the pockets is takeable: the
    safe and the piano stay where they are. *)
Theorem only_takeable_items_are_carried (seed : option string) (r0 : rng G)
    (file : save_file) (lines : list string) :
  own_file file →
  ∃ tr o w',
    main seed r0 file lines = Some (tr, (o, w'))
    ∧ Forall (λ i, Item.takeable i = true)
        (Player.inventory (player (game w'))).
Proof.
  intros Hfile.
  destruct (main_total seed r0 file lines) as [[tr [o w']] Hmain].
  exists tr, o, w'. split; [done|].
  destruct (main_S _ _ _ _ _ _ _ Hfile Hmain) as (HS & _).
  exact (Sound_inventory _ HS).
Qed.

(** ** Commands that only show *)




(** ** Looking and using *)

(** What [look] may do: nothing to the game, or one more entry at the end
    of the journal; the input and the save file stay. *)
Definition noted (w w' : World) : Prop :=
  stdin w' = stdin w
  ∧ save_json w' = save_json w
  ∧ (game w' = game w
     ∨ ∃ e,
         game w'
         = set_player
             (Player.set_journal (Player.journal (player (game w)) ++ [e])
                (player (game w)))
             (game w)).

Ltac noted_tac :=
  repeat match goal with
  | H : quiet _ _ |- _ => destruct H as (? & ? & ? & _)
  | H : _ ∧ _ |- _ => destruct H
  end;
  subst; unfold noted; simpl_state;
  repeat match goal with
  | H : game ?w = _ |- _ => is_var w; try rewrite !H in *; clear H; simpl_state
  | H : stdin ?w = _ |- _ => is_var w; try rewrite !H in *; clear H; simpl_state
  | H : save_json ?w = _ |- _ => is_var w; try rewrite !H in *; clear H; simpl_state
  end;
  split; [done|]; split; [done|];
  first [ by left | right; eexists; reflexivity ].

Lemma look_noted target w : wp (look target) (λ _ w', noted w w') w.
Proof. unfold look. repeat wp_step still_calls; noted_tac. Qed.

(** X23.  Looking writes the journal at most.  [look], on any argument and
    from any state, reads no input, leaves the save file alone, and leaves
    the game as it is or with one more entry at the end of the journal:
    rooms, pockets, sanity, phantom and undo history stay.  With no
    argument, or "room" or "around", it does nothing at all. *)
Theorem look_only_writes_the_journal (target : string) (w : World) :
  noted w (look target w).2
  ∧ (target = "" ∨ target ∈ ["room"; "around"] → look target w = (Ok tt, w)).
Proof.
  split; [apply look_noted|].
  intros Hnone. unfold look.
  replace (bool_decide (target = "") || bool_decide (target ∈ ["room"; "around"]))
    with true; [done|].
  destruct Hnone as [->|Hin]; [done|].
  rewrite (bool_decide_eq_true_2 _ Hin). by rewrite orb_true_r.
Qed.


End Engine.


(** * Concrete sessions *)

Module Sample.

(** A stand-in for the scorer of [thefuzz] that knows one near miss and
    scores every other token 0 against the first choice. *)
Definition extractOne (query : string) (choices : list string) : string * Z :=
  if decide (query = "lisen") then ("listen", 91)
  else (default "" (head choices), 0).

(** The session of seed 1234 before its first command. *)
Definition fresh : @World Lcg.gen :=
  let '(g, r) := @Game_init Lcg.gen (Some "1234") 0 in
  mkWorld g r NoFile [] [] true.

(** Turn 12 at the gate with the phantom awake in the same room, its stun
    expiring at turn [stun]. *)
Definition haunted (stun : Z) : @World Lcg.gen :=
  set_game
    (set_phantom (Phantom.mk "gate" true stun)
       (set_player (Player.set_turns 12 (player (game fresh))) (game fresh)))
    fresh.

End Sample.

Example py_round_ties : py_round (15 # 2) = 8 ∧ py_round (45 # 2) = 22.
Proof. split; reflexivity. Qed.

Lemma stunned_tick_is_inert_witness :
  _update_phantom (Sample.haunted 13) = (Ok tt, Sample.haunted 13).
Proof. apply stunned_tick_is_inert. vm_compute. reflexivity. Defined.

(** C4 as the specification states it fails: with the stun expiring at the
    very turn of the tick (12 and 12) the phantom attacks. *)
Lemma stun_expiring_now_attacks :
  ¬ (∀ (G : RandomGen) (w : @World G),
       Player.turns (player (game w)) ≤ Phantom.stun_timer (phantom (game w)) →
       player (game (_update_phantom w).2) = player (game w)
       ∧ phantom (game (_update_phantom w).2) = phantom (game w)).
Proof.
  intros H. destruct (H Lcg.gen (Sample.haunted 12)) as [Hp _].
  - vm_compute. discriminate.
  - apply (f_equal Player.sanity) in Hp. vm_compute in Hp. discriminate.
Qed.

Example stun_expiring_now_sanity :
  Player.sanity (player (game (_update_phantom (Sample.haunted 12)).2)) = 85.
Proof. vm_compute. reflexivity. Qed.

Lemma phantom_attack_damage_witness :
  Player.sanity (player (game (_update_phantom (Sample.haunted 12)).2))
  = Player.sanity (player (game (Sample.haunted 12)))
    - (if decide (Player.difficulty (player (game (Sample.haunted 12))) = "story")
       then 7
       else if decide (Player.difficulty (player (game (Sample.haunted 12))) = "hard")
       then 22
       else 15).
Proof.
  apply phantom_attack_damage.
  - vm_compute. discriminate.
  - left. reflexivity.
  - reflexivity.
Defined.

(** C5 as the specification states it fails: on story difficulty the
    attack costs 7, and [round(7.5)] is 8.  The phantom here was never
    stunned (stun timer 0 at turn 12). *)
Lemma story_damage_is_not_rounded :
  ¬ (∀ (G : RandomGen) (w : @World G),
       ¬ Player.turns (player (game w)) < Phantom.stun_timer (phantom (game w)) →
       Phantom.active (phantom (game w)) = true →
       Phantom.room_id (phantom (game w)) = Player.room_id (player (game w)) →
       Player.sanity (player (game (_update_phantom w).2))
       = Player.sanity (player (game w))
         - py_round (Qmult (inject_Z DRAIN_PHANTOM_ATTACK) (_diff_mult (game w)))).
Proof.
  intros H.
  specialize (H Lcg.gen
    (set_game (set_player (Player.set_difficulty "story"
                             (player (game (Sample.haunted 0))))
                 (game (Sample.haunted 0)))
       (Sample.haunted 0))).
  vm_compute in H. specialize (H ltac:(discriminate) eq_refl eq_refl).
  discriminate.
Qed.

(** C9 as the specification states it fails: [listen] in a fresh session
    leaves a snapshot on the undo history. *)
Lemma listen_grows_history :
  ¬ (∀ (G : RandomGen) (arg : string) (w : @World G),
       player (game (listen arg w).2) = player (game w)
       ∧ phantom (game (listen arg w).2) = phantom (game w)
       ∧ rooms (game (listen arg w).2) = rooms (game w)
       ∧ history (game (listen arg w).2) = history (game w)).
Proof.
  intros H. destruct (H Lcg.gen "" Sample.fresh) as (_ & _ & _ & Hh).
  apply (f_equal length) in Hh. vm_compute in Hh. discriminate.
Qed.

(** C8 fails on the code: the journal guard of [look] tests the hidden
    text but appends the name and the hidden text, so a second look at
    the note of the kitchen appends the same entry again. *)
Theorem look_twice_duplicates :
  (λ r, Player.journal (player (game r.2.2)))
    <$> main Sample.extractOne (Some "1234") (0 : rng Lcg.gen) NoFile
          ["2"; "take iron key"; "go north"; "go east"; "look note"; "look note"]
  = Some ["Crumpled Note: Code: 246"; "Crumpled Note: Code: 246"].
Proof. vm_compute. reflexivity. Qed.

Lemma load_and_restore_witness :
  load_state "" Sample.fresh = (Ok tt, Sample.fresh).
Proof. exact (proj1 (load_and_restore "" Sample.fresh) eq_refl). Defined.

(** C10 as the specification states it fails: a save file that holds a
    seed and a safe code but no player makes [load_state] raise after the
    seed and the safe code of the session were overwritten. *)
Lemma failed_load_changes_state :
  ¬ (∀ (G : RandomGen) (arg : string) (w : @World G) (e : exn),
       (load_state arg w).1 = Raise e →
       game (load_state arg w).2 = game w).
Proof.
  intros H.
  specialize (H Lcg.gen ""
    (set_save_json
       (Saved (JObj [("seed", JStr "9999"); ("safe_code", JStr "000")]))
       Sample.fresh)
    (KeyError "player") eq_refl).
  apply (f_equal seed) in H. vm_compute in H. discriminate.
Qed.

(** The exception of a failed load ends the session: it leaves the loop
    and [start] without the game-over report. *)
Example unreadable_save_aborts :
  (λ r, r.2.1) <$> main Sample.extractOne (Some "1234") (0 : rng Lcg.gen)
                     Unreadable ["2"; "load"]
  = Some (Raise JSONDecodeError).
Proof. vm_compute. reflexivity. Qed.

Lemma dispatch_resolution_witness :
  (∃ handler,
     Dict.get "listen" (@cmds Lcg.gen) = Some handler
     ∧ dispatch Sample.extractOne "lisen" Sample.fresh
       = handler ""
           (set_console
              (console Sample.fresh ++ ["[dim italic]Did you mean 'listen'?[/]"])
              Sample.fresh))
  ∧ dispatch Sample.extractOne "xyzzy now" Sample.fresh
    = (Ok tt,
       set_console (console Sample.fresh ++ ["[dim]Unknown command.[/]"])
         Sample.fresh)
  ∧ game (turn Sample.extractOne (set_stdin ["  "; "go north"] Sample.fresh)).2
    = game (set_stdin ["  "; "go north"] Sample.fresh).
Proof.
  split; [|split].
  - apply (proj1 (dispatch_resolution Sample.extractOne Sample.fresh)
             "lisen" "lisen" []); try reflexivity.
    + vm_compute. discriminate.
    + apply (bool_decide_unpack _). vm_compute. exact I.
  - apply (proj1 (proj2 (dispatch_resolution Sample.extractOne Sample.fresh))
             "xyzzy now" "xyzzy" ["now"]); reflexivity.
  - apply (proj2 (proj2 (dispatch_resolution Sample.extractOne
                           (set_stdin ["  "; "go north"] Sample.fresh)))
             "  " ["go north"]); try reflexivity.
    vm_compute. discriminate.
Defined.



Module Sample_full.

(** The fresh session with five lanterns in the pockets. *)
Definition world : @World Lcg.gen :=
  set_game
    (set_player
       (Player.set_inventory
          (replicate 5 (Item.mk "lantern" "Lantern" "Dim." true false None 0))
          (player (game Sample.fresh)))
       (game Sample.fresh))
    Sample.fresh.

(** The same with a sixth lantern: a state that no session of the engine
    reaches by itself, but that a save file can hold. *)
Definition overfull : @World Lcg.gen :=
  set_game
    (set_player
       (Player.set_inventory
          (replicate 6 (Item.mk "lantern" "Lantern" "Dim." true false None 0))
          (player (game Sample.fresh)))
       (game Sample.fresh))
    Sample.fresh.

End Sample_full.

Lemma inventory_capacity_witness :
  (∃ tr o w',
     main Sample.extractOne (Some "1234") (0 : rng Lcg.gen)
       (Saved (_snapshot (game Sample_full.world)))
       ["2"; "load"; "take iron key"; "save"]
     = Some (tr, (o, w'))
     ∧ (length (Player.inventory (player (game w'))) ≤ MAX_INV_SLOTS)%nat
     ∧ file_ok Pockets (save_json w'))
  ∧ take "up iron key" Sample_full.world
    = (Ok tt,
       set_console (console Sample_full.world ++ ["[red]Inventory full![/]"])
         (set_game
            (set_history
               (pushed (history (game Sample_full.world))
                  (_snapshot (game Sample_full.world)))
               (game Sample_full.world))
            Sample_full.world)).
Proof.
  split.
  - apply (proj1 (inventory_capacity Sample.extractOne)).
    intros d v Hd Hv.
    vm_compute in Hd. injection Hd as <-.
    vm_compute in Hv. injection Hv as <-.
    eexists. split; [reflexivity|]. vm_compute. lia.
  - eapply (proj2 (inventory_capacity Sample.extractOne)).
    + vm_compute. reflexivity.
    + vm_compute. reflexivity.
    + reflexivity.
    + vm_compute. lia.
Defined.

(** C7 as the specification states it fails: [load] installs what the save
    file holds for the player, and after the load of a file with six items
    the player carries six. *)
Lemma load_exceeds_the_capacity :
  ¬ (∀ file lines tr o w',
       main Sample.extractOne (Some "1234") (0 : rng Lcg.gen) file lines
       = Some (tr, (o, w')) →
       (length (Player.inventory (player (game w'))) ≤ MAX_INV_SLOTS)%nat).
Proof.
  intros H.
  destruct (main_total Sample.extractOne (Some "1234") (0 : rng Lcg.gen)
              (Saved (_snapshot (game Sample_full.overfull))) ["2"; "load"])
    as [[tr [o w']] Hmain].
  assert (length (Player.inventory (player (game w'))) = 6%nat) as Hs.
  { apply (f_equal (fmap (λ r, length (Player.inventory (player (game r.2.2))))))
      in Hmain.
    vm_compute in Hmain. by simplify_eq. }
  apply H in Hmain. unfold MAX_INV_SLOTS in Hmain. lia.
Qed.

(** That session ends regularly, with six items carried; with the file of
    five, the sixth is refused. *)
Example six_items_after_load :
  (λ r, (r.2.1, length (Player.inventory (player (game r.2.2)))))
    <$> main Sample.extractOne (Some "1234") (0 : rng Lcg.gen)
          (Saved (_snapshot (game Sample_full.overfull))) ["2"; "load"]
  = Some (Ok tt, 6%nat).
Proof. vm_compute. reflexivity. Qed.

Example five_items_after_load_and_take :
  (λ r, (r.2.1, length (Player.inventory (player (game r.2.2)))))
    <$> main Sample.extractOne (Some "1234") (0 : rng Lcg.gen)
          (Saved (_snapshot (game Sample_full.world)))
          ["2"; "load"; "take iron key"; "save"]
  = Some (Ok tt, 5%nat).
Proof. vm_compute. reflexivity. Qed.

Lemma session_determinism_witness :
  observed (main Sample.extractOne (Some "1234") (0 : rng Lcg.gen) NoFile
              ["2"; "take iron key"; "lisen"; "go north"])
  = observed (main Sample.extractOne (Some "1234") (77 : rng Lcg.gen) Unreadable
                ["2"; "take iron key"; "lisen"; "go north"]).
Proof.
  apply session_determinism. right.
  repeat first [apply List.Forall_nil | apply List.Forall_cons];
    vm_compute; reflexivity.
Defined.

Module Sample_saved.

(** An earlier session of the same seed that walks between the gate and
    the foyer until the phantom has left the attic, and saves. *)
Definition earlier : list string :=
  ["2"; "take iron key"; "go north"; "go south"; "go north"; "go south";
   "go north"; "go south"; "go north"; "go south"; "go north"; "go south";
   "save"].

(** The file save.json that it leaves *)
Definition file : save_file :=
  default NoFile
    ((λ r, save_json r.2.2)
       <$> main Sample.extractOne (Some "1234") (0 : rng Lcg.gen) NoFile earlier).

End Sample_saved.

(** C3 as the specification states it fails: with seed 1234 and the input
    "2", "load", the phantom is in the attic when there is no save file
    and in the library when the file is the one an earlier session of the
    same seed saved. *)
Lemma save_file_changes_the_phantom :
  ¬ (∀ (file1 file2 : save_file) (lines : list string),
       (λ r, (r.1, safe_code (game r.2.2)))
         <$> main Sample.extractOne (Some "1234") (0 : rng Lcg.gen) file1 lines
       = (λ r, (r.1, safe_code (game r.2.2)))
           <$> main Sample.extractOne (Some "1234") (0 : rng Lcg.gen) file2 lines).
Proof.
  intros H. specialize (H NoFile Sample_saved.file ["2"; "load"]).
  vm_compute in H. discriminate.
Qed.

Example phantom_rooms_without_and_with_file :
  (λ r, r.1) <$> main Sample.extractOne (Some "1234") (0 : rng Lcg.gen)
                   NoFile ["2"; "load"] = Some ["attic"]
  ∧ (λ r, r.1) <$> main Sample.extractOne (Some "1234") (0 : rng Lcg.gen)
                     Sample_saved.file ["2"; "load"] = Some ["library"].
Proof. split; vm_compute; reflexivity. Qed.

(** C1 on the exit that the piano puzzle adds: solving the puzzle in the
    library opens the east exit, and [undo] takes it away again. *)
Example undo_removes_the_piano_exit :
  let w := set_stdin ["d-a-d"]
             (set_game
                (set_player (Player.set_room_id "library" (player (game Sample.fresh)))
                   (game Sample.fresh))
                Sample.fresh) in
  let exits_of (w : @World Lcg.gen) :=
    Dict.keys <$> (Room.exits <$> rooms (game w) !! "library") in
  exits_of w = Some ["south"; "up"]
  ∧ exits_of (play_piano "piano" w).2 = Some ["south"; "up"; "east"]
  ∧ exits_of (undo "" (play_piano "piano" w).2).2 = Some ["south"; "up"].
Proof. repeat split; vm_compute; reflexivity. Qed.

(** * Further properties on concrete states *)

Module Sample_more.

(** In the kitchen with the silver key and no light: the basement is one
    step down. *)
Definition at_the_stairs : @World Lcg.gen :=
  set_game
    (set_player
       (Player.set_inventory
          [Item.mk "silver_key" "Silver Key" "Small key." true false None 0]
          (Player.set_room_id "kitchen" (player (game Sample.fresh))))
       (game Sample.fresh))
    Sample.fresh.

(** In the library, with [lines] on the input *)
Definition in_the_library (lines : list string) : @World Lcg.gen :=
  set_stdin lines
    (set_game
       (set_player (Player.set_room_id "library" (player (game Sample.fresh)))
          (game Sample.fresh))
       Sample.fresh).

(** Turn 9 in the foyer, the tutorial done, the phantom still asleep in
    the attic *)
Definition before_dawn : @World Lcg.gen :=
  set_game
    (set_player
       (Player.set_tutorial_done true
          (Player.set_turns 9
             (Player.set_room_id "foyer" (player (game Sample.fresh)))))
       (game Sample.fresh))
    Sample.fresh.

(** Turn 12 at the gate with the flashlight, the phantom awake in [room] *)
Definition armed (room : string) : @World Lcg.gen :=
  set_game
    (set_phantom (Phantom.mk room true 0)
       (set_player
          (Player.set_inventory
             [Item.mk "flashlight" "Flashlight" "Rugged and heavy." true false
                None 0]
             (player (game (Sample.haunted 0))))
          (game (Sample.haunted 0))))
    (Sample.haunted 0).

End Sample_more.

Lemma Lcg_in_range : @in_range Lcg.gen.
Proof.
  intros n r Hn. cbn [rng_randbelow Lcg.gen Lcg.below fst].
  pose proof (Z.mod_pos_bound (Lcg.next r / 65536) (Z.of_nat n)). lia.
Qed.


Lemma undo_is_a_stack_witness :
  mutable
    (game (undos 3 (run [take "iron key"; move "north"; hint ""] Sample.fresh)))
  = mutable (game Sample.fresh).
Proof.
  apply (undo_is_a_stack [take "iron key"; move "north"; hint ""] Sample.fresh).
  - repeat first [apply List.Forall_nil | apply List.Forall_cons].
    + exists take, "iron key". split; [|reflexivity].
      apply list_elem_of_further, list_elem_of_here.
    + exists move, "north". split; [|reflexivity]. apply list_elem_of_here.
    + exists hint, "". split; [|reflexivity].
      do 7 apply list_elem_of_further. apply list_elem_of_here.
  - vm_compute. lia.
Defined.

(** The stack is no deeper than ten: after eleven hints, eleven undos end
    on the state after the first hint. *)
Example eleven_undos_fall_short :
  Player.sanity
    (player (game (undos 11 (run (replicate 11 (hint "")) Sample.fresh))))
  = 95.
Proof. vm_compute. reflexivity. Qed.

Lemma save_then_load_witness :
  (load_state ""
     (run [take "iron key"; move "north"] (save_state "" Sample.fresh).2)).1
  = Ok tt
  ∧ mutable
      (game (load_state ""
               (run [take "iron key"; move "north"]
                  (save_state "" Sample.fresh).2)).2)
    = mutable (game Sample.fresh).
Proof.
  apply (save_then_load [take "iron key"; move "north"] "" "" Sample.fresh).
  repeat first [apply List.Forall_nil | apply List.Forall_cons].
  - exists "take", take, "iron key". split; [reflexivity|]. by split.
  - exists "go", move, "north". split; [reflexivity|]. by split.
Defined.



Lemma only_moves_take_time_witness :
  phantom (game (take "iron key" Sample.fresh).2) = phantom (game Sample.fresh)
  ∧ Player.turns (player (game (take "iron key" Sample.fresh).2))
    = Player.turns (player (game Sample.fresh))
  ∧ Player.room_id (player (game (take "iron key" Sample.fresh).2))
    = Player.room_id (player (game Sample.fresh)).
Proof.
  apply (only_moves_take_time "take" "iron key" take Sample.fresh).
  - reflexivity.
  - apply (bool_decide_unpack _). vm_compute. exact I.
Defined.

Lemma phantom_awakening_witness :
  _update_phantom Sample.fresh = (Ok tt, Sample.fresh)
  ∧ Phantom.active
      (phantom (game (_update_phantom Sample_more.before_dawn).2)) = true
  ∧ Phantom.active (phantom (game (_update_phantom (Sample.haunted 12)).2))
    = true.
Proof.
  split; [|split].
  - apply (proj1 (phantom_awakening Sample.fresh)); [reflexivity|].
    left. vm_compute. discriminate.
  - apply (proj1 (proj2 (phantom_awakening Sample_more.before_dawn)));
      try reflexivity; vm_compute; discriminate.
  - apply (proj2 (proj2 (phantom_awakening (Sample.haunted 12)))). reflexivity.
Defined.

Lemma flash_effect_witness :
  mutable (game (flash "" Sample.fresh).2) = mutable (game Sample.fresh)
  ∧ phantom (game (flash "" (Sample_more.armed "attic")).2)
    = phantom (game (Sample_more.armed "attic"))
  ∧ Phantom.stun_timer (phantom (game (flash "" (Sample_more.armed "gate")).2))
    = 15.
Proof.
  split; [|split].
  - apply (proj1 (flash_effect "" Sample.fresh)). left. reflexivity.
  - apply (proj1 (proj2 (flash_effect "" (Sample_more.armed "attic")))).
    + reflexivity.
    + vm_compute. discriminate.
    + vm_compute. discriminate.
  - apply (proj2 (proj2 (flash_effect "" (Sample_more.armed "gate")))).
    + reflexivity.
    + vm_compute. discriminate.
    + reflexivity.
Defined.

Lemma darkness_kills_witness :
  Player.alive (player (game (move "down" Sample_more.at_the_stairs).2)) = false.
Proof.
  eapply (darkness_kills "down" Sample_more.at_the_stairs).
  - vm_compute. reflexivity.
  - vm_compute. reflexivity.
  - vm_compute. reflexivity.
  - right. vm_compute. reflexivity.
  - reflexivity.
  - left. reflexivity.
  - vm_compute. reflexivity.
Defined.

Lemma the_code_is_on_the_note_witness :
  String.length (safe_code (@Game_init Lcg.gen (Some "1234") 0).1) = 3%nat
  ∧ ∃ n, 100 ≤ n ≤ 999
         ∧ safe_code (@Game_init Lcg.gen (Some "1234") 0).1 = Str.of_Z n.
Proof.
  exact (proj2 (@the_code_is_on_the_note Lcg.gen (Some "1234") 0) Lcg_in_range).
Defined.

Lemma unlock_the_safe_witness :
  stdin (unlock "safe" (Sample_more.in_the_library ["246"])).2 = []
  ∧ player (game (unlock "safe" (Sample_more.in_the_library ["246"])).2)
    = player (game (Sample_more.in_the_library ["246"]))
  ∧ mutable (game (unlock "gate" Sample.fresh).2) = mutable (game Sample.fresh).
Proof.
  split; [|split].
  - edestruct (proj1 (unlock_the_safe "safe" (Sample_more.in_the_library ["246"]))
                 eq_refl eq_refl)
      as (_ & Hin & _); [vm_compute; reflexivity|reflexivity|exact Hin].
  - edestruct (proj1 (unlock_the_safe "safe" (Sample_more.in_the_library ["246"]))
                 eq_refl eq_refl)
      as (_ & _ & Hright & _); [vm_compute; reflexivity|reflexivity|].
    apply Hright. vm_compute. reflexivity.
  - apply (proj2 (unlock_the_safe "gate" Sample.fresh)). left. reflexivity.
Defined.

Lemma piano_opens_the_study_witness :
  piano_solved (game (play_piano "piano" (Sample_more.in_the_library [" d-a-d"])).2)
  = true.
Proof.
  edestruct (proj1 (piano_opens_the_study "piano"
                      (Sample_more.in_the_library [" d-a-d"]) eq_refl eq_refl))
    as (_ & _ & Hsolved & _).
  - reflexivity.
  - vm_compute. reflexivity.
  - reflexivity.
  - apply (bool_decide_unpack _). vm_compute. exact I.
  - exact Hsolved.
Defined.

(** After the piano the study is one step east. *)
Example east_of_the_library :
  Player.room_id
    (player (game (move "east"
                     (play_piano "piano"
                        (Sample_more.in_the_library ["dad"])).2).2))
  = "study".
Proof. vm_compute. reflexivity. Qed.

Lemma nobody_gets_out_witness :
  ∃ tr o w',
    main Sample.extractOne (Some "1234") (0 : rng Lcg.gen) NoFile
      ["2"; "take iron key"; "go north"; "go south"; "save"; "load"]
    = Some (tr, (o, w'))
    ∧ Player.room_id (player (game w')) ≠ "garden"
    ∧ Player.escaped (player (game w')) = false
    ∧ (o = Ok tt → last (console w') = Some "DIED")
    ∧ own_file (save_json w').
Proof. apply nobody_gets_out. exact I. Defined.


(** The session of that witness ends at the prompt of the safe. *)
Example input_ends_at_the_safe :
  (λ r, r.2.1) <$> main Sample.extractOne (Some "1234") (0 : rng Lcg.gen) NoFile
                     ["2"; "take iron key"; "go north"; "go north"; "unlock safe"]
  = Some (Raise EOFError).
Proof. vm_compute. reflexivity. Qed.

Lemma phantom_keeps_the_grace_period_witness :
  ∃ tr o w',
    main Sample.extractOne (Some "1234") (0 : rng Lcg.gen) NoFile
      ["2"; "take iron key"; "go north"; "go south"; "go north"]
    = Some (tr, (o, w'))
    ∧ (Phantom.active (phantom (game w')) = true →
       8 < Player.turns (player (game w'))
       ∧ Player.tutorial_done (player (game w')) = true).
Proof. apply phantom_keeps_the_grace_period. exact I. Defined.

(** The phantom of the earlier session that walked and saved is awake, at
    turn 10. *)
Example awake_after_ten_moves :
  (λ r, (Phantom.active (phantom (game r.2.2)), Player.turns (player (game r.2.2))))
    <$> main Sample.extractOne (Some "1234") (0 : rng Lcg.gen) NoFile
          Sample_saved.earlier
  = Some (true, 10).
Proof. vm_compute. reflexivity. Qed.

Lemma only_takeable_items_are_carried_witness :
  ∃ tr o w',
    main Sample.extractOne (Some "1234") (0 : rng Lcg.gen) NoFile
      ["2"; "take iron key"; "go north"; "go north"; "take safe"; "take piano"]
    = Some (tr, (o, w'))
    ∧ Forall (λ i, Item.takeable i = true)
        (Player.inventory (player (game w'))).
Proof. apply only_takeable_items_are_carried. exact I. Defined.


Module Sample_kitchen.


End Sample_kitchen.

Lemma look_only_writes_the_journal_witness :
  look "around" Sample.fresh = (Ok tt, Sample.fresh).
Proof.
  apply (proj2 (look_only_writes_the_journal "around" Sample.fresh)).
  right. apply (bool_decide_unpack _). vm_compute. exact I.
Defined.

